(** * s5-utils-nodejs: the CID codec, embedded and verified

    A shallow embedding of the CID code of s5-utils-nodejs
    ([basetools.js], [tools.js], [blake3tools.js], [constants.js]):
    the base58 / base32 / base64url codecs, the variable-length size
    codec, the binary CID layout and the prefixed text forms.

    Conventions of the embedding:
    - a [Buffer] / [Uint8Array] is a [list byte];
    - a JavaScript string is a [string]; the embedding covers strings of
      ASCII code units, which is what every alphabet here consists of;
    - a JavaScript number that holds an integer is a [Z]; the 32-bit
      operators ([<<], [>>], [>>>], [|], [&]) wrap as ECMAScript says;
    - a thrown [Error] is the [Throw] outcome carrying its message. *)

From Stdlib Require Import ZArith List String Ascii Bool Lia.
From coqutil Require Import Byte Z.bitblast.
Import ListNotations.
Local Open Scope string_scope.
Local Open Scope Z_scope.

(** ** The fragment of JavaScript and Node the sources rely on *)

Module JS.

(** [ToInt32] and [ToUint32] of ECMAScript, on integer-valued numbers. *)
Definition ToInt32 (x : Z) : Z := (x + 2 ^ 31) mod 2 ^ 32 - 2 ^ 31.
Definition ToUint32 (x : Z) : Z := x mod 2 ^ 32.

(** [x << n], [x >> n], [x >>> n], [x | y], [x & y]. *)
Definition shl (x n : Z) : Z := ToInt32 (Z.shiftl (ToInt32 x) (ToUint32 n mod 32)).
Definition sar (x n : Z) : Z := Z.shiftr (ToInt32 x) (ToUint32 n mod 32).
Definition shr (x n : Z) : Z := Z.shiftr (ToUint32 x) (ToUint32 n mod 32).
Definition bor (x y : Z) : Z := Z.lor (ToInt32 x) (ToInt32 y).
Definition band (x y : Z) : Z := Z.land (ToInt32 x) (ToInt32 y).

(** [x % y]: the remainder takes the sign of the dividend. *)
Definition rem (x y : Z) : Z := Z.rem x y.

(** [(x / y) | 0]: the quotient truncated towards zero, then [ToInt32]. *)
Definition div_or0 (x y : Z) : Z := bor (Z.quot x y) 0.

(** A number as [Number(bigint)] returns it: an integer-valued double,
    or [Infinity]. *)
Inductive number : Type :=
| Finite (z : Z)
| Infinity.

(** [Number(v)] for a non-negative BigInt [v]: exact below [2^53],
    otherwise rounded to 53 significant bits, ties to even. *)
Definition Number (v : Z) : number :=
  if v <? 2 ^ 53 then Finite v
  else
    let e := Z.log2 v - 52 in
    let q := Z.shiftr v e in
    let r := Z.land v (Z.ones e) in
    let half := 2 ^ (e - 1) in
    let q' := if r <? half then q
              else if half <? r then q + 1
              else if Z.even q then q else q + 1 in
    let res := Z.shiftl q' e in
    if res <? 2 ^ 1024 then Finite res else Infinity.

(** [n != 0] on a number. *)
Definition neq0 (n : number) : bool :=
  match n with
  | Finite z => negb (z =? 0)
  | Infinity => true
  end.

(** Outcome of a call that may throw. *)
Inductive outcome (A : Type) : Type :=
| Return (a : A)
| Throw (message : string).
Arguments Return {A} a.
Arguments Throw {A} message.

Definition bind {A B : Type} (m : outcome A) (k : A -> outcome B) : outcome B :=
  match m with
  | Return a => k a
  | Throw e => Throw e
  end.

(** *** Buffers *)

Definition Buffer : Type := list byte.

(** [Buffer.alloc(size)] and [Buffer.alloc(size, fill)]. *)
Definition alloc (size : nat) : Buffer := repeat (byte.of_Z 0) size.
Definition alloc_fill (size : nat) (fill : Z) : Buffer := repeat (byte.of_Z fill) size.

(** [buffer[i] = v] stores [v] modulo 256 and does nothing out of
    range. *)
Fixpoint set (buffer : Buffer) (i : nat) (v : Z) : Buffer :=
  match buffer, i with
  | [], _ => []
  | _ :: rest, O => byte.of_Z v :: rest
  | b :: rest, S i' => b :: set rest i' v
  end.

(** An index argument of [slice], clamped as ECMAScript does. *)
Definition clamp (len : nat) (k : Z) : nat :=
  if k <? 0 then Z.to_nat (Z.max (Z.of_nat len + k) 0)
  else Nat.min (Z.to_nat k) len.

(** [buffer.slice(start, end)] and [buffer.slice(start)]. *)
Definition slice (buffer : Buffer) (start stop : Z) : Buffer :=
  let a := clamp (List.length buffer) start in
  let b := clamp (List.length buffer) stop in
  firstn (b - a) (skipn a buffer).

Definition slice_from (buffer : Buffer) (start : Z) : Buffer :=
  skipn (clamp (List.length buffer) start) buffer.

(** [Buffer.from(array)]: every element is stored modulo 256. *)
Definition from_array (a : list Z) : Buffer := map byte.of_Z a.

(** *** Strings *)

(** [s[0]], [undefined] on the empty string. *)
Definition first_char (s : string) : option ascii :=
  match s with
  | EmptyString => None
  | String c _ => Some c
  end.

(** [s[0] === c]. *)
Definition first_is (s : string) (c : ascii) : bool :=
  match first_char s with
  | Some d => Ascii.eqb d c
  | None => false
  end.

(** [s.substring(1)]. *)
Definition substring1 (s : string) : string :=
  match s with
  | EmptyString => EmptyString
  | String _ rest => rest
  end.

(** [s.startsWith(p)]. *)
Definition startsWith (s p : string) : bool := String.prefix p s.

(** [alphabet.indexOf(c)] for a one-character string [c]: the first
    position of [c], or [-1]. *)
Fixpoint indexOf (alphabet : string) (c : ascii) : Z :=
  match alphabet with
  | EmptyString => -1
  | String a rest =>
      if Ascii.eqb a c then 0
      else let k := indexOf rest c in if k <? 0 then -1 else k + 1
  end.

(** [result += alphabet[i]]: out of range the index expression is
    [undefined], which the concatenation spells out. *)
Definition append_index (result alphabet : string) (i : Z) : string :=
  match (if i <? 0 then None else String.get (Z.to_nat i) alphabet) with
  | Some c => result ++ String c EmptyString
  | None => result ++ "undefined"
  end.

(** [result += alphabet.charAt(i)]: out of range [charAt] is empty. *)
Definition append_charAt (result alphabet : string) (i : Z) : string :=
  match (if i <? 0 then None else String.get (Z.to_nat i) alphabet) with
  | Some c => result ++ String c EmptyString
  | None => result
  end.

Definition is_lower (c : ascii) : bool :=
  let n := Z.of_nat (nat_of_ascii c) in (97 <=? n) && (n <=? 122).
Definition is_upper (c : ascii) : bool :=
  let n := Z.of_nat (nat_of_ascii c) in (65 <=? n) && (n <=? 90).

Definition lower_char (c : ascii) : ascii :=
  if is_upper c then ascii_of_nat (nat_of_ascii c + 32) else c.
Definition upper_char (c : ascii) : ascii :=
  if is_lower c then ascii_of_nat (nat_of_ascii c - 32) else c.

Fixpoint map_string (f : ascii -> ascii) (s : string) : string :=
  match s with
  | EmptyString => EmptyString
  | String c rest => String (f c) (map_string f rest)
  end.

Fixpoint exists_string (p : ascii -> bool) (s : string) : bool :=
  match s with
  | EmptyString => false
  | String c rest => p c || exists_string p rest
  end.

(** [s.toLowerCase()], [s.toUpperCase()], [/[a-z]/.test(s)] and
    [/[A-Z]/.test(s)].  The case mapping is that of ECMAScript on ASCII
    text, which is what the texts of CIDs and URLs are: on the code
    units 128 to 255 ECMAScript maps further letters, and U+00DF to two
    characters, which a map over 8-bit characters does not follow. *)
Definition toLowerCase (s : string) : string := map_string lower_char s.
Definition toUpperCase (s : string) : string := map_string upper_char s.
Definition test_lower (s : string) : bool := exists_string is_lower s.
Definition test_upper (s : string) : bool := exists_string is_upper s.

(** [s.replace(/a/g, b)] for single characters, and [s.replace(/a/g, '')]. *)
Definition replace_all (a b : ascii) (s : string) : string :=
  map_string (fun c => if Ascii.eqb c a then b else c) s.

Fixpoint remove_all (a : ascii) (s : string) : string :=
  match s with
  | EmptyString => EmptyString
  | String c rest =>
      if Ascii.eqb c a then remove_all a rest else String c (remove_all a rest)
  end.

(** [s.replace(/=+$/, '')]: the trailing run of [=] is dropped. *)
Fixpoint strip_trailing_eq (s : string) : string :=
  match s with
  | EmptyString => EmptyString
  | String c rest =>
      match strip_trailing_eq rest with
      | EmptyString => if Ascii.eqb c "=" then EmptyString else String c EmptyString
      | r => String c r
      end
  end.

(** [s.replace(a, '')] for a one-character string [a]: only the first
    occurrence is dropped. *)
Fixpoint remove_first (a : ascii) (s : string) : string :=
  match s with
  | EmptyString => EmptyString
  | String c rest =>
      if Ascii.eqb c a then rest else String c (remove_first a rest)
  end.

(** [c.repeat(n)]. *)
Fixpoint repeat_char (c : ascii) (n : nat) : string :=
  match n with
  | O => EmptyString
  | S n' => String c (repeat_char c n')
  end.

(** *** Node's [Buffer] text encodings

    [buffer.toString('base64')] is RFC 4648 base64 with [=] padding.
    [Buffer.from(text, 'base64')] (and ['base64url']) is Node's lenient
    decoder: it accepts both the standard and the URL-safe alphabet,
    skips every other character, stops at the first [=], and never
    throws. *)

Definition base64_alphabet : string :=
  "ABCDEFGHIJKLMNOPQRSTUVWXYZabcdefghijklmnopqrstuvwxyz0123456789+/".

Definition base64_char (i : Z) : ascii :=
  match String.get (Z.to_nat i) base64_alphabet with
  | Some c => c
  | None => "="%char
  end.

Fixpoint toString_base64 (buffer : Buffer) : string :=
  match buffer with
  | [] => EmptyString
  | [a] =>
      let a := byte.unsigned a in
      String (base64_char (Z.shiftr a 2))
        (String (base64_char (Z.shiftl (Z.land a 3) 4)) "==")
  | [a; b] =>
      let a := byte.unsigned a in
      let b := byte.unsigned b in
      String (base64_char (Z.shiftr a 2))
        (String (base64_char (Z.lor (Z.shiftl (Z.land a 3) 4) (Z.shiftr b 4)))
           (String (base64_char (Z.shiftl (Z.land b 15) 2)) "="))
  | a :: b :: c :: rest =>
      let a := byte.unsigned a in
      let b := byte.unsigned b in
      let c := byte.unsigned c in
      String (base64_char (Z.shiftr a 2))
        (String (base64_char (Z.lor (Z.shiftl (Z.land a 3) 4) (Z.shiftr b 4)))
           (String (base64_char (Z.lor (Z.shiftl (Z.land b 15) 2) (Z.shiftr c 6)))
              (String (base64_char (Z.land c 63)) (toString_base64 rest))))
  end.

(** The decoder's table: the value of a legal character. *)
Definition unbase64 (c : ascii) : option Z :=
  if Ascii.eqb c "-" then Some 62
  else if Ascii.eqb c "_" then Some 63
  else let k := indexOf base64_alphabet c in
       if k <? 0 then None else Some k.

(** The legal characters up to the first [=], as 6-bit values. *)
Fixpoint sextets (s : string) : list Z :=
  match s with
  | EmptyString => []
  | String c rest =>
      match unbase64 c with
      | Some v => v :: sextets rest
      | None => if Ascii.eqb c "=" then [] else sextets rest
      end
  end.

(** Four values give three bytes; a last group of three gives two
    bytes, of two gives one, and a single value is dropped. *)
Fixpoint unsextets (l : list Z) : Buffer :=
  match l with
  | a :: b :: c :: d :: rest =>
      byte.of_Z (Z.lor (Z.shiftl (Z.land a 63) 2) (Z.shiftr (Z.land b 48) 4))
      :: byte.of_Z (Z.lor (Z.shiftl (Z.land b 15) 4) (Z.shiftr (Z.land c 60) 2))
      :: byte.of_Z (Z.lor (Z.shiftl (Z.land c 3) 6) (Z.land d 63))
      :: unsextets rest
  | [a; b; c] =>
      [byte.of_Z (Z.lor (Z.shiftl (Z.land a 63) 2) (Z.shiftr (Z.land b 48) 4));
       byte.of_Z (Z.lor (Z.shiftl (Z.land b 15) 4) (Z.shiftr (Z.land c 60) 2))]
  | [a; b] =>
      [byte.of_Z (Z.lor (Z.shiftl (Z.land a 63) 2) (Z.shiftr (Z.land b 48) 4))]
  | _ => []
  end.

Definition from_base64 (text : string) : Buffer := unsextets (sextets text).

(** [buffer.toString('latin1')] followed by [charCodeAt] into a
    [Uint8Array]: each byte becomes the character of that code and back. *)
Definition toString_latin1 (buffer : Buffer) : string :=
  string_of_list_ascii (map ascii_of_byte buffer).
Definition charCodes (s : string) : Buffer :=
  map byte_of_ascii (list_ascii_of_string s).

(** [buffer.toString('hex')]. *)
Definition hex_digit (i : Z) : ascii :=
  match String.get (Z.to_nat i) "0123456789abcdef" with
  | Some c => c
  | None => "0"%char
  end.

Fixpoint toString_hex (buffer : Buffer) : string :=
  match buffer with
  | [] => EmptyString
  | b :: rest =>
      String (hex_digit (Z.shiftr (byte.unsigned b) 4))
        (String (hex_digit (Z.land (byte.unsigned b) 15)) (toString_hex rest))
  end.

End JS.

(** ** constants.js *)

Module Constants.

Definition cidTypeRaw : Z := 0x26.
Definition cidTypeMetadataMedia : Z := 0xc5.
Definition cidTypeMetadataWebApp : Z := 0x59.
Definition cidTypeResolver : Z := 0x25.
Definition cidTypeUserIdentity : Z := 0x77.
Definition cidTypeBridge : Z := 0x3a.
Definition cidTypeEncrypted : Z := 0xae.

Definition mhashBlake3Default : Z := 0x1f.

(** The registered CID type tags. *)
Definition cidTypes : list Z :=
  [cidTypeRaw; cidTypeMetadataMedia; cidTypeMetadataWebApp; cidTypeResolver;
   cidTypeUserIdentity; cidTypeBridge; cidTypeEncrypted].

End Constants.

(** ** basetools.js: the three base codecs *)

Module Basetools.
Import JS.

Definition ALPHABET : string :=
  "123456789ABCDEFGHJKLMNPQRSTUVWXYZabcdefghijkmnopqrstuvwxyz".

(** [for (j ...) { digits[j] += carry; carry = (digits[j] / 58) | 0;
    digits[j] %= 58; }]: the new digits and the carry left over. *)
Fixpoint encode58_carry (digits : list Z) (carry : Z) : list Z * Z :=
  match digits with
  | [] => ([], carry)
  | d :: rest =>
      let d := d + carry in
      let carry := div_or0 d 58 in
      let d := rem d 58 in
      let '(rest, carry) := encode58_carry rest carry in
      (d :: rest, carry)
  end.

(** [while (carry) { digits.push(carry % 58); carry = (carry / 58) | 0; }] *)
Fixpoint encode58_push (fuel : nat) (digits : list Z) (carry : Z) : list Z :=
  match fuel with
  | O => digits
  | S fuel' =>
      if carry =? 0 then digits
      else encode58_push fuel' (digits ++ [rem carry 58]) (div_or0 carry 58)
  end.

(** One round of the outer loop, for the byte [b]; [digits] is never
    empty there. *)
Definition encode58_step (digits : list Z) (b : byte) : list Z :=
  let digits := map (fun d => shl d 8) digits in
  let digits := match digits with
                | [] => []
                | d :: rest => (d + byte.unsigned b) :: rest
                end in
  let '(digits, carry) := encode58_carry digits 0 in
  encode58_push (Z.to_nat (Z.abs carry)) digits carry.

(** [while (digits[digits.length - 1] === 0) digits.pop()], on the
    digits listed from the last index down. *)
Fixpoint pop_zeros (top_down : list Z) : list Z :=
  match top_down with
  | 0 :: rest => pop_zeros rest
  | _ => top_down
  end.

Definition encodeBase58BTC (bytes : Buffer) : string :=
  let digits := fold_left encode58_step bytes [0] in
  let top_down := pop_zeros (rev digits) in
  fold_left (fun result d => append_index result ALPHABET d) top_down "".

(** [for (j ...) { value += bytes[j] * 58; bytes[j] = value & 0xff;
    value >>= 8; }] *)
Fixpoint decode58_carry (bytes : list Z) (value : Z) : list Z * Z :=
  match bytes with
  | [] => ([], value)
  | b :: rest =>
      let value := value + b * 58 in
      let b := band value 0xff in
      let value := sar value 8 in
      let '(rest, value) := decode58_carry rest value in
      (b :: rest, value)
  end.

(** [while (value > 0) { bytes.push(value & 0xff); value >>= 8; }] *)
Fixpoint decode58_push (fuel : nat) (bytes : list Z) (value : Z) : list Z :=
  match fuel with
  | O => bytes
  | S fuel' =>
      if 0 <? value
      then decode58_push fuel' (bytes ++ [band value 0xff]) (sar value 8)
      else bytes
  end.

Fixpoint decode58_for (str : string) (bytes : list Z) : outcome (list Z) :=
  match str with
  | EmptyString => Return bytes
  | String c rest =>
      let value := indexOf ALPHABET c in
      if value =? -1 then Throw "Invalid Base58Bitcoin string"
      else
        let '(bytes, value) := decode58_carry bytes value in
        let bytes := decode58_push (Z.to_nat value) bytes value in
        decode58_for rest bytes
  end.

Definition decodeBase58BTC (str : string) : outcome Buffer :=
  bind (decode58_for str []) (fun bytes => Return (from_array (rev bytes))).

Definition BASE32_ALPHABET : string := "ABCDEFGHIJKLMNOPQRSTUVWXYZ234567".

(** [while (bits >= 5) { ... }] of the encoder: result and bits. *)
Fixpoint encode32_while (fuel : nat) (result : string) (bits value : Z)
  : string * Z :=
  match fuel with
  | O => (result, bits)
  | S fuel' =>
      if 5 <=? bits then
        let index := band (shr value (bits - 5)) 31 in
        encode32_while fuel' (append_charAt result BASE32_ALPHABET index)
                       (bits - 5) value
      else (result, bits)
  end.

(** One round of the encoder's [for], on the state
    [(result, bits, value)]. *)
Definition encode32_step (st : string * Z * Z) (b : byte) : string * Z * Z :=
  let '(result, bits, value) := st in
  let value := bor (shl value 8) (byte.unsigned b) in
  let bits := bits + 8 in
  let '(result, bits) := encode32_while (Z.to_nat bits) result bits value in
  (result, bits, value).

Definition encodeBase32RFC (data : Buffer) : string :=
  let '(result, bits, value) := fold_left encode32_step data ("", 0, 0) in
  if 0 <? bits then
    let index := band (shl value (5 - bits)) 31 in
    append_charAt result BASE32_ALPHABET index
  else result.

(** The decoder's [for], on the state [(result, bits, value, index)]. *)
Fixpoint decode32_for (encoded : string) (result : Buffer) (bits value : Z)
  (index : nat) : Buffer * nat :=
  match encoded with
  | EmptyString => (result, index)
  | String c rest =>
      let charIndex := indexOf BASE32_ALPHABET c in
      let value := bor (shl value 5) charIndex in
      let bits := bits + 5 in
      if 8 <=? bits then
        let result := set result index (band (shr value (bits - 8)) 255) in
        decode32_for rest result (bits - 8) value (S index)
      else decode32_for rest result bits value index
  end.

Definition decodeBase32RFC (encoded : string) : Buffer :=
  let result := alloc (Z.to_nat ((Z.of_nat (String.length encoded) * 5 + 7) / 8)) in
  let '(result, index) := decode32_for encoded result 0 0 0 in
  slice result 0 (Z.of_nat index).

Definition encodeBase64URL (input : Buffer) : string :=
  let base64 := toString_base64 input in
  replace_all "/" "_" (replace_all "+" "-" (remove_all "=" base64)).

Definition decodeBase64URL (input : string) : Buffer :=
  let input := replace_all "_" "/" (replace_all "-" "+" input) in
  let paddingLength := (String.length input mod 4)%nat in
  let input := if (0 <? paddingLength)%nat
               then input ++ repeat_char "=" (4 - paddingLength)
               else input in
  let base64 := toString_latin1 (from_base64 input) in
  charCodes base64.

End Basetools.

(** ** tools.js: the size codec *)

Module Tools.
Import JS Basetools.

(** The [for] loop of [numToBuf]: returns the buffer and [lastIndex]. *)
Fixpoint numToBuf_for (fuel : nat) (i lastIndex value : Z) (buffer : Buffer)
  : Buffer * Z :=
  match fuel with
  | O => (buffer, lastIndex)
  | S fuel' =>
      if i <=? lastIndex then
        if value =? 0 then (buffer, i - 1)
        else numToBuf_for fuel' (i + 1) lastIndex (sar value 8)
                          (set buffer (Z.to_nat i) (rem value 256))
      else (buffer, lastIndex)
  end.

Definition numToBuf (value : Z) (bufferSize : nat) : Buffer :=
  let buffer := alloc bufferSize in
  let lastIndex := Z.of_nat bufferSize - 1 in
  let '(buffer, lastIndex) := numToBuf_for bufferSize 0 lastIndex value buffer in
  slice buffer 0 (lastIndex + 1).

(** The BigInt accumulated by [bufToNum], from the last byte down. *)
Definition bufToNum_big (buffer : Buffer) : Z :=
  fold_left (fun value b => Z.shiftl value 8 + byte.unsigned b) (rev buffer) 0.

Definition bufToNum (buffer : Buffer) : number := Number (bufToNum_big buffer).


(** *** tools.js: the prefixed text forms *)

(** Both arms of the length test do the same. *)
Definition encodeCIDWithPrefixZ (bytes : Buffer) : string :=
  if (List.length bytes =? 38)%nat
  then "z" ++ encodeBase58BTC bytes
  else "z" ++ encodeBase58BTC bytes.

Definition decodeCIDWithPrefixZ (cid : string) : outcome Buffer :=
  if first_is cid "z" then decodeBase58BTC (substring1 cid)
  else if negb (first_is cid "z") then decodeBase58BTC cid
  else Throw "Invalid input address".

Definition encodeCIDWithPrefixU (bytes : Buffer) : string :=
  if (List.length bytes =? 38)%nat
  then "u" ++ encodeBase64URL bytes
  else "u" ++ encodeBase64URL bytes.

Definition decodeCIDWithPrefixU (cid : string) : outcome Buffer :=
  if first_is cid "u" then Return (decodeBase64URL (substring1 cid))
  else if negb (first_is cid "u") then Return (decodeBase64URL cid)
  else Throw "Invalid u CID format".

Definition encodeCIDWithPrefixB (bytes : Buffer) : string :=
  if (List.length bytes =? 38)%nat
  then "b" ++ toLowerCase (encodeBase32RFC bytes)
  else "b" ++ toLowerCase (encodeBase32RFC bytes).

Definition decodeCIDWithPrefixB (cid : string) : Buffer :=
  let cid := if first_is cid "B" && test_upper cid
             then substring1 (toLowerCase cid) else cid in
  let cid := if first_is cid "b" && test_lower cid
             then substring1 cid else cid in
  let cid := if test_lower cid then toUpperCase cid else cid in
  decodeBase32RFC cid.

(** *** tools.js: text-to-text conversions *)

Definition convertB58btcToB32rfcCid (cid : string) : outcome string :=
  bind (decodeBase58BTC (substring1 cid)) (fun decoded =>
  let encoded := toLowerCase (strip_trailing_eq (encodeBase32RFC decoded)) in
  Return ("b" ++ encoded)).

Definition convertB32rfcToB58btcCid (cid : string) : string :=
  let decoded := decodeBase32RFC (toUpperCase (substring1 cid)) in
  "z" ++ encodeBase58BTC decoded.

Definition convertB64urlToB58btcCid (cid : string) : string :=
  let decoded := decodeBase64URL (substring1 cid) in
  "z" ++ encodeBase58BTC decoded.

Definition convertB58btcToB64urlCid (cid : string) : outcome string :=
  bind (decodeBase58BTC (substring1 cid)) (fun decoded =>
  Return ("u" ++ encodeBase64URL decoded)).

Definition convertB64urlToB32rfcCid (cid : string) : string :=
  let decoded := from_base64 (substring1 cid) in
  "b" ++ toLowerCase (strip_trailing_eq (encodeBase32RFC decoded)).

Definition convertB32rfcToB64urlCid (cid : string) : string :=
  let decoded := decodeBase32RFC (toUpperCase (substring1 cid)) in
  "u" ++ encodeBase64URL decoded.

(** *** tools.js: the subdomain of a URL *)

(** The pattern [/^(?:https?:\/\/)?([^./]+)\./i], piece by piece.
    [strip_ci p s]: [s] without the prefix [p], letters compared without
    case. *)
Fixpoint strip_ci (p s : string) : option string :=
  match p, s with
  | EmptyString, _ => Some s
  | String a p', String b s' =>
      if Ascii.eqb (upper_char a) (upper_char b) then strip_ci p' s' else None
  | String _ _, EmptyString => None
  end.

(** [(?:https?:\/\/)]: with the [s] first, then without. *)
Definition match_scheme (url : string) : option string :=
  match strip_ci "https://" url with
  | Some rest => Some rest
  | None => strip_ci "http://" url
  end.

(** The longest run of characters other than [.] and [/], and what
    follows it. *)
Fixpoint span_label (s : string) : string * string :=
  match s with
  | EmptyString => (EmptyString, EmptyString)
  | String c rest =>
      if Ascii.eqb c "." || Ascii.eqb c "/" then (EmptyString, s)
      else let '(l, r) := span_label rest in (String c l, r)
  end.

(** [([^./]+)\.] at the start of [s]: the group takes the longest run,
    and no shorter one can be followed by a dot. *)
Definition match_label (s : string) : option string :=
  match span_label s with
  | (String c l, String "." _) => Some (String c l)
  | _ => None
  end.

(** The optional scheme is tried first; when the rest does not match
    with it, the match is retried without it. *)
Definition getSubdomainFromUrl (url : string) : option string :=
  match match_scheme url with
  | Some rest =>
      match match_label rest with
      | Some label => Some label
      | None => match_label url
      end
  | None => match_label url
  end.

Definition convertDownloadDirectoryInputCid (cid : string) : outcome string :=
  let finish (responseCid : option string) :=
    match responseCid with
    | Some r => Return r
    | None => Throw "Invalid CID input address"
    end in
  if startsWith cid "http" then
    match getSubdomainFromUrl cid with
    | Some subdomain => finish (Some subdomain)
    | None => Throw "Invalid CID input address"
    end
  else
    bind (if first_is cid "z"
          then bind (convertB58btcToB32rfcCid cid) (fun r => Return (Some r))
          else Return None) (fun responseCid =>
    let responseCid := if first_is cid "u"
                       then Some (convertB64urlToB32rfcCid cid)
                       else responseCid in
    let responseCid := if first_is cid "b" then Some cid else responseCid in
    finish responseCid).

End Tools.

(** ** blake3tools.js: the binary CID *)

Module Blake3tools.
Import JS Constants Tools.

Definition generateMHashFromB3hash (b3hash : Buffer) : Buffer :=
  (alloc_fill 1 mhashBlake3Default ++ b3hash)%list.

Definition extractB3hashFromMHash (mHash : Buffer) : Buffer :=
  slice_from mHash 1.

(** [fileSize] is what [fs.statSync(filePath).size] returned. *)
Definition generateCIDFromMHash (mHash : Buffer) (fileSize : Z) : Buffer :=
  let bufSize := 16%nat in
  (alloc_fill 1 cidTypeRaw ++ mHash ++ numToBuf fileSize bufSize)%list.

(** [while (hashSize !== 33) { i++; hashSize = cid.length - i; }]:
    the final [hashSize], or [None] when [fuel] rounds do not end it. *)
Fixpoint hashSize_while (fuel : nat) (length i hashSize : Z) : option Z :=
  match fuel with
  | O => None
  | S fuel' =>
      if negb (hashSize =? 33)
      then hashSize_while fuel' length (i + 1) (length - (i + 1))
      else Some hashSize
  end.

Definition extractMHashFromCID (fuel : nat) (cid : Buffer) : option Buffer :=
  let cidTypeSize := 1 in
  let length := Z.of_nat (List.length cid) in
  match hashSize_while fuel length 0 (length - cidTypeSize) with
  | Some hashSize => Some (slice cid cidTypeSize (cidTypeSize + hashSize))
  | None => None
  end.

Definition extractRawSizeFromCID (cid : Buffer) : number :=
  let sliceLength := if (34 <=? List.length cid)%nat then 34 else 33 in
  let rawfilesizeBuffer := slice_from cid sliceLength in
  bufToNum rawfilesizeBuffer.

Definition extractB3hashFromCID (fuel : nat) (cid : Buffer) : option Buffer :=
  let cidTypeSize := 1 in
  let length := Z.of_nat (List.length cid) in
  match hashSize_while fuel length 0 (length - cidTypeSize) with
  | Some hashSize =>
      let mHash := slice cid cidTypeSize (cidTypeSize + hashSize) in
      Some (extractB3hashFromMHash mHash)
  | None => None
  end.

Definition convertS5CidToCIDBytes (cid : string) : outcome Buffer :=
  bind (if first_is cid "z"
        then bind (decodeCIDWithPrefixZ cid) (fun b => Return (Some b))
        else Return None) (fun cidBytes =>
  bind (if first_is cid "u"
        then bind (decodeCIDWithPrefixU cid) (fun b => Return (Some b))
        else Return cidBytes) (fun cidBytes =>
  let cidBytes := if first_is cid "b"
                  then Some (decodeCIDWithPrefixB cid) else cidBytes in
  match cidBytes with
  | Some b => Return b
  | None => Throw "Invalid CID input address"
  end)).

(** One of the three [if] blocks of [convertS5CidToB3hashHex], once the
    bytes are decoded: the new [b3hash], or [None] out of fuel. *)
Definition b3hash_of (fuel : nat) (cidBytes : Buffer) : option (option Buffer) :=
  let b3FilesSize := extractRawSizeFromCID cidBytes in
  if neq0 b3FilesSize then
    match extractB3hashFromCID fuel cidBytes with
    | Some h => Some (Some h)
    | None => None
    end
  else Some None.

(** [None]: the call is still running after [fuel] rounds of a loop. *)
Definition convertS5CidToB3hashHex (fuel : nat) (cid : string)
  : option (outcome string) :=
  let step (c : ascii) (decode : string -> outcome Buffer)
           (b3hash : option Buffer) : option (outcome (option Buffer)) :=
    if first_is cid c then
      match decode cid with
      | Throw e => Some (Throw e)
      | Return cidBytes =>
          match b3hash_of fuel cidBytes with
          | Some h => Some (Return h)
          | None => None
          end
      end
    else Some (Return b3hash) in
  match step "z"%char decodeCIDWithPrefixZ None with
  | None => None
  | Some (Throw e) => Some (Throw e)
  | Some (Return b3hash) =>
  match step "u"%char decodeCIDWithPrefixU b3hash with
  | None => None
  | Some (Throw e) => Some (Throw e)
  | Some (Return b3hash) =>
  match step "b"%char (fun c => Return (decodeCIDWithPrefixB c)) b3hash with
  | None => None
  | Some (Throw e) => Some (Throw e)
  | Some (Return b3hash) =>
      match b3hash with
      | Some h => Some (Return (toString_hex h))
      | None => Some (Throw "Invalid CID input address")
      end
  end end end.

Definition convertMHashToB64url (mHash : Buffer) : string :=
  let hashBase64 := toString_base64 mHash in
  remove_first "=" (replace_all "/" "_" (replace_all "+" "-" hashBase64)).

(** [None]: still running after [fuel] rounds of the search loop. *)
Definition convertS5CidToMHash (fuel : nat) (cid : string)
  : option (outcome Buffer) :=
  let extract (decoded : outcome Buffer) : option (outcome Buffer) :=
    match decoded with
    | Throw e => Some (Throw e)
    | Return cidBytes =>
        match extractMHashFromCID fuel cidBytes with
        | Some mhash => Some (Return mhash)
        | None => None
        end
    end in
  if first_is cid "z" then extract (decodeCIDWithPrefixZ cid)
  else if first_is cid "u" then extract (decodeCIDWithPrefixU cid)
  else if first_is cid "b" then extract (Return (decodeCIDWithPrefixB cid))
  else Some (Throw "Invalid CID input address").

Definition checkRawSizeIsNotNull (cid : string) : outcome bool :=
  bind (convertS5CidToCIDBytes cid) (fun cidBytes =>
  let b3FilesSize := extractRawSizeFromCID cidBytes in
  Return (if neq0 b3FilesSize then true else false)).

Definition convertS5CidToMHashB64url (fuel : nat) (cid : string)
  : option (outcome string) :=
  match convertS5CidToCIDBytes cid with
  | Throw e => Some (Throw e)
  | Return cidBytes =>
      let b3FilesSize := extractRawSizeFromCID cidBytes in
      if neq0 b3FilesSize then
        match convertS5CidToMHash fuel cid with
        | None => None
        | Some (Throw e) => Some (Throw e)
        | Some (Return mhash2cid) => Some (Return (convertMHashToB64url mhash2cid))
        end
      else Some (Return EmptyString)
  end.

(** The object [getAllInfosFromCid] returns. *)
Record infos : Type := {
  zcid : string;
  ucid : string;
  bcid : string;
  mhashb64url : string;
  b3hashhex : string;
  b3filesize : number
}.

(** The three branches of [getAllInfosFromCid] differ in the decoder
    only; [branch] is one of them, once the decoder has run. *)
Definition getAllInfosFromCid (fuel : nat) (cid : string)
  : option (outcome infos) :=
  let branch (decoded : outcome Buffer) : option (outcome infos) :=
    match decoded with
    | Throw e => Some (Throw e)
    | Return cidBytes =>
        let zCid := encodeCIDWithPrefixZ cidBytes in
        let uCid := encodeCIDWithPrefixU cidBytes in
        let bCid := encodeCIDWithPrefixB cidBytes in
        let b3FilesSize := extractRawSizeFromCID cidBytes in
        if neq0 b3FilesSize then
          match convertS5CidToMHashB64url fuel cid with
          | None => None
          | Some (Throw e) => Some (Throw e)
          | Some (Return mHashBase64url) =>
              match convertS5CidToB3hashHex fuel cid with
              | None => None
              | Some (Throw e) => Some (Throw e)
              | Some (Return b3hashHex) =>
                  Some (Return {| zcid := zCid; ucid := uCid; bcid := bCid;
                                  mhashb64url := mHashBase64url;
                                  b3hashhex := b3hashHex;
                                  b3filesize := b3FilesSize |})
              end
          end
        else
          Some (Return {| zcid := zCid; ucid := uCid; bcid := bCid;
                          mhashb64url := "It is not possible!";
                          b3hashhex := "It is not possible!";
                          b3filesize := b3FilesSize |})
    end in
  if first_is cid "z" then branch (decodeCIDWithPrefixZ cid)
  else if first_is cid "u" then branch (decodeCIDWithPrefixU cid)
  else if first_is cid "b" then branch (Return (decodeCIDWithPrefixB cid))
  else Some (Throw "Invalid CID input address").

End Blake3tools.

(** ** url.js and the CID formatting of the options module *)

Module Url.
Import JS.


Definition uriS5Prefix : string := "s5://".

(** [formatCid]: the [s5://] prefix is added unless it is there or the
    CID is empty. *)
Definition formatCid (cid : string) : string :=
  if String.eqb cid EmptyString then cid
  else if negb (startsWith cid uriS5Prefix) then uriS5Prefix ++ cid
  else cid.

End Url.

(** ** Vocabulary of the proofs: positional numerals and bit streams *)

Module Radix.

(** Value of a list of digits in base [B], least significant first. *)
Fixpoint le_val (B : Z) (ds : list Z) : Z :=
  match ds with
  | [] => 0
  | d :: rest => d + B * le_val B rest
  end.

(** Every digit is a digit of base [B]. *)
Definition digits_ok (B : Z) (ds : list Z) : Prop :=
  Forall (fun d => 0 <= d < B) ds.

(** The most significant digit is not zero, stated on the value. *)
Definition tight (B : Z) (ds : list Z) : Prop :=
  ds = [] \/ B ^ (Z.of_nat (List.length ds) - 1) <= le_val B ds.

(** The character that stands for the digit [d], and the text of a
    numeral written in the order of the list. *)
Definition digit_char (alphabet : string) (d : Z) : ascii :=
  match String.get (Z.to_nat d) alphabet with
  | Some c => c
  | None => "?"%char
  end.

Fixpoint numeral (alphabet : string) (ds : list Z) : string :=
  match ds with
  | [] => EmptyString
  | d :: rest => String (digit_char alphabet d) (numeral alphabet rest)
  end.

(** The numbers [0 .. n-1]. *)
Definition below (n : nat) : list Z := map Z.of_nat (seq 0 n).

End Radix.

Module Recoding.
Import Radix.

(** State of a bit-stream recoder that turns a number [P], read so far
    as [nbits] bits, into digits of [w] bits each (base [B = 2^w]):
    [emitted] holds the leading digits and the low [bits] bits of
    [value] are still waiting. *)
Definition stream_inv (B w P nbits : Z) (emitted : list Z) (bits value : Z)
  : Prop :=
  digits_ok B emitted /\ 0 <= bits /\
  w * Z.of_nat (List.length emitted) + bits = nbits /\
  P = le_val B (rev emitted) * 2 ^ bits + value mod 2 ^ bits.

(** The bytes [decodeBase32RFC] stores, in the order it stores them. *)
Fixpoint decode32_emit (encoded : string) (bits value : Z) : list Z :=
  match encoded with
  | EmptyString => []
  | String c rest =>
      let charIndex := JS.indexOf Basetools.BASE32_ALPHABET c in
      let value := JS.bor (JS.shl value 5) charIndex in
      let bits := bits + 5 in
      if 8 <=? bits
      then JS.band (JS.shr value (bits - 8)) 255
           :: decode32_emit rest (bits - 8) value
      else decode32_emit rest bits value
  end.

(** The URL-safe alphabet, and the 6-bit digits of a byte sequence as
    base64 groups them. *)
Definition base64url_alphabet : string :=
  "ABCDEFGHIJKLMNOPQRSTUVWXYZabcdefghijklmnopqrstuvwxyz0123456789-_".

Fixpoint bytes_sextets (buffer : JS.Buffer) : list Z :=
  match buffer with
  | [] => []
  | [a] =>
      let a := byte.unsigned a in
      [Z.shiftr a 2; Z.shiftl (Z.land a 3) 4]
  | [a; b] =>
      let a := byte.unsigned a in
      let b := byte.unsigned b in
      [Z.shiftr a 2; Z.lor (Z.shiftl (Z.land a 3) 4) (Z.shiftr b 4);
       Z.shiftl (Z.land b 15) 2]
  | a :: b :: c :: rest =>
      let a := byte.unsigned a in
      let b := byte.unsigned b in
      let c := byte.unsigned c in
      Z.shiftr a 2
      :: Z.lor (Z.shiftl (Z.land a 3) 4) (Z.shiftr b 4)
      :: Z.lor (Z.shiftl (Z.land b 15) 2) (Z.shiftr c 6)
      :: Z.land c 63
      :: bytes_sextets rest
  end.

(** The bytes [numToBuf] stores before its loop ends. *)
Fixpoint numToBuf_emit (steps : nat) (value : Z) : list Z :=
  match steps with
  | O => []
  | S steps' =>
      if value =? 0 then []
      else JS.rem value 256 :: numToBuf_emit steps' (JS.sar value 8)
  end.

End Recoding.

(** The vocabulary of the claims. *)

Module Cid.
Import JS Constants Basetools Tools Blake3tools.

(** The three text forms. *)
Inductive prefix : Type := PrefixZ | PrefixU | PrefixB.

Definition encodeCID (p : prefix) (bytes : Buffer) : string :=
  match p with
  | PrefixZ => encodeCIDWithPrefixZ bytes
  | PrefixU => encodeCIDWithPrefixU bytes
  | PrefixB => encodeCIDWithPrefixB bytes
  end.

Definition decodeCID (p : prefix) (cid : string) : outcome Buffer :=
  match p with
  | PrefixZ => decodeCIDWithPrefixZ cid
  | PrefixU => decodeCIDWithPrefixU cid
  | PrefixB => Return (decodeCIDWithPrefixB cid)
  end.

(** A valid binary CID: at least 34 bytes, the first one a registered
    type tag. *)
Definition valid_cid (c : Buffer) : Prop :=
  (34 <= List.length c)%nat /\
  match c with
  | [] => False
  | t :: _ => In (byte.unsigned t) cidTypes
  end.

(** A byte sequence without its leading zero bytes. *)
Fixpoint drop_zeros (bytes : Buffer) : Buffer :=
  match bytes with
  | [] => []
  | b :: rest => if byte.unsigned b =? 0 then drop_zeros rest else bytes
  end.

(** [c] is not a character of [alphabet]; [s] has such a character. *)
Definition foreign (alphabet : string) (c : ascii) : bool :=
  negb (existsb (Ascii.eqb c) (list_ascii_of_string alphabet)).

Definition has_foreign (alphabet s : string) : bool :=
  exists_string (foreign alphabet) s.

(** The characters Node's base64 decoder does not skip: the legal ones
    and [=]. *)
Definition kept64 (c : ascii) : bool :=
  match unbase64 c with
  | Some _ => true
  | None => Ascii.eqb c "="
  end.

Fixpoint filter_string (p : ascii -> bool) (s : string) : string :=
  match s with
  | EmptyString => EmptyString
  | String c rest =>
      if p c then String c (filter_string p rest) else filter_string p rest
  end.

(** [l] has no [.] and no [/]. *)
Definition is_label (l : string) : Prop :=
  l <> EmptyString /\
  exists_string (fun c => Ascii.eqb c "." || Ascii.eqb c "/") l = false.

(** [url] begins, after an optional [http://] or [https://] in any
    letter case, with the label [label] followed by a dot. *)
Definition first_label (url label : string) : Prop :=
  is_label label /\
  exists scheme rest,
    url = (scheme ++ label ++ String "." rest)%string /\
    (scheme = EmptyString \/ toUpperCase scheme = "HTTPS://"
     \/ toUpperCase scheme = "HTTP://").

(** The bytes of the scenario: a raw CID of 32 zero bytes, size 5. *)
Definition scenario_cid : Buffer :=
  generateCIDFromMHash (generateMHashFromB3hash (repeat (byte.of_Z 0) 32)) 5.

End Cid.

(** Vocabulary of the further properties. *)

Module Report.
Import JS Constants Basetools Tools Blake3tools.

(** A base58 text without its leading [1] characters, the digit zero. *)
Fixpoint drop_ones (s : string) : string :=
  match s with
  | EmptyString => EmptyString
  | String c rest => if Ascii.eqb c "1" then drop_ones rest else s
  end.

(** Every byte is zero. *)
Definition all_zero (bytes : Buffer) : Prop :=
  Forall (fun b => byte.unsigned b = 0) bytes.

(** The binary CID [generateCIDFromMHash] builds for a BLAKE3 digest. *)
Definition raw_cid (b3hash : Buffer) (fileSize : Z) : Buffer :=
  generateCIDFromMHash (generateMHashFromB3hash b3hash) fileSize.

(** The character that announces a text form. *)
Definition prefix_char (p : Cid.prefix) : ascii :=
  match p with
  | Cid.PrefixZ => "z"%char
  | Cid.PrefixU => "u"%char
  | Cid.PrefixB => "b"%char
  end.

(** The report [getAllInfosFromCid] gives for the raw CID of a digest
    and a size. *)
Definition report_of (b3hash : Buffer) (fileSize : Z) : infos :=
  let c := raw_cid b3hash fileSize in
  {| zcid := encodeCIDWithPrefixZ c;
     ucid := encodeCIDWithPrefixU c;
     bcid := encodeCIDWithPrefixB c;
     mhashb64url := if fileSize =? 0 then "It is not possible!"
                    else encodeBase64URL (generateMHashFromB3hash b3hash);
     b3hashhex := if fileSize =? 0 then "It is not possible!"
                  else toString_hex b3hash;
     b3filesize := Finite fileSize |}.

End Report.

Import JS Constants Basetools Tools Blake3tools Radix Recoding Cid.
Import Url Report.

(** The numbers of a buffer, and a byte sequence that does not begin
    with a zero byte. *)
Definition unsigned_bytes (bytes : Buffer) : list Z := map byte.unsigned bytes.

Definition no_leading_zero (bytes : Buffer) : Prop :=
  match bytes with
  | [] => True
  | b :: _ => byte.unsigned b <> 0
  end.

(** ** JavaScript arithmetic on small numbers *)

Lemma ToInt32_small x : - 2 ^ 31 <= x < 2 ^ 31 -> ToInt32 x = x.
Proof.
  unfold ToInt32. change (2 ^ 31) with 2147483648.
  change (2 ^ 32) with 4294967296. intros H.
  rewrite Z.mod_small by lia. lia.
Qed.

Lemma ToUint32_small x : 0 <= x < 2 ^ 32 -> ToUint32 x = x.
Proof. intros H. unfold ToUint32. now rewrite Z.mod_small. Qed.

Lemma shift_count k : 0 <= k < 32 -> ToUint32 k mod 32 = k.
Proof.
  intros H. rewrite ToUint32_small by (change (2 ^ 32) with 4294967296; lia).
  apply Z.mod_small. lia.
Qed.

Lemma pow2_le_31 k : 0 <= k < 32 -> 0 < 2 ^ k <= 2 ^ 31.
Proof.
  intros H. split; [apply Z.pow_pos_nonneg; lia|].
  apply Z.pow_le_mono_r; lia.
Qed.

Lemma shl_small x k :
  0 <= k < 32 -> 0 <= x -> x * 2 ^ k < 2 ^ 31 -> shl x k = x * 2 ^ k.
Proof.
  intros Hk Hx Hb. unfold shl. rewrite shift_count by lia.
  pose proof (pow2_le_31 k Hk) as Hp.
  assert (x < 2 ^ 31) by nia.
  rewrite (ToInt32_small x) by lia.
  rewrite Z.shiftl_mul_pow2 by lia.
  apply ToInt32_small. nia.
Qed.

Lemma sar_small x k : 0 <= k < 32 -> 0 <= x < 2 ^ 31 -> sar x k = x / 2 ^ k.
Proof.
  intros Hk Hx. unfold sar. rewrite shift_count by lia.
  rewrite ToInt32_small by lia. apply Z.shiftr_div_pow2. lia.
Qed.

Lemma band_small x w :
  0 <= w < 31 -> 0 <= x < 2 ^ 31 -> band x (2 ^ w - 1) = x mod 2 ^ w.
Proof.
  intros Hw Hx. unfold band.
  assert (0 < 2 ^ w <= 2 ^ 30) by
    (split; [apply Z.pow_pos_nonneg; lia| apply Z.pow_le_mono_r; lia]).
  change (2 ^ 30) with 1073741824 in *. change (2 ^ 31) with 2147483648 in *.
  rewrite !ToInt32_small by (change (2 ^ 31) with 2147483648; lia).
  replace (2 ^ w - 1) with (Z.ones w) by (rewrite Z.ones_equiv; lia).
  apply Z.land_ones. lia.
Qed.

Lemma div_or0_small x y : 0 <= x < 2 ^ 31 -> 0 < y -> div_or0 x y = x / y.
Proof.
  intros Hx Hy. unfold div_or0, bor.
  rewrite Z.quot_div_nonneg by lia.
  assert (0 <= x / y <= x).
  { split; [apply Z.div_pos; lia|]. apply Z.div_le_upper_bound; nia. }
  rewrite !ToInt32_small by (change (2 ^ 31) with 2147483648 in *; lia).
  apply Z.lor_0_r.
Qed.

Lemma rem_small x y : 0 <= x -> 0 < y -> rem x y = x mod y.
Proof. intros. unfold rem. apply Z.rem_mod_nonneg; lia. Qed.

(** ** Positional numerals *)

Section RadixFacts.
Variable B : Z.
Hypothesis B_gt_1 : 1 < B.

Lemma le_val_app a b :
  le_val B (a ++ b) = le_val B a + B ^ Z.of_nat (List.length a) * le_val B b.
Proof.
  induction a as [|d a IH]; simpl List.length; cbn [app le_val].
  - change (Z.of_nat 0) with 0. rewrite Z.pow_0_r. lia.
  - rewrite IH, Nat2Z.inj_succ, Z.pow_succ_r by lia. ring.
Qed.

Lemma le_val_bound ds :
  digits_ok B ds -> 0 <= le_val B ds < B ^ Z.of_nat (List.length ds).
Proof.
  induction 1 as [|d ds Hd _ IH]; simpl List.length; cbn [le_val].
  - change (Z.of_nat 0) with 0. rewrite Z.pow_0_r. lia.
  - rewrite Nat2Z.inj_succ, Z.pow_succ_r by lia. nia.
Qed.

Lemma digits_ok_app a b : digits_ok B a -> digits_ok B b -> digits_ok B (a ++ b).
Proof. intros Ha Hb. apply Forall_app. now split. Qed.

Lemma digits_ok_rev a : digits_ok B a -> digits_ok B (rev a).
Proof. intros Ha. now apply Forall_rev. Qed.

(** Two numerals of the same length and value are the same numeral. *)
Lemma le_val_inj a b :
  digits_ok B a -> digits_ok B b -> List.length a = List.length b ->
  le_val B a = le_val B b -> a = b.
Proof.
  intros Ha. revert b. induction Ha as [|d a Hd Ha IH]; intros b Hb Hlen Hval.
  - destruct b; [reflexivity | discriminate].
  - destruct Hb as [|e b He Hb]; [discriminate|].
    cbn [le_val] in Hval. injection Hlen as Hlen.
    assert (le_val B a = le_val B b) as Hv.
    { destruct (Z.lt_trichotomy (le_val B a) (le_val B b)) as [Hlt|[Heq|Hgt]];
        [exfalso; nia | exact Heq | exfalso; nia]. }
    rewrite Hv in Hval. assert (d = e) as -> by lia.
    f_equal. now apply IH.
Qed.

(** A tight numeral has the length its value asks for. *)
Lemma tight_length a b :
  digits_ok B a -> digits_ok B b -> tight B a -> tight B b ->
  le_val B a = le_val B b -> List.length a = List.length b.
Proof.
  assert (Hmono : forall x y : list Z,
             digits_ok B x -> digits_ok B y -> tight B y ->
             le_val B x = le_val B y ->
             (List.length y <= List.length x)%nat).
  { intros x y Hx Hy Ty Hv.
    destruct Ty as [-> | Ty]; [simpl; lia|].
    pose proof (le_val_bound x Hx) as Bx.
    destruct (Nat.le_gt_cases (List.length y) (List.length x)) as [|Hlt]; [assumption|].
    exfalso.
    assert (B ^ Z.of_nat (List.length x) <= B ^ (Z.of_nat (List.length y) - 1))
      by (apply Z.pow_le_mono_r; lia).
    lia. }
  intros Ha Hb Ta Tb Hv.
  apply Nat.le_antisymm; [apply Hmono | apply Hmono]; auto.
Qed.

Lemma tight_inj a b :
  digits_ok B a -> digits_ok B b -> tight B a -> tight B b ->
  le_val B a = le_val B b -> a = b.
Proof.
  intros. apply le_val_inj; auto. now apply tight_length.
Qed.

(** A numeral whose last digit is not zero is tight. *)
Lemma tight_snoc a d : digits_ok B a -> 0 < d -> tight B (a ++ [d]).
Proof.
  intros Ha Hd. right. rewrite le_val_app, length_app. cbn [le_val List.length].
  replace (Z.of_nat (List.length a + 1) - 1) with (Z.of_nat (List.length a)) by lia.
  pose proof (le_val_bound a Ha).
  assert (0 < B ^ Z.of_nat (List.length a)) by (apply Z.pow_pos_nonneg; lia).
  nia.
Qed.

End RadixFacts.

(** ** Strings and finite checks *)

Lemma append_nil_r (s : string) : s ++ "" = s.
Proof. induction s as [|c s IH]; simpl; [reflexivity | now rewrite IH]. Qed.

Lemma append_assoc (a b c : string) : (a ++ b) ++ c = a ++ (b ++ c).
Proof. induction a as [|x a IH]; simpl; [reflexivity | now rewrite IH]. Qed.

Lemma length_append (a b : string) :
  String.length (a ++ b) = (String.length a + String.length b)%nat.
Proof. induction a as [|x a IH]; simpl; [reflexivity | now rewrite IH]. Qed.

Lemma numeral_app alphabet a b :
  numeral alphabet (a ++ b) = numeral alphabet a ++ numeral alphabet b.
Proof. induction a as [|x a IH]; simpl; [reflexivity | now rewrite IH]. Qed.

Lemma length_numeral alphabet ds :
  String.length (numeral alphabet ds) = List.length ds.
Proof. induction ds as [|x a IH]; simpl; [reflexivity | now rewrite IH]. Qed.

(** A property checked on [0 .. n-1] holds of every number in range. *)
Lemma below_forall (P : Z -> bool) (n : nat) :
  forallb P (below n) = true -> forall v, 0 <= v < Z.of_nat n -> P v = true.
Proof.
  intros H v Hv. rewrite forallb_forall in H. apply H.
  unfold below. apply in_map_iff. exists (Z.to_nat v). split; [lia|].
  apply in_seq. lia.
Qed.

Lemma get_in_range (alphabet : string) (d : Z) :
  0 <= d < Z.of_nat (String.length alphabet) ->
  String.get (Z.to_nat d) alphabet = Some (digit_char alphabet d).
Proof.
  intros Hd. unfold digit_char.
  destruct (String.get (Z.to_nat d) alphabet) eqn:E; [reflexivity|].
  exfalso. revert E. generalize (Z.to_nat d) (Z2Nat.id d ltac:(lia)).
  intros n Hn. assert (Hlt : (n < String.length alphabet)%nat) by lia.
  clear Hn Hd. revert n Hlt.
  induction alphabet as [|c a IH]; simpl; intros n Hlt; [lia|].
  destruct n; [discriminate|]. apply IH. lia.
Qed.

Lemma append_index_in_range result alphabet d :
  0 <= d < Z.of_nat (String.length alphabet) ->
  append_index result alphabet d = result ++ String (digit_char alphabet d) "".
Proof.
  intros Hd. unfold append_index.
  destruct (Z.ltb_spec d 0); [lia|]. now rewrite get_in_range.
Qed.

Lemma append_charAt_in_range result alphabet d :
  0 <= d < Z.of_nat (String.length alphabet) ->
  append_charAt result alphabet d = result ++ String (digit_char alphabet d) "".
Proof.
  intros Hd. unfold append_charAt.
  destruct (Z.ltb_spec d 0); [lia|]. now rewrite get_in_range.
Qed.

(** ** Base58: the encoder writes the value of the bytes *)

Lemma encode58_carry_spec digits : forall carry,
  Forall (fun d => 0 <= d <= 14847) digits -> 0 <= carry <= 300 ->
  digits_ok 58 (fst (encode58_carry digits carry)) /\
  List.length (fst (encode58_carry digits carry)) = List.length digits /\
  0 <= snd (encode58_carry digits carry) <= 300 /\
  le_val 58 (fst (encode58_carry digits carry))
  + 58 ^ Z.of_nat (List.length digits) * snd (encode58_carry digits carry)
  = le_val 58 digits + carry.
Proof.
  induction digits as [|d rest IH]; intros carry Hds Hc.
  - cbn [encode58_carry fst snd le_val List.length].
    change (Z.of_nat 0) with 0. rewrite Z.pow_0_r.
    repeat split; try lia. constructor.
  - inversion Hds as [|? ? Hd Hrest]; subst.
    cbn [encode58_carry].
    rewrite div_or0_small, rem_small
      by (change (2 ^ 31) with 2147483648; lia).
    assert (Hq : 0 <= (d + carry) / 58 <= 300).
    { split; [apply Z.div_pos; lia|].
      apply Z.div_le_upper_bound; lia. }
    specialize (IH ((d + carry) / 58) Hrest Hq).
    destruct (encode58_carry rest ((d + carry) / 58)) as [rest' c'].
    cbn [fst snd] in *. destruct IH as (Hok & Hlen & Hc' & Hval).
    pose proof (Z.mod_pos_bound (d + carry) 58 ltac:(lia)).
    repeat split; try lia.
    + constructor; [lia | assumption].
    + simpl. now rewrite Hlen.
    + cbn [le_val List.length]. rewrite Nat2Z.inj_succ, Z.pow_succ_r by lia.
      pose proof (Z.div_mod (d + carry) 58 ltac:(lia)). nia.
Qed.

Lemma encode58_push_spec fuel : forall digits carry,
  0 <= carry <= Z.of_nat fuel -> carry < 2 ^ 31 -> digits_ok 58 digits ->
  digits_ok 58 (encode58_push fuel digits carry) /\
  (List.length digits <= List.length (encode58_push fuel digits carry))%nat /\
  le_val 58 (encode58_push fuel digits carry)
  = le_val 58 digits + 58 ^ Z.of_nat (List.length digits) * carry.
Proof.
  induction fuel as [|fuel IH]; intros digits carry Hc Hb Hok.
  - simpl. assert (carry = 0) as -> by lia. repeat split; auto; lia.
  - cbn [encode58_push]. destruct (Z.eqb_spec carry 0) as [->|Hnz].
    + repeat split; auto; lia.
    + rewrite div_or0_small, rem_small by lia.
      pose proof (Z.mod_pos_bound carry 58 ltac:(lia)).
      pose proof (Z.div_mod carry 58 ltac:(lia)).
      assert (0 <= carry / 58) by (apply Z.div_pos; lia).
      destruct (IH (digits ++ [carry mod 58])%list (carry / 58)) as (I1 & I2 & I3).
      * lia.
      * lia.
      * apply digits_ok_app; [assumption|]. constructor; [lia | constructor].
      * repeat split; [assumption | rewrite length_app in I2; lia |].
        rewrite I3, (le_val_app 58), length_app. cbn [le_val List.length].
        rewrite Nat2Z.inj_add, Z.pow_add_r by lia.
        change (Z.of_nat 1) with 1. rewrite Z.pow_1_r. nia.
Qed.

Lemma le_val_shl8 digits :
  digits_ok 58 digits ->
  Forall (fun d => 0 <= d <= 14592) (map (fun d => shl d 8) digits) /\
  le_val 58 (map (fun d => shl d 8) digits) = 256 * le_val 58 digits.
Proof.
  induction 1 as [|d ds Hd _ [IH1 IH2]]; cbn [map le_val].
  - split; [constructor | lia].
  - rewrite shl_small by
      (change (2 ^ 8) with 256; change (2 ^ 31) with 2147483648; lia).
    change (2 ^ 8) with 256. split; [constructor; [lia | assumption]|].
    rewrite IH2. ring.
Qed.

Lemma encode58_step_spec digits b :
  digits_ok 58 digits -> digits <> [] ->
  digits_ok 58 (encode58_step digits b) /\
  encode58_step digits b <> [] /\
  le_val 58 (encode58_step digits b) = 256 * le_val 58 digits + byte.unsigned b.
Proof.
  intros Hok Hne. unfold encode58_step.
  destruct (le_val_shl8 digits Hok) as [Hs Hv].
  destruct digits as [|d0 ds]; [congruence|].
  cbn [map] in *. inversion Hs as [|? ? Hd0 Hds]; subst.
  pose proof (byte.unsigned_range b) as Hb. change (2 ^ 8) with 256 in Hb.
  set (shifted := (shl d0 8 + byte.unsigned b) :: map (fun d => shl d 8) ds).
  assert (Hsh : Forall (fun d => 0 <= d <= 14847) shifted).
  { constructor; [lia|]. eapply Forall_impl; [|exact Hds].
    cbv beta. intros; lia. }
  destruct (encode58_carry_spec shifted 0 Hsh ltac:(lia)) as (C1 & C2 & C3 & C4).
  destruct (encode58_carry shifted 0) as [ds' c]. cbn [fst snd] in *.
  assert (Hc : c < 2 ^ 31) by (change (2 ^ 31) with 2147483648; lia).
  destruct (encode58_push_spec (Z.to_nat (Z.abs c)) ds' c ltac:(lia) Hc C1)
    as (P1 & P2 & P3).
  repeat split; [assumption | |].
  - intros E. rewrite E in P2. subst shifted. simpl in C2, P2. lia.
  - rewrite P3, C2. subst shifted. cbn [le_val] in *. lia.
Qed.

Lemma encode58_fold_spec bytes : forall digits,
  digits_ok 58 digits -> digits <> [] ->
  digits_ok 58 (fold_left encode58_step bytes digits) /\
  le_val 58 (fold_left encode58_step bytes digits)
  = 256 ^ Z.of_nat (List.length bytes) * le_val 58 digits
    + le_val 256 (rev (unsigned_bytes bytes)).
Proof.
  induction bytes as [|b bytes IH]; intros digits Hok Hne.
  - cbn [fold_left List.length unsigned_bytes map rev le_val].
    change (Z.of_nat 0) with 0. rewrite Z.pow_0_r. split; [assumption | lia].
  - cbn [fold_left].
    destruct (encode58_step_spec digits b Hok Hne) as (S1 & S2 & S3).
    destruct (IH _ S1 S2) as [I1 I2]. split; [assumption|].
    rewrite I2, S3. cbn [unsigned_bytes map rev List.length].
    rewrite (le_val_app 256), length_rev. cbn [le_val].
    unfold unsigned_bytes. rewrite length_map, Nat2Z.inj_succ, Z.pow_succ_r by lia.
    ring.
Qed.

Lemma pop_zeros_spec top_down :
  digits_ok 58 top_down ->
  digits_ok 58 (pop_zeros top_down) /\
  le_val 58 (rev (pop_zeros top_down)) = le_val 58 (rev top_down).
Proof.
  induction 1 as [|d ds Hd Hds [IH1 IH2]].
  - simpl. split; [constructor | reflexivity].
  - destruct d as [|p|p]; cbn [pop_zeros].
    + split; [assumption|]. rewrite IH2. cbn [rev].
      rewrite (le_val_app 58). cbn [le_val]. lia.
    + split; [now constructor | reflexivity].
    + split; [now constructor | reflexivity].
Qed.

Lemma fold_append_index alphabet ds : forall acc,
  Forall (fun d => 0 <= d < Z.of_nat (String.length alphabet)) ds ->
  fold_left (fun result d => append_index result alphabet d) ds acc
  = acc ++ numeral alphabet ds.
Proof.
  induction ds as [|d ds IH]; intros acc Hds.
  - simpl. now rewrite append_nil_r.
  - inversion Hds; subst. cbn [fold_left numeral].
    rewrite append_index_in_range by assumption.
    rewrite IH by assumption. now rewrite append_assoc.
Qed.

(** The text of [encodeBase58BTC] is a base-58 numeral of the value of
    the bytes. *)
Lemma encodeBase58BTC_spec bytes :
  exists top_down,
    encodeBase58BTC bytes = numeral ALPHABET top_down /\
    digits_ok 58 top_down /\
    le_val 58 (rev top_down) = le_val 256 (rev (unsigned_bytes bytes)).
Proof.
  unfold encodeBase58BTC.
  destruct (encode58_fold_spec bytes [0]) as [F1 F2].
  { constructor; [lia | constructor]. }
  { discriminate. }
  set (digits := fold_left encode58_step bytes [0]) in *.
  destruct (pop_zeros_spec (rev digits)) as [Z1 Z2].
  { now apply digits_ok_rev. }
  exists (pop_zeros (rev digits)). repeat split.
  - rewrite fold_append_index; [reflexivity|].
    eapply Forall_impl; [|exact Z1]. cbv beta. intros a Ha.
    change (Z.of_nat (String.length ALPHABET)) with 58. exact Ha.
  - assumption.
  - rewrite Z2, rev_involutive, F2. cbn [le_val]. lia.
Qed.

(** ** Base58: the decoder rebuilds the bytes of a value *)

Lemma decode58_carry_spec bytes : forall value,
  digits_ok 256 bytes -> 0 <= value <= 57 ->
  digits_ok 256 (fst (decode58_carry bytes value)) /\
  List.length (fst (decode58_carry bytes value)) = List.length bytes /\
  0 <= snd (decode58_carry bytes value) <= 57 /\
  le_val 256 (fst (decode58_carry bytes value))
  + 256 ^ Z.of_nat (List.length bytes) * snd (decode58_carry bytes value)
  = 58 * le_val 256 bytes + value.
Proof.
  induction bytes as [|b rest IH]; intros value Hok Hv.
  - cbn [decode58_carry fst snd le_val List.length].
    change (Z.of_nat 0) with 0. rewrite Z.pow_0_r.
    repeat split; try lia. constructor.
  - inversion Hok as [|? ? Hb Hrest]; subst.
    cbn [decode58_carry].
    change 255 with (2 ^ 8 - 1).
    rewrite band_small, sar_small
      by (change (2 ^ 31) with 2147483648; lia).
    change (2 ^ 8) with 256.
    assert (Hq : 0 <= (value + b * 58) / 256 <= 57).
    { split; [apply Z.div_pos; lia|].
      enough ((value + b * 58) / 256 < 58) by lia.
      apply Z.div_lt_upper_bound; lia. }
    specialize (IH ((value + b * 58) / 256) Hrest Hq).
    destruct (decode58_carry rest ((value + b * 58) / 256)) as [rest' v'].
    cbn [fst snd] in *. destruct IH as (Hok' & Hlen & Hv' & Hval).
    pose proof (Z.mod_pos_bound (value + b * 58) 256 ltac:(lia)).
    repeat split; try lia.
    + constructor; [lia | assumption].
    + simpl. now rewrite Hlen.
    + cbn [le_val List.length]. rewrite Nat2Z.inj_succ, Z.pow_succ_r by lia.
      pose proof (Z.div_mod (value + b * 58) 256 ltac:(lia)). nia.
Qed.

Lemma decode58_push_spec fuel : forall bytes value,
  0 <= value <= Z.of_nat fuel -> value < 2 ^ 31 -> digits_ok 256 bytes ->
  digits_ok 256 (decode58_push fuel bytes value) /\
  le_val 256 (decode58_push fuel bytes value)
  = le_val 256 bytes + 256 ^ Z.of_nat (List.length bytes) * value /\
  (value = 0 -> decode58_push fuel bytes value = bytes) /\
  (0 < value -> tight 256 (decode58_push fuel bytes value)).
Proof.
  induction fuel as [|fuel IH]; intros bytes value Hv Hb Hok.
  - cbn [decode58_push]. assert (value = 0) as -> by lia.
    repeat split; auto; lia.
  - cbn [decode58_push]. destruct (Z.ltb_spec 0 value) as [Hpos|Hz].
    + change 255 with (2 ^ 8 - 1).
      rewrite band_small, sar_small by lia. change (2 ^ 8) with 256.
      pose proof (Z.mod_pos_bound value 256 ltac:(lia)).
      pose proof (Z.div_mod value 256 ltac:(lia)).
      assert (0 <= value / 256) by (apply Z.div_pos; lia).
      assert (Hok' : digits_ok 256 (bytes ++ [value mod 256])).
      { apply digits_ok_app; [assumption|]. constructor; [lia | constructor]. }
      destruct (IH (bytes ++ [value mod 256])%list (value / 256))
        as (I1 & I2 & I3 & I4); [lia | lia | assumption |].
      repeat split; [assumption | | lia |].
      * rewrite I2, (le_val_app 256), length_app. cbn [le_val List.length].
        rewrite Nat2Z.inj_add, Z.pow_add_r by lia.
        change (Z.of_nat 1) with 1. rewrite Z.pow_1_r. nia.
      * intros _. destruct (Z.eq_dec (value / 256) 0) as [E|E].
        -- rewrite (I3 E). apply tight_snoc; [lia | assumption | lia].
        -- apply I4. lia.
    + assert (value = 0) as -> by lia. repeat split; auto; lia.
Qed.

(** One character of the text: the bytes are multiplied by 58 and the
    digit is added. *)
Lemma decode58_round bytes d :
  digits_ok 256 bytes -> tight 256 bytes -> 0 <= d < 58 ->
  let bytes' := decode58_push (Z.to_nat (snd (decode58_carry bytes d)))
                              (fst (decode58_carry bytes d))
                              (snd (decode58_carry bytes d)) in
  digits_ok 256 bytes' /\ tight 256 bytes' /\
  le_val 256 bytes' = 58 * le_val 256 bytes + d.
Proof.
  intros Hok Ht Hd.
  destruct (decode58_carry_spec bytes d Hok ltac:(lia)) as (C1 & C2 & C3 & C4).
  destruct (decode58_carry bytes d) as [bytes1 v]. cbn [fst snd] in *.
  destruct (decode58_push_spec (Z.to_nat v) bytes1 v)
    as (P1 & P2 & P3 & P4);
    [lia | change (2 ^ 31) with 2147483648; lia | assumption |].
  cbv zeta. repeat split; [assumption | | rewrite P2, C2; lia].
  destruct (Z.eq_dec v 0) as [E|E]; [|apply P4; lia].
  rewrite (P3 E). subst v.
  destruct Ht as [-> | Ht].
  - destruct bytes1; [now left | discriminate].
  - right. rewrite C2.
    pose proof (le_val_bound 256 ltac:(lia) bytes Hok). lia.
Qed.

Lemma indexOf_ALPHABET d :
  0 <= d < 58 -> indexOf ALPHABET (digit_char ALPHABET d) = d.
Proof.
  intros Hd. apply Z.eqb_eq.
  apply (below_forall (fun d => indexOf ALPHABET (digit_char ALPHABET d) =? d) 58);
    [vm_compute; reflexivity | lia].
Qed.

Lemma decode58_for_numeral ds : forall bytes,
  digits_ok 58 ds -> digits_ok 256 bytes -> tight 256 bytes ->
  exists bytes',
    decode58_for (numeral ALPHABET ds) bytes = Return bytes' /\
    digits_ok 256 bytes' /\ tight 256 bytes' /\
    le_val 256 bytes'
    = 58 ^ Z.of_nat (List.length ds) * le_val 256 bytes + le_val 58 (rev ds).
Proof.
  induction ds as [|d ds IH]; intros bytes Hds Hok Ht.
  - exists bytes. cbn [numeral decode58_for List.length rev le_val].
    change (Z.of_nat 0) with 0. rewrite Z.pow_0_r.
    repeat split; auto; lia.
  - inversion Hds as [|? ? Hd Hds']; subst.
    cbn [numeral decode58_for]. rewrite indexOf_ALPHABET by assumption.
    destruct (Z.eqb_spec d (-1)); [lia|].
    destruct (decode58_round bytes d Hok Ht Hd) as (R1 & R2 & R3).
    destruct (decode58_carry bytes d) as [bytes1 v]. cbn [fst snd] in *.
    destruct (IH _ Hds' R1 R2) as (bytes' & E & B1 & B2 & B3).
    exists bytes'. repeat split; auto.
    rewrite B3, R3. cbn [rev List.length].
    rewrite (le_val_app 58), length_rev by lia. cbn [le_val].
    rewrite Nat2Z.inj_succ, Z.pow_succ_r by lia. ring.
Qed.

Lemma unsigned_bytes_ok bytes : digits_ok 256 (unsigned_bytes bytes).
Proof.
  induction bytes as [|b bytes IH]; [constructor|].
  constructor; [|exact IH]. apply byte.unsigned_range.
Qed.

Lemma from_array_unsigned bytes : from_array (unsigned_bytes bytes) = bytes.
Proof.
  unfold from_array, unsigned_bytes. rewrite map_map.
  induction bytes as [|b bytes IH]; [reflexivity|].
  cbn [map]. now rewrite byte.of_Z_unsigned, IH.
Qed.

Lemma no_leading_zero_tight bytes :
  no_leading_zero bytes -> tight 256 (rev (unsigned_bytes bytes)).
Proof.
  destruct bytes as [|b bytes]; intros H; [now left|].
  cbn [unsigned_bytes map rev]. apply tight_snoc; [lia | |].
  - apply digits_ok_rev, unsigned_bytes_ok.
  - pose proof (byte.unsigned_range b). simpl in H. lia.
Qed.

Lemma le_val_drop_zeros bytes :
  le_val 256 (rev (unsigned_bytes (drop_zeros bytes)))
  = le_val 256 (rev (unsigned_bytes bytes)).
Proof.
  induction bytes as [|b bytes IH]; [reflexivity|].
  cbn [drop_zeros]. destruct (Z.eqb_spec (byte.unsigned b) 0) as [E|E];
    [|reflexivity].
  rewrite IH. cbn [unsigned_bytes map rev]. rewrite (le_val_app 256) by lia.
  cbn [le_val]. rewrite E. fold (unsigned_bytes bytes). lia.
Qed.

Lemma drop_zeros_no_leading_zero bytes : no_leading_zero (drop_zeros bytes).
Proof.
  induction bytes as [|b bytes IH]; [exact I|].
  cbn [drop_zeros]. destruct (Z.eqb_spec (byte.unsigned b) 0); [exact IH|].
  assumption.
Qed.

Lemma drop_zeros_id bytes : no_leading_zero bytes -> drop_zeros bytes = bytes.
Proof.
  destruct bytes as [|b bytes]; [reflexivity|]. cbn [no_leading_zero drop_zeros].
  intros H. now destruct (Z.eqb_spec (byte.unsigned b) 0).
Qed.

(** Base58 gives back the bytes without their leading zero bytes. *)
Lemma base58_decode_encode bytes :
  decodeBase58BTC (encodeBase58BTC bytes) = Return (drop_zeros bytes).
Proof.
  destruct (encodeBase58BTC_spec bytes) as (top_down & -> & Hok & Hval).
  destruct (decode58_for_numeral top_down [] Hok) as (bytes' & E & B1 & B2 & B3).
  { constructor. }
  { now left. }
  unfold decodeBase58BTC. rewrite E. cbn [bind]. f_equal.
  cbn [le_val] in B3.
  rewrite Z.mul_0_r, Z.add_0_l, Hval, <- le_val_drop_zeros in B3.
  assert (bytes' = rev (unsigned_bytes (drop_zeros bytes))) as ->.
  { apply (tight_inj 256); auto; try lia.
    - apply digits_ok_rev, unsigned_bytes_ok.
    - apply no_leading_zero_tight, drop_zeros_no_leading_zero. }
  rewrite rev_involutive. apply from_array_unsigned.
Qed.

(** In particular it gives back every byte sequence that does not begin
    with a zero byte. *)
Lemma base58_round_trip bytes :
  no_leading_zero bytes -> decodeBase58BTC (encodeBase58BTC bytes) = Return bytes.
Proof.
  intros H. now rewrite base58_decode_encode, drop_zeros_id.
Qed.

(** *** Characters outside the alphabet *)

Lemma indexOf_lower_bound alphabet c : -1 <= indexOf alphabet c.
Proof.
  induction alphabet as [|a rest IH]; cbn [indexOf]; [lia|].
  destruct (Ascii.eqb a c); [lia|].
  destruct (Z.ltb_spec (indexOf rest c) 0); lia.
Qed.

Lemma indexOf_foreign alphabet c :
  foreign alphabet c = true <-> indexOf alphabet c = -1.
Proof.
  unfold foreign. induction alphabet as [|a rest IH];
    cbn [indexOf list_ascii_of_string existsb]; [tauto|].
  rewrite (Ascii.eqb_sym c a). destruct (Ascii.eqb a c); cbn [orb negb].
  - split; [discriminate | lia].
  - pose proof (indexOf_lower_bound rest c).
    destruct (Z.ltb_spec (indexOf rest c) 0).
    + rewrite IH. split; intros; lia.
    + rewrite IH. split; intros; lia.
Qed.

Lemma decode58_for_foreign str : forall bytes,
  has_foreign ALPHABET str = true ->
  decode58_for str bytes = Throw "Invalid Base58Bitcoin string".
Proof.
  unfold has_foreign.
  induction str as [|c rest IH]; intros bytes H; [discriminate|].
  cbn [exists_string decode58_for] in *.
  destruct (Z.eqb_spec (indexOf ALPHABET c) (-1)) as [E|E]; [reflexivity|].
  destruct (foreign ALPHABET c) eqn:F.
  - apply indexOf_foreign in F. contradiction.
  - cbn [orb] in H. destruct (decode58_carry bytes (indexOf ALPHABET c)).
    now apply IH.
Qed.

(** [decodeBase58BTC] has one way to fail. *)
Lemma decodeBase58BTC_outcome str :
  (exists bytes, decodeBase58BTC str = Return bytes) \/
  decodeBase58BTC str = Throw "Invalid Base58Bitcoin string".
Proof.
  unfold decodeBase58BTC. generalize (@nil Z).
  induction str as [|c rest IH]; intros bytes; cbn [decode58_for].
  - left. cbn [bind]. eauto.
  - destruct (indexOf ALPHABET c =? -1); [now right|].
    destruct (decode58_carry bytes (indexOf ALPHABET c)). apply IH.
Qed.

(** ** The low bits of the 32-bit operators *)

Lemma ToInt32_mod x n : 0 <= n <= 32 -> ToInt32 x mod 2 ^ n = x mod 2 ^ n.
Proof.
  intros Hn. unfold ToInt32.
  rewrite (Z.mod_eq (x + 2 ^ 31) (2 ^ 32)) by (apply Z.pow_nonzero; lia).
  replace (2 ^ 32) with (2 ^ (32 - n) * 2 ^ n)
    by (rewrite <- Z.pow_add_r by lia; f_equal; lia).
  set (q := (x + 2 ^ 31) / (2 ^ (32 - n) * 2 ^ n)).
  replace (x + 2 ^ 31 - 2 ^ (32 - n) * 2 ^ n * q - 2 ^ 31)
    with (x + (- q * 2 ^ (32 - n)) * 2 ^ n) by ring.
  apply Z_mod_plus_full.
Qed.

Lemma lor_mod a b n :
  0 <= n -> Z.lor a b mod 2 ^ n = Z.lor (a mod 2 ^ n) (b mod 2 ^ n).
Proof.
  intros Hn. rewrite <- !Z.land_ones by assumption.
  apply Z.land_lor_distr_l.
Qed.

Lemma lor_shifted m k b :
  0 <= k -> 0 <= b < 2 ^ k -> Z.lor (m * 2 ^ k) b = m * 2 ^ k + b.
Proof.
  intros Hk Hb. apply Z.or_to_plus.
  rewrite <- (Z.mod_small b (2 ^ k)) by assumption.
  rewrite <- Z.shiftl_mul_pow2 by assumption.
  Z.bitblast. subst. now rewrite Z.testbit_neg_r by lia.
Qed.

(** [(value << k) | b] keeps the low bits of [value] above [b]. *)
Lemma bor_shl_low value k b n :
  0 <= n -> 0 <= k < 32 -> n + k <= 32 -> 0 <= b < 2 ^ k ->
  bor (shl value k) b mod 2 ^ (n + k) = (value mod 2 ^ n) * 2 ^ k + b.
Proof.
  intros Hn Hk Hnk Hb. unfold bor, shl.
  rewrite shift_count by assumption.
  rewrite lor_mod, !ToInt32_mod by lia.
  rewrite Z.shiftl_mul_pow2, Z.pow_add_r by lia.
  rewrite Z.mul_mod_distr_r by (apply Z.pow_nonzero; lia).
  rewrite ToInt32_mod by lia.
  assert (2 ^ k <= 2 ^ n * 2 ^ k).
  { assert (0 < 2 ^ n) by (apply Z.pow_pos_nonneg; lia).
    assert (0 < 2 ^ k) by (apply Z.pow_pos_nonneg; lia). nia. }
  rewrite (Z.mod_small b) by lia.
  now apply lor_shifted.
Qed.

(** [(value >>> k) & (2^w - 1)] reads [w] bits of [value] from bit [k]. *)
Lemma band_shr_low value k w :
  0 <= k < 32 -> 0 <= w < 31 -> k + w <= 32 ->
  band (shr value k) (2 ^ w - 1) = (value mod 2 ^ (k + w)) / 2 ^ k.
Proof.
  intros Hk Hw Hkw. unfold band, shr.
  rewrite shift_count by assumption.
  assert (0 < 2 ^ w <= 2 ^ 30)
    by (split; [apply Z.pow_pos_nonneg; lia | apply Z.pow_le_mono_r; lia]).
  rewrite (ToInt32_small (2 ^ w - 1))
    by (change (2 ^ 30) with 1073741824 in *;
        change (2 ^ 31) with 2147483648; lia).
  replace (2 ^ w - 1) with (Z.ones w) by (rewrite Z.ones_equiv; lia).
  rewrite Z.land_ones, ToInt32_mod by lia.
  unfold ToUint32. rewrite Z.shiftr_div_pow2 by lia.
  Z.bitblast.
Qed.

(** [(value << k) & (2^w - 1)], for the last character of base32. *)
Lemma band_shl_low value k w :
  0 <= k < 32 -> k <= w < 31 ->
  band (shl value k) (2 ^ w - 1) = (value mod 2 ^ (w - k)) * 2 ^ k.
Proof.
  intros Hk Hw. unfold band.
  assert (0 < 2 ^ w <= 2 ^ 30)
    by (split; [apply Z.pow_pos_nonneg; lia | apply Z.pow_le_mono_r; lia]).
  rewrite (ToInt32_small (2 ^ w - 1))
    by (change (2 ^ 30) with 1073741824 in *;
        change (2 ^ 31) with 2147483648; lia).
  replace (2 ^ w - 1) with (Z.ones w) by (rewrite Z.ones_equiv; lia).
  rewrite Z.land_ones, ToInt32_mod by lia.
  unfold shl. rewrite shift_count by assumption.
  rewrite ToInt32_mod by lia.
  rewrite Z.shiftl_mul_pow2 by lia.
  replace (2 ^ w) with (2 ^ (w - k) * 2 ^ k)
    by (rewrite <- Z.pow_add_r by lia; f_equal; lia).
  rewrite Z.mul_mod_distr_r by (apply Z.pow_nonzero; lia).
  now rewrite ToInt32_mod by lia.
Qed.

(** ** Recoding a bit stream *)

Lemma mod_pow2_split x j n :
  0 <= j <= n ->
  x mod 2 ^ n = (x mod 2 ^ n) / 2 ^ j * 2 ^ j + x mod 2 ^ j.
Proof.
  intros Hj.
  assert (H0 : 0 < 2 ^ j) by (apply Z.pow_pos_nonneg; lia).
  assert (Hdiv : (2 ^ j | 2 ^ n)).
  { exists (2 ^ (n - j)). rewrite <- Z.pow_add_r by lia. f_equal. lia. }
  pose proof (Z.div_mod (x mod 2 ^ n) (2 ^ j) ltac:(lia)) as E.
  rewrite Z.mod_mod_divide in E by assumption. lia.
Qed.

(** Reading [k] more bits, whose number is [d]. *)
Lemma stream_push B w P nbits emitted bits value k d value' :
  stream_inv B w P nbits emitted bits value -> 0 <= k ->
  value' mod 2 ^ (bits + k) = (value mod 2 ^ bits) * 2 ^ k + d ->
  stream_inv B w (P * 2 ^ k + d) (nbits + k) emitted (bits + k) value'.
Proof.
  intros (Hok & Hb & Hn & HP) Hk Hv. repeat split; try assumption; try lia.
  rewrite Hv, HP, Z.pow_add_r by lia. ring.
Qed.

(** Writing one digit: the top [w] of the waiting bits. *)
Lemma stream_pop w P nbits emitted bits value :
  stream_inv (2 ^ w) w P nbits emitted bits value -> 0 < w <= bits ->
  let q := (value mod 2 ^ bits) / 2 ^ (bits - w) in
  0 <= q < 2 ^ w /\
  stream_inv (2 ^ w) w P nbits (emitted ++ [q]) (bits - w) value.
Proof.
  intros (Hok & Hb & Hn & HP) Hw q.
  assert (H1 : 0 < 2 ^ (bits - w)) by (apply Z.pow_pos_nonneg; lia).
  assert (H2 : 0 < 2 ^ w) by (apply Z.pow_pos_nonneg; lia).
  assert (H3 : 2 ^ bits = 2 ^ (bits - w) * 2 ^ w).
  { rewrite <- Z.pow_add_r by lia. f_equal. lia. }
  pose proof (Z.mod_pos_bound value (2 ^ bits) ltac:(lia)) as Hm.
  assert (Hq : 0 <= q < 2 ^ w).
  { subst q. split; [apply Z.div_pos; lia|].
    apply Z.div_lt_upper_bound; lia. }
  split; [exact Hq|]. repeat split.
  - apply Forall_app. split; [assumption|]. constructor; [exact Hq | constructor].
  - lia.
  - rewrite length_app. cbn [List.length]. lia.
  - rewrite rev_app_distr. cbn [rev app le_val].
    pose proof (mod_pow2_split value (bits - w) bits ltac:(lia)) as Hs.
    fold q in Hs. rewrite HP, Hs, H3. ring.
Qed.

(** ** Base32: the encoder *)

Lemma encode32_while_spec fuel : forall result bits value P nbits qs,
  stream_inv 32 5 P nbits qs bits value ->
  bits <= 27 -> bits <= Z.of_nat fuel ->
  result = numeral BASE32_ALPHABET qs ->
  exists qs',
    encode32_while fuel result bits value
    = (numeral BASE32_ALPHABET qs', nbits - 5 * Z.of_nat (List.length qs')) /\
    stream_inv 32 5 P nbits qs' (nbits - 5 * Z.of_nat (List.length qs')) value /\
    nbits - 5 * Z.of_nat (List.length qs') < 5.
Proof.
  induction fuel as [|fuel IH]; intros result bits value P nbits qs Inv Hb Hf ->.
  - exists qs. destruct Inv as (I1 & I2 & I3 & I4).
    replace (nbits - 5 * Z.of_nat (List.length qs)) with bits by lia.
    cbn [encode32_while]. repeat split; auto; lia.
  - cbn [encode32_while]. destruct (Z.leb_spec 5 bits) as [H5|H5].
    + change 31 with (2 ^ 5 - 1). rewrite band_shr_low by lia.
      replace (bits - 5 + 5) with bits by lia.
      destruct (stream_pop 5 P nbits qs bits value Inv ltac:(lia)) as [Hq Inv'].
      cbv zeta in Hq, Inv'. change (2 ^ 5) with 32 in Hq.
      set (q := value mod 2 ^ bits / 2 ^ (bits - 5)) in *.
      rewrite append_charAt_in_range
        by (change (Z.of_nat (String.length BASE32_ALPHABET)) with 32; lia).
      apply (IH _ _ _ P nbits (qs ++ [q])%list); try lia; [exact Inv'|].
      rewrite numeral_app. reflexivity.
    + exists qs. destruct Inv as (I1 & I2 & I3 & I4).
      replace (nbits - 5 * Z.of_nat (List.length qs)) with bits by lia.
      repeat split; auto; lia.
Qed.

(** The state after the [for] of the encoder, threaded through
    [fold_left]. *)
Lemma encode32_fold_spec data : forall result bits value P nbits qs,
  stream_inv 32 5 P nbits qs bits value -> bits < 5 ->
  result = numeral BASE32_ALPHABET qs ->
  exists qs' bits' value',
    fold_left encode32_step data (result, bits, value)
    = (numeral BASE32_ALPHABET qs', bits', value') /\
    stream_inv 32 5
      (P * 256 ^ Z.of_nat (List.length data)
       + le_val 256 (rev (unsigned_bytes data)))
      (nbits + 8 * Z.of_nat (List.length data)) qs' bits' value' /\
    bits' < 5.
Proof.
  induction data as [|b data IH]; intros result bits value P nbits qs Inv Hb ->.
  - exists qs, bits, value. cbn [fold_left List.length unsigned_bytes map rev le_val].
    change (Z.of_nat 0) with 0. rewrite Z.pow_0_r.
    replace (P * 1 + 0) with P by lia. replace (nbits + 8 * 0) with nbits by lia.
    auto.
  - cbn [fold_left encode32_step].
    pose proof (byte.unsigned_range b) as Hr.
    assert (Hbits : 0 <= bits) by (destruct Inv as (_ & ? & _); assumption).
    assert (Inv1 : stream_inv 32 5 (P * 2 ^ 8 + byte.unsigned b) (nbits + 8) qs
                     (bits + 8) (bor (shl value 8) (byte.unsigned b))).
    { apply stream_push with (value := value); [assumption | lia |].
      apply bor_shl_low; lia. }
    destruct (encode32_while_spec (Z.to_nat (bits + 8)) (numeral BASE32_ALPHABET qs)
                (bits + 8) _ _ _ qs Inv1 ltac:(lia) ltac:(lia) eq_refl)
      as (qs1 & E1 & Inv2 & Hlt).
    rewrite E1.
    destruct (IH _ _ _ _ _ qs1 Inv2 Hlt eq_refl) as (qs' & bits' & value' & E & Inv3 & Hlt').
    exists qs', bits', value'. split; [exact E|]. split; [|exact Hlt'].
    cbn [List.length unsigned_bytes map rev].
    rewrite (le_val_app 256), length_rev by lia. cbn [le_val].
    fold (unsigned_bytes data). unfold unsigned_bytes at 2. rewrite length_map.
    rewrite Nat2Z.inj_succ, Z.pow_succ_r by lia.
    replace (P * (256 * 256 ^ Z.of_nat (List.length data)) +
             (le_val 256 (rev (unsigned_bytes data)) +
              256 ^ Z.of_nat (List.length data) * (byte.unsigned b + 256 * 0)))
      with ((P * 2 ^ 8 + byte.unsigned b) * 256 ^ Z.of_nat (List.length data)
            + le_val 256 (rev (unsigned_bytes data)))
      by (change (2 ^ 8) with 256; ring).
    replace (nbits + 8 * Z.succ (Z.of_nat (List.length data)))
      with (nbits + 8 + 8 * Z.of_nat (List.length data)) by lia.
    exact Inv3.
Qed.

(** The text of [encodeBase32RFC]: the bits of the bytes, padded with
    [pad] zero bits to a whole number of 5-bit digits. *)
Lemma encodeBase32RFC_spec data :
  exists qs pad,
    encodeBase32RFC data = numeral BASE32_ALPHABET qs /\
    digits_ok 32 qs /\ 0 <= pad < 5 /\
    5 * Z.of_nat (List.length qs) = 8 * Z.of_nat (List.length data) + pad /\
    le_val 32 (rev qs) = le_val 256 (rev (unsigned_bytes data)) * 2 ^ pad.
Proof.
  unfold encodeBase32RFC.
  assert (Inv0 : stream_inv 32 5 0 0 [] 0 0).
  { repeat split; try lia. constructor. }
  destruct (encode32_fold_spec data "" 0 0 0 0 [] Inv0 ltac:(lia) eq_refl)
    as (qs & bits & value & E & Inv & Hlt).
  rewrite E. destruct Inv as (I1 & I2 & I3 & I4).
  rewrite Z.mul_0_l, !Z.add_0_l in *.
  destruct (Z.ltb_spec 0 bits) as [Hpos|Hz].
  - change 31 with (2 ^ 5 - 1). rewrite band_shl_low by lia.
    replace (5 - (5 - bits)) with bits by lia.
    pose proof (Z.mod_pos_bound value (2 ^ bits) ltac:(apply Z.pow_pos_nonneg; lia)) as Hm.
    assert (H32 : 2 ^ bits * 2 ^ (5 - bits) = 32).
    { rewrite <- Z.pow_add_r by lia. replace (bits + (5 - bits)) with 5 by lia.
      reflexivity. }
    assert (0 < 2 ^ (5 - bits)) by (apply Z.pow_pos_nonneg; lia).
    set (q := value mod 2 ^ bits * 2 ^ (5 - bits)).
    assert (Hq : 0 <= q < 32) by (subst q; nia).
    rewrite append_charAt_in_range
      by (change (Z.of_nat (String.length BASE32_ALPHABET)) with 32; lia).
    exists (qs ++ [q])%list, (5 - bits). repeat split; try lia.
    + now rewrite numeral_app.
    + apply Forall_app. split; [assumption|]. constructor; [lia | constructor].
    + rewrite length_app. cbn [List.length]. lia.
    + rewrite rev_app_distr. cbn [rev app le_val]. rewrite I4. subst q.
      replace (32 * le_val 32 (rev qs))
        with (2 ^ bits * 2 ^ (5 - bits) * le_val 32 (rev qs))
        by (now rewrite H32).
      ring.
  - assert (bits = 0) as -> by lia. exists qs, 0. repeat split; try lia; auto.
    rewrite I4. change (2 ^ 0) with 1. rewrite Z.mod_1_r. lia.
Qed.

(** ** Base32: the decoder *)

Lemma set_at_end written r rest v :
  set (written ++ r :: rest)%list (List.length written) v
  = (written ++ byte.of_Z v :: rest)%list.
Proof.
  induction written as [|w written IH]; cbn [app List.length set]; [reflexivity|].
  now rewrite IH.
Qed.

Lemma slice_prefix (a b : Buffer) :
  slice (a ++ b)%list 0 (Z.of_nat (List.length a)) = a.
Proof.
  unfold slice, clamp. change (0 <? 0) with false. cbv iota.
  destruct (Z.ltb_spec (Z.of_nat (List.length a)) 0); [lia|].
  rewrite Nat2Z.id, length_app. change (Z.to_nat 0) with 0%nat.
  rewrite Nat.min_0_l, Nat.sub_0_r, Nat.min_l by lia. cbn [skipn].
  rewrite firstn_app, firstn_all, Nat.sub_diag. cbn [firstn].
  apply app_nil_r.
Qed.

(** The decoder stores one byte for every eight bits it has read,
    whatever the characters are. *)
Lemma decode32_emit_length encoded : forall bits value,
  0 <= bits < 8 ->
  Z.of_nat (List.length (decode32_emit encoded bits value))
  = (bits + 5 * Z.of_nat (String.length encoded)) / 8.
Proof.
  induction encoded as [|c rest IH]; intros bits value Hb.
  - cbn [decode32_emit List.length String.length].
    change (Z.of_nat 0) with 0. rewrite Z.mul_0_r, Z.add_0_r.
    symmetry. apply Z.div_small. lia.
  - cbn [decode32_emit String.length]. rewrite Nat2Z.inj_succ.
    destruct (Z.leb_spec 8 (bits + 5)) as [H8|H8].
    + cbn [List.length]. rewrite Nat2Z.inj_succ, IH by lia.
      replace (bits + 5 * Z.succ (Z.of_nat (String.length rest)))
        with (bits + 5 - 8 + 5 * Z.of_nat (String.length rest) + 1 * 8) by lia.
      rewrite Z.div_add by lia. lia.
    + rewrite IH by lia. f_equal. lia.
Qed.

(** The buffer the decoder fills holds the bytes it emits, in order. *)
Lemma decode32_for_emit encoded : forall written rest bits value,
  0 <= bits < 8 ->
  (bits + 5 * Z.of_nat (String.length encoded)) / 8 <= Z.of_nat (List.length rest) ->
  decode32_for encoded (written ++ rest)%list bits value (List.length written)
  = ((written ++ from_array (decode32_emit encoded bits value)
        ++ skipn (List.length (decode32_emit encoded bits value)) rest)%list,
     (List.length written + List.length (decode32_emit encoded bits value))%nat).
Proof.
  induction encoded as [|c enc IH]; intros written rest bits value Hb Hcap.
  - cbn [decode32_for decode32_emit from_array map List.length skipn app].
    now rewrite Nat.add_0_r.
  - pose proof (decode32_emit_length (String c enc) bits value Hb) as Hlen.
    cbn [decode32_for decode32_emit] in *.
    set (v1 := bor (shl value 5) (indexOf BASE32_ALPHABET c)) in *.
    destruct (Z.leb_spec 8 (bits + 5)) as [H8|H8].
    + set (x := band (shr v1 (bits + 5 - 8)) 255) in *.
      cbn [List.length] in Hlen. rewrite Nat2Z.inj_succ in Hlen.
      pose proof (decode32_emit_length enc (bits + 5 - 8) v1 ltac:(lia)) as Hlen'.
      destruct rest as [|r rest]; [cbn [List.length] in Hcap; lia|].
      rewrite set_at_end.
      replace (S (List.length written))
        with (List.length (written ++ [byte.of_Z x]))
        by (rewrite length_app; cbn [List.length]; lia).
      replace (written ++ byte.of_Z x :: rest)%list
        with ((written ++ [byte.of_Z x]) ++ rest)%list
        by (now rewrite <- app_assoc).
      rewrite IH.
      * cbn [from_array map List.length skipn app]. rewrite <- app_assoc.
        cbn [app]. rewrite length_app. cbn [List.length]. f_equal. lia.
      * lia.
      * cbn [List.length String.length] in Hcap, Hlen.
        rewrite !Nat2Z.inj_succ in Hcap. rewrite Nat2Z.inj_succ in Hlen. lia.
    + apply IH; [lia|].
      replace (bits + 5 + 5 * Z.of_nat (String.length enc))
        with (bits + 5 * Z.of_nat (String.length (String c enc)))
        by (cbn [String.length]; lia).
      exact Hcap.
Qed.

Lemma decodeBase32RFC_emit encoded :
  decodeBase32RFC encoded = from_array (decode32_emit encoded 0 0).
Proof.
  unfold decodeBase32RFC.
  pose proof (decode32_emit_length encoded 0 0 ltac:(lia)) as Hlen.
  set (size := Z.to_nat ((Z.of_nat (String.length encoded) * 5 + 7) / 8)).
  assert (Hcap : (0 + 5 * Z.of_nat (String.length encoded)) / 8
                 <= Z.of_nat (List.length (alloc size))).
  { unfold alloc. rewrite repeat_length. subst size.
    rewrite Z2Nat.id by (apply Z.div_pos; lia).
    apply Z.div_le_mono; lia. }
  pose proof (decode32_for_emit encoded [] (alloc size) 0 0 ltac:(lia) Hcap) as E.
  cbn [app List.length] in E. rewrite E.
  set (em := decode32_emit encoded 0 0) in *.
  replace (0 + List.length em)%nat with (List.length (from_array em))
    by (unfold from_array; now rewrite length_map).
  apply slice_prefix.
Qed.

Lemma indexOf_BASE32 d :
  0 <= d < 32 -> indexOf BASE32_ALPHABET (digit_char BASE32_ALPHABET d) = d.
Proof.
  intros Hd. apply Z.eqb_eq.
  apply (below_forall
           (fun d => indexOf BASE32_ALPHABET (digit_char BASE32_ALPHABET d) =? d) 32);
    [vm_compute; reflexivity | lia].
Qed.

(** On a numeral, the emitted bytes continue the recoding of its value. *)
Lemma decode32_emit_numeral rs : forall os bits value P nbits,
  stream_inv 256 8 P nbits os bits value -> bits < 8 -> digits_ok 32 rs ->
  exists bits' value',
    stream_inv 256 8
      (P * 32 ^ Z.of_nat (List.length rs) + le_val 32 (rev rs))
      (nbits + 5 * Z.of_nat (List.length rs))
      (os ++ decode32_emit (numeral BASE32_ALPHABET rs) bits value)
      bits' value' /\ bits' < 8.
Proof.
  induction rs as [|q rs IH]; intros os bits value P nbits Inv Hb Hrs.
  - exists bits, value. cbn [numeral decode32_emit List.length rev le_val].
    change (Z.of_nat 0) with 0. rewrite Z.pow_0_r, app_nil_r.
    replace (P * 1 + 0) with P by lia. replace (nbits + 5 * 0) with nbits by lia.
    auto.
  - inversion Hrs as [|? ? Hq Hrs']; subst.
    assert (Hbits : 0 <= bits) by (destruct Inv as (_ & ? & _); assumption).
    cbn [numeral decode32_emit]. rewrite indexOf_BASE32 by assumption.
    assert (Inv1 : stream_inv 256 8 (P * 2 ^ 5 + q) (nbits + 5) os (bits + 5)
                     (bor (shl value 5) q)).
    { apply stream_push with (value := value); [assumption | lia |].
      apply bor_shl_low; (change (2 ^ 5) with 32; lia). }
    assert (Hval : forall X,
               (P * 2 ^ 5 + q) * 32 ^ Z.of_nat (List.length rs) + X
               = P * 32 ^ Z.of_nat (List.length (q :: rs))
                 + (X + 32 ^ Z.of_nat (List.length rs) * (q + 32 * 0))).
    { intros X. cbn [List.length]. rewrite Nat2Z.inj_succ, Z.pow_succ_r by lia.
      change (2 ^ 5) with 32. ring. }
    assert (Hn : nbits + 5 + 5 * Z.of_nat (List.length rs)
                 = nbits + 5 * Z.of_nat (List.length (q :: rs))).
    { cbn [List.length]. lia. }
    cbn [rev]. rewrite (le_val_app 32), length_rev by lia. cbn [le_val].
    rewrite <- Hval, <- Hn.
    destruct (Z.leb_spec 8 (bits + 5)) as [H8|H8].
    + change 255 with (2 ^ 8 - 1). rewrite band_shr_low by lia.
      replace (bits + 5 - 8 + 8) with (bits + 5) by lia.
      destruct (stream_pop 8 _ _ _ _ _ Inv1 ltac:(lia)) as [_ Inv2].
      cbv zeta in Inv2.
      destruct (IH _ _ _ _ _ Inv2 ltac:(lia) Hrs') as (bits' & value' & Inv3 & Hlt).
      exists bits', value'. rewrite <- app_assoc in Inv3. auto.
    + apply IH; auto.
Qed.

(** Base32 gives back every byte sequence. *)
Lemma base32_round_trip data : decodeBase32RFC (encodeBase32RFC data) = data.
Proof.
  destruct (encodeBase32RFC_spec data) as (qs & pad & -> & Hok & Hpad & Hlen & Hval).
  rewrite decodeBase32RFC_emit.
  assert (Inv0 : stream_inv 256 8 0 0 [] 0 0).
  { repeat split; try lia. constructor. }
  destruct (decode32_emit_numeral qs [] 0 0 0 0 Inv0 ltac:(lia) Hok)
    as (bits & value & (I1 & I2 & I3 & I4) & Hlt).
  cbn [app] in *. rewrite Z.mul_0_l, !Z.add_0_l in *.
  set (os := decode32_emit (numeral BASE32_ALPHABET qs) 0 0) in *.
  assert (Hbits : bits = pad) by lia.
  assert (Hcount : List.length os = List.length data) by lia.
  subst bits.
  assert (H0 : 0 < 2 ^ pad) by (apply Z.pow_pos_nonneg; lia).
  pose proof (Z.mod_pos_bound value (2 ^ pad) H0) as Hm.
  assert (Hsame : le_val 256 (rev os) = le_val 256 (rev (unsigned_bytes data))) by nia.
  assert (Hos : rev os = rev (unsigned_bytes data)).
  { apply (le_val_inj 256); try lia.
    - now apply digits_ok_rev.
    - apply digits_ok_rev, unsigned_bytes_ok.
    - rewrite !length_rev. unfold unsigned_bytes. now rewrite length_map. }
  apply (f_equal (@rev Z)) in Hos. rewrite !rev_involutive in Hos.
  rewrite Hos. apply from_array_unsigned.
Qed.

(** ** Base64url *)

(** Lists taken three elements at a time. *)
Lemma list_ind3 (A : Type) (P : list A -> Prop) :
  P [] -> (forall a, P [a]) -> (forall a b, P [a; b]) ->
  (forall a b c rest, P rest -> P (a :: b :: c :: rest)) ->
  forall l, P l.
Proof.
  intros H0 H1 H2 H3 l.
  enough (P l /\ (forall a, P (a :: l)) /\ (forall a b, P (a :: b :: l)))
    by tauto.
  induction l as [|x l (I0 & I1 & I2)]; [auto|].
  repeat split; auto.
Qed.

Lemma latin1_round_trip buffer : charCodes (toString_latin1 buffer) = buffer.
Proof.
  unfold charCodes, toString_latin1.
  rewrite list_ascii_of_string_of_list_ascii, map_map.
  induction buffer as [|b buffer IH]; [reflexivity|].
  cbn [map]. now rewrite byte_of_ascii_of_byte, IH.
Qed.

(** Facts about single characters, checked on all 64 digits. *)
Lemma base64_char_url v :
  0 <= v < 64 ->
  base64_char v <> "="%char /\
  (if Ascii.eqb (if Ascii.eqb (base64_char v) "+" then "-"%char else base64_char v) "/"
   then "_"%char
   else if Ascii.eqb (base64_char v) "+" then "-"%char else base64_char v)
  = digit_char base64url_alphabet v.
Proof.
  intros Hv.
  pose proof (below_forall
    (fun v => negb (Ascii.eqb (base64_char v) "=") &&
              Ascii.eqb
                (if Ascii.eqb (if Ascii.eqb (base64_char v) "+" then "-"%char
                               else base64_char v) "/"
                 then "_"%char
                 else if Ascii.eqb (base64_char v) "+" then "-"%char
                      else base64_char v)
                (digit_char base64url_alphabet v)) 64 eq_refl v Hv) as H.
  cbv beta in H. apply andb_true_iff in H. destruct H as [H1 H2].
  split.
  - intros E. rewrite E in H1. discriminate.
  - now apply Ascii.eqb_eq.
Qed.

Lemma url_char_unbase64 v :
  0 <= v < 64 ->
  let c := digit_char base64url_alphabet v in
  unbase64 (if Ascii.eqb (if Ascii.eqb c "-" then "+"%char else c) "_"
            then "/"%char
            else if Ascii.eqb c "-" then "+"%char else c) = Some v.
Proof.
  intros Hv.
  pose proof (below_forall
    (fun v =>
       let c := digit_char base64url_alphabet v in
       match unbase64 (if Ascii.eqb (if Ascii.eqb c "-" then "+"%char else c) "_"
                       then "/"%char
                       else if Ascii.eqb c "-" then "+"%char else c) with
       | Some w => w =? v
       | None => false
       end) 64 eq_refl v Hv) as H.
  cbv beta zeta in H. cbv zeta.
  destruct (unbase64 _) as [w|]; [|discriminate].
  apply Z.eqb_eq in H. now subst.
Qed.

(** A fact about all bytes may be proved on the low eight bits of any
    number. *)
Lemma byte_form (P : Z -> Prop) :
  (forall x, P (x mod 2 ^ 8)) -> forall a, 0 <= a < 2 ^ 8 -> P a.
Proof.
  intros H a Ha. rewrite <- (Z.mod_small a (2 ^ 8)) by assumption. apply H.
Qed.

Ltac mask_constants :=
  change 63 with (Z.ones 6) in *;
  change 48 with (Z.shiftl (Z.ones 2) 4) in *;
  change 60 with (Z.shiftl (Z.ones 4) 2) in *;
  change 15 with (Z.ones 4) in *;
  change 3 with (Z.ones 2) in *.

(** Bit-level equations between expressions over bytes. *)
Ltac byte_bits :=
  repeat match goal with
         | |- context [byte.unsigned ?x] =>
             let H := fresh "H" in
             pose proof (byte.unsigned_range x) as H;
             generalize dependent (byte.unsigned x); clear x; intros x H
         end;
  repeat match goal with
         | H : 0 <= ?a < 2 ^ 8 |- _ =>
             pattern a; revert a H; apply byte_form; intro a
         end;
  mask_constants; Z.bitblast; Z.bitblast_core.

Lemma in_range6 e : e mod 2 ^ 6 = e -> 0 <= e < 64.
Proof. intros <-. apply Z.mod_pos_bound. reflexivity. Qed.

Lemma bytes_sextets_ok buffer : digits_ok 64 (bytes_sextets buffer).
Proof.
  induction buffer as [|a|a b|a b c rest IH] using list_ind3;
    cbn [bytes_sextets]; repeat constructor; try exact IH;
    apply in_range6; byte_bits.
Qed.

Lemma of_Z_eq e (a : byte) : e = byte.unsigned a -> byte.of_Z e = a.
Proof. intros ->. apply byte.of_Z_unsigned. Qed.

Ltac next_byte := apply (f_equal2 cons); [apply of_Z_eq; byte_bits|].

Lemma unsextets_bytes_sextets buffer : unsextets (bytes_sextets buffer) = buffer.
Proof.
  induction buffer as [|a|a b|a b c rest IH] using list_ind3;
    cbn [bytes_sextets unsextets]; [reflexivity | | |].
  - next_byte. reflexivity.
  - next_byte. next_byte. reflexivity.
  - next_byte. next_byte. next_byte. exact IH.
Qed.

(** The text of [encodeBase64URL]: the 6-bit digits in the URL-safe
    alphabet, without padding. *)
Lemma encode64_cons v rest :
  0 <= v < 64 ->
  replace_all "/" "_" (replace_all "+" "-"
    (remove_all "=" (String (base64_char v) rest)))
  = String (digit_char base64url_alphabet v)
      (replace_all "/" "_" (replace_all "+" "-" (remove_all "=" rest))).
Proof.
  intros Hv. destruct (base64_char_url v Hv) as [Hne Hc].
  cbn [remove_all]. apply Ascii.eqb_neq in Hne. rewrite Hne.
  unfold replace_all. cbn [map_string]. now rewrite Hc.
Qed.

Lemma encodeBase64URL_spec input :
  encodeBase64URL input = numeral base64url_alphabet (bytes_sextets input).
Proof.
  unfold encodeBase64URL.
  induction input as [|a|a b|a b c rest IH] using list_ind3;
    [reflexivity | pose proof (bytes_sextets_ok [a]) as Hok
     | pose proof (bytes_sextets_ok [a; b]) as Hok
     | pose proof (bytes_sextets_ok (a :: b :: c :: rest)) as Hok];
    cbn [bytes_sextets toString_base64 numeral] in *;
    unfold digits_ok in Hok;
    repeat match goal with
           | K : Forall _ (_ :: _) |- _ =>
               apply Forall_cons_iff in K; destruct K as [? K]
           end;
    rewrite !encode64_cons by assumption; try reflexivity.
  now rewrite IH.
Qed.

(** The decoder reads the digits back, whatever padding was added. *)
Lemma sextets_padding k : sextets (repeat_char "=" k) = [].
Proof. destruct k; reflexivity. Qed.

Lemma sextets_numeral qs k :
  digits_ok 64 qs ->
  sextets (replace_all "_" "/" (replace_all "-" "+" (numeral base64url_alphabet qs))
           ++ repeat_char "=" k) = qs.
Proof.
  induction 1 as [|v qs Hv _ IH].
  - cbn [numeral replace_all map_string append]. apply sextets_padding.
  - cbn [numeral]. unfold replace_all in *. cbn [map_string append sextets].
    pose proof (url_char_unbase64 v Hv) as E. cbv zeta in E.
    rewrite E. now rewrite IH.
Qed.

(** Base64url gives back every byte sequence. *)
Lemma base64url_round_trip input : decodeBase64URL (encodeBase64URL input) = input.
Proof.
  rewrite encodeBase64URL_spec. unfold decodeBase64URL.
  rewrite latin1_round_trip. unfold from_base64.
  set (text := replace_all "_" "/"
                 (replace_all "-" "+" (numeral base64url_alphabet (bytes_sextets input)))).
  assert (E : forall k, sextets (text ++ repeat_char "=" k) = bytes_sextets input).
  { intros k. apply sextets_numeral, bytes_sextets_ok. }
  destruct (0 <? String.length text mod 4)%nat.
  - rewrite E. apply unsextets_bytes_sextets.
  - rewrite <- (append_nil_r text). change EmptyString with (repeat_char "=" 0).
    rewrite E. apply unsextets_bytes_sextets.
Qed.

(** Padding never changes what the decoder reads, and the characters
    it does not keep are skipped. *)
Lemma sextets_app_padding text k :
  sextets (text ++ repeat_char "=" k) = sextets text.
Proof.
  induction text as [|c text IH]; cbn [append sextets].
  - apply sextets_padding.
  - now rewrite IH.
Qed.

Lemma decodeBase64URL_unpadded input :
  decodeBase64URL input
  = unsextets (sextets (replace_all "_" "/" (replace_all "-" "+" input))).
Proof.
  unfold decodeBase64URL. rewrite latin1_round_trip. unfold from_base64.
  destruct (0 <? _)%nat; [now rewrite sextets_app_padding | reflexivity].
Qed.

Lemma map_string_compose f g s :
  map_string g (map_string f s) = map_string (fun c => g (f c)) s.
Proof. induction s as [|c s IH]; cbn [map_string]; [reflexivity | now rewrite IH]. Qed.

Lemma sextets_map_filter (g : ascii -> ascii) :
  (forall c, kept64 c = false -> g c = c) ->
  forall s, sextets (map_string g (filter_string kept64 s)) = sextets (map_string g s).
Proof.
  intros Hg. induction s as [|c rest IH]; [reflexivity|].
  cbn [filter_string]. destruct (kept64 c) eqn:K.
  - cbn [map_string sextets]. now rewrite IH.
  - rewrite IH. cbn [map_string sextets]. rewrite (Hg c K).
    unfold kept64 in K. destruct (unbase64 c); [discriminate|]. now rewrite K.
Qed.

Lemma decodeBase64URL_skips input :
  decodeBase64URL (filter_string kept64 input) = decodeBase64URL input.
Proof.
  rewrite !decodeBase64URL_unpadded. f_equal. unfold replace_all.
  rewrite !map_string_compose. apply sextets_map_filter.
  intros c K. unfold kept64 in K.
  destruct (Ascii.eqb_spec c "-") as [->|_]; [discriminate|].
  destruct (Ascii.eqb_spec c "_") as [->|_]; [discriminate|].
  reflexivity.
Qed.

(** ** Letter case in the [b] form *)

Lemma lower_char_fixed c : is_lower (lower_char c) = false -> lower_char c = c.
Proof.
  destruct c as [[] [] [] [] [] [] [] []]; vm_compute;
    first [reflexivity | discriminate].
Qed.

Lemma toLowerCase_no_lower s :
  test_lower (toLowerCase s) = false -> toLowerCase s = s.
Proof.
  unfold test_lower, toLowerCase.
  induction s as [|c s IH]; cbn [map_string exists_string]; [reflexivity|].
  intros H. apply orb_false_iff in H. destruct H as [H1 H2].
  now rewrite lower_char_fixed, IH.
Qed.

Lemma base32_char_case v :
  0 <= v < 32 ->
  let c := digit_char BASE32_ALPHABET v in
  is_lower c = false /\ upper_char (lower_char c) = c.
Proof.
  intros Hv.
  pose proof (below_forall
    (fun v => let c := digit_char BASE32_ALPHABET v in
              negb (is_lower c) && Ascii.eqb (upper_char (lower_char c)) c)
    32 eq_refl v Hv) as H.
  cbv beta zeta in H. apply andb_true_iff in H. destruct H as [H1 H2].
  cbv zeta. split.
  - now apply negb_true_iff.
  - now apply Ascii.eqb_eq.
Qed.

Lemma base32_numeral_case qs :
  digits_ok 32 qs ->
  test_lower (numeral BASE32_ALPHABET qs) = false /\
  toUpperCase (toLowerCase (numeral BASE32_ALPHABET qs))
  = numeral BASE32_ALPHABET qs.
Proof.
  unfold test_lower, toUpperCase, toLowerCase.
  induction 1 as [|v qs Hv _ [IH1 IH2]]; [split; reflexivity|].
  destruct (base32_char_case v Hv) as [C1 C2]. cbv zeta in C1, C2.
  cbn [numeral map_string exists_string].
  rewrite C1, C2, IH1, IH2. split; reflexivity.
Qed.

(** What [decodeCIDWithPrefixB] does to a [b] followed by a body
    without lowercase letters, and to the same body in lowercase. *)
Lemma decodeCIDWithPrefixB_upper body :
  test_lower body = false ->
  decodeCIDWithPrefixB ("b" ++ body) = decodeBase32RFC body.
Proof.
  intros H. unfold decodeCIDWithPrefixB.
  change ("b" ++ body)%string with (String "b" body).
  change (first_is (String "b" body) "B") with false. cbn [andb].
  change (first_is (String "b" body) "b") with true.
  change (test_lower (String "b" body)) with (true || test_lower body).
  cbn [orb andb substring1]. now rewrite H.
Qed.

Lemma decodeCIDWithPrefixB_lower body :
  toUpperCase (toLowerCase body) = body ->
  decodeCIDWithPrefixB ("b" ++ toLowerCase body) = decodeBase32RFC body.
Proof.
  intros H. unfold decodeCIDWithPrefixB.
  change ("b" ++ toLowerCase body)%string with (String "b" (toLowerCase body)).
  change (first_is (String "b" (toLowerCase body)) "B") with false. cbn [andb].
  change (first_is (String "b" (toLowerCase body)) "b") with true.
  change (test_lower (String "b" (toLowerCase body)))
    with (true || test_lower (toLowerCase body)).
  cbn [orb andb substring1].
  destruct (test_lower (toLowerCase body)) eqn:T.
  - now rewrite H.
  - now rewrite (toLowerCase_no_lower body T).
Qed.

(** ** The text forms of a binary CID *)

Lemma encodeCIDWithPrefixZ_eq bytes :
  encodeCIDWithPrefixZ bytes = String "z" (encodeBase58BTC bytes).
Proof. unfold encodeCIDWithPrefixZ. now destruct (_ =? _)%nat. Qed.

Lemma encodeCIDWithPrefixU_eq bytes :
  encodeCIDWithPrefixU bytes = String "u" (encodeBase64URL bytes).
Proof. unfold encodeCIDWithPrefixU. now destruct (_ =? _)%nat. Qed.

Lemma encodeCIDWithPrefixB_eq bytes :
  encodeCIDWithPrefixB bytes = String "b" (toLowerCase (encodeBase32RFC bytes)).
Proof. unfold encodeCIDWithPrefixB. now destruct (_ =? _)%nat. Qed.

Lemma decode_b_form data :
  decodeCIDWithPrefixB ("b" ++ encodeBase32RFC data) = data /\
  decodeCIDWithPrefixB ("b" ++ toLowerCase (encodeBase32RFC data)) = data.
Proof.
  destruct (encodeBase32RFC_spec data) as (qs & pad & E & Hok & _).
  destruct (base32_numeral_case qs Hok) as [C1 C2]. rewrite <- E in C1, C2.
  rewrite decodeCIDWithPrefixB_upper, decodeCIDWithPrefixB_lower by assumption.
  split; apply base32_round_trip.
Qed.

(** Each text form decodes to the bytes it was made from. *)
Lemma decodeCID_encodeCID p c :
  no_leading_zero c -> decodeCID p (encodeCID p c) = Return c.
Proof.
  intros Hnz. destruct p; cbn [decodeCID encodeCID].
  - rewrite encodeCIDWithPrefixZ_eq. unfold decodeCIDWithPrefixZ.
    change (first_is (String "z" (encodeBase58BTC c)) "z") with true.
    cbn [substring1]. now apply base58_round_trip.
  - rewrite encodeCIDWithPrefixU_eq. unfold decodeCIDWithPrefixU.
    change (first_is (String "u" (encodeBase64URL c)) "u") with true.
    cbn [substring1]. now rewrite base64url_round_trip.
  - rewrite encodeCIDWithPrefixB_eq. f_equal. apply (decode_b_form c).
Qed.

Lemma valid_cid_no_leading_zero c : valid_cid c -> no_leading_zero c.
Proof.
  intros [_ H]. destruct c as [|t c]; [exact I|]. cbn [no_leading_zero].
  intros E. rewrite E in H. vm_compute in H. intuition discriminate.
Qed.

(** C1: for every valid binary CID [c] (at least 34 bytes, first byte a
    registered type tag) and every pair of prefixes [p1], [p2] among
    [z], [u], [b], decoding the [p1] form of [c], encoding the result
    with [p2] and decoding again gives back exactly [c]. *)
Theorem cross_form_equivalence (c : Buffer) (p1 p2 : prefix) :
  valid_cid c ->
  bind (decodeCID p1 (encodeCID p1 c))
       (fun c1 => decodeCID p2 (encodeCID p2 c1)) = Return c.
Proof.
  intros Hc. pose proof (valid_cid_no_leading_zero c Hc) as Hnz.
  rewrite decodeCID_encodeCID by assumption. cbn [bind].
  now apply decodeCID_encodeCID.
Qed.

Lemma cross_form_equivalence_witness :
  valid_cid scenario_cid /\
  bind (decodeCID PrefixZ (encodeCID PrefixZ scenario_cid))
       (fun c1 => decodeCID PrefixB (encodeCID PrefixB c1)) = Return scenario_cid.
Proof.
  assert (H : valid_cid scenario_cid).
  { split; [vm_compute; lia | vm_compute; tauto]. }
  split; [exact H | apply (cross_form_equivalence scenario_cid PrefixZ PrefixB H)].
Defined.

(** C3, as the code has it: base58 gives back a byte sequence without
    its leading zero bytes, so exactly the sequence when it does not
    begin with a zero byte; base32 and base64url give back every byte
    sequence. *)
Theorem codec_round_trips (b : Buffer) :
  decodeBase58BTC (encodeBase58BTC b) = Return (drop_zeros b) /\
  decodeBase32RFC (encodeBase32RFC b) = b /\
  decodeBase64URL (encodeBase64URL b) = b.
Proof.
  split; [apply base58_decode_encode|].
  split; [apply base32_round_trip | apply base64url_round_trip].
Qed.

(** C3 fails as stated: a zero byte is lost by base58. *)
Lemma base58_loses_leading_zero :
  decodeBase58BTC (encodeBase58BTC [Byte.x00; Byte.x01]) = Return [Byte.x01] /\
  decodeBase58BTC (encodeBase58BTC [Byte.x00; Byte.x01])
  <> Return [Byte.x00; Byte.x01].
Proof. split; [vm_compute; reflexivity | vm_compute; discriminate]. Qed.

(** C9: for every byte sequence, its [b] form with an uppercase base32
    body and its [b] form with the lowercase body decode, through
    [decodeCIDWithPrefixB], to the same bytes: the sequence itself. *)
Theorem case_tolerance (data : Buffer) :
  decodeCIDWithPrefixB ("b" ++ encodeBase32RFC data)
  = decodeCIDWithPrefixB ("b" ++ toLowerCase (encodeBase32RFC data)) /\
  decodeCIDWithPrefixB ("b" ++ toLowerCase (encodeBase32RFC data)) = data.
Proof.
  destruct (decode_b_form data) as [H1 H2]. split; congruence.
Qed.

(** ** Decoders and characters outside the alphabet *)

Lemma decodeBase32RFC_length encoded :
  Z.of_nat (List.length (decodeBase32RFC encoded))
  = 5 * Z.of_nat (String.length encoded) / 8.
Proof.
  rewrite decodeBase32RFC_emit. unfold from_array. rewrite length_map.
  now rewrite (decode32_emit_length encoded 0 0) by lia.
Qed.

(** C5, as the code has it: [decodeBase58BTC] fails with its error on
    every string that has a character outside its alphabet;
    [decodeBase32RFC] and [decodeBase64URL] check nothing and return
    bytes for every string: the first five bits for every eight
    characters read, the second what it finds once the characters it
    does not keep are left out. *)
Theorem decoders_on_foreign_characters (s : string) :
  (has_foreign ALPHABET s = true ->
   decodeBase58BTC s = Throw "Invalid Base58Bitcoin string") /\
  Z.of_nat (List.length (decodeBase32RFC s)) = 5 * Z.of_nat (String.length s) / 8 /\
  decodeBase64URL s = decodeBase64URL (filter_string kept64 s).
Proof.
  split; [|split].
  - intros H. unfold decodeBase58BTC. now rewrite decode58_for_foreign.
  - apply decodeBase32RFC_length.
  - symmetry. apply decodeBase64URL_skips.
Qed.

Lemma decoders_on_foreign_characters_witness :
  has_foreign ALPHABET "3mJr0" = true /\
  decodeBase58BTC "3mJr0" = Throw "Invalid Base58Bitcoin string".
Proof.
  assert (H : has_foreign ALPHABET "3mJr0" = true) by reflexivity.
  split; [exact H|].
  exact (proj1 (decoders_on_foreign_characters "3mJr0") H).
Defined.

(** C5 fails as stated: on strings with characters outside their
    alphabets the base32 and the base64url decoder return bytes. *)
Lemma lenient_decoders_return_bytes :
  has_foreign BASE32_ALPHABET "a!" = true /\
  decodeBase32RFC "a!" = [Byte.xff] /\
  has_foreign base64url_alphabet "!A*Q" = true /\
  decodeBase64URL "!A*Q" = [Byte.x01].
Proof. repeat split; vm_compute; reflexivity. Qed.

(** C10: when the first character is not the expected prefix,
    [decodeCIDWithPrefixZ] and [decodeCIDWithPrefixU] hand the whole
    string to the base codec and return what it returns; on no input
    at all do they raise their final error. *)
Theorem prefix_decoders_fall_through (cid : string) :
  (first_is cid "z" = false -> decodeCIDWithPrefixZ cid = decodeBase58BTC cid) /\
  (first_is cid "u" = false ->
   decodeCIDWithPrefixU cid = Return (decodeBase64URL cid)) /\
  decodeCIDWithPrefixZ cid <> Throw "Invalid input address" /\
  decodeCIDWithPrefixU cid <> Throw "Invalid u CID format".
Proof.
  unfold decodeCIDWithPrefixZ, decodeCIDWithPrefixU. repeat split.
  - now intros ->.
  - now intros ->.
  - destruct (first_is cid "z"); cbn [negb];
      [destruct (decodeBase58BTC_outcome (substring1 cid)) as [[b E]|E]
      | destruct (decodeBase58BTC_outcome cid) as [[b E]|E]];
      rewrite E; discriminate.
  - destruct (first_is cid "u"); cbn [negb]; discriminate.
Qed.

Lemma prefix_decoders_fall_through_witness :
  first_is "3mJr7A" "z" = false /\ first_is "AQID" "u" = false /\
  decodeCIDWithPrefixZ "3mJr7A" = decodeBase58BTC "3mJr7A" /\
  decodeCIDWithPrefixU "AQID" = Return (decodeBase64URL "AQID").
Proof.
  assert (Hz : first_is "3mJr7A" "z" = false) by reflexivity.
  assert (Hu : first_is "AQID" "u" = false) by reflexivity.
  split; [exact Hz|]. split; [exact Hu|]. split.
  - exact (proj1 (prefix_decoders_fall_through "3mJr7A") Hz).
  - exact (proj1 (proj2 (prefix_decoders_fall_through "AQID")) Hu).
Defined.

(** ** Unpacking a binary CID *)

Lemma bufToNum_nil : bufToNum [] = Finite 0.
Proof. reflexivity. Qed.

Lemma slice_from_all (buffer : Buffer) k :
  Z.of_nat (List.length buffer) <= k -> slice_from buffer k = [].
Proof.
  intros H. unfold slice_from, clamp.
  destruct (Z.ltb_spec k 0); [lia|].
  rewrite Nat.min_r by lia. apply skipn_all.
Qed.

(** On a buffer shorter than 34 bytes the loop that looks for the
    multihash never ends, whatever the number of rounds. *)
Lemma hashSize_while_short fuel : forall length i hashSize,
  length - i <= 33 -> hashSize < 33 ->
  hashSize_while fuel length i hashSize = None.
Proof.
  induction fuel as [|fuel IH]; intros length i hashSize Hl Hh; [reflexivity|].
  cbn [hashSize_while]. destruct (Z.eqb_spec hashSize 33); [lia|].
  cbn [negb]. apply IH; lia.
Qed.

Lemma extractMHashFromCID_short fuel cid :
  (List.length cid < 34)%nat ->
  extractMHashFromCID fuel cid = None /\ extractB3hashFromCID fuel cid = None.
Proof.
  intros H. unfold extractMHashFromCID, extractB3hashFromCID.
  rewrite hashSize_while_short by lia. split; reflexivity.
Qed.

(** From 34 bytes on it ends, with the 33 bytes after the type byte. *)
Lemma hashSize_while_long fuel : forall length i,
  33 <= length - i -> length - i - 33 < Z.of_nat fuel ->
  hashSize_while fuel length i (length - i) = Some 33.
Proof.
  induction fuel as [|fuel IH]; intros length i Hl Hf; [lia|].
  cbn [hashSize_while]. destruct (Z.eqb_spec (length - i) 33) as [E|E]; cbn [negb].
  - now rewrite E.
  - apply IH; lia.
Qed.

Lemma extractMHashFromCID_long fuel cid :
  (34 <= List.length cid)%nat -> (List.length cid < fuel)%nat ->
  extractMHashFromCID fuel cid = Some (slice cid 1 34).
Proof.
  intros H Hf. unfold extractMHashFromCID.
  destruct fuel as [|fuel]; [lia|]. cbn [hashSize_while].
  destruct (Z.eqb_spec (Z.of_nat (List.length cid) - 1) 33) as [E|E]; cbn [negb].
  - rewrite E. reflexivity.
  - change (0 + 1) with 1.
    rewrite (hashSize_while_long fuel (Z.of_nat (List.length cid)) 1) by lia.
    reflexivity.
Qed.

(** C4, as the code has it: on a buffer shorter than 34 bytes
    [extractRawSizeFromCID] does not fail; it reads the size from
    offset 33, finds nothing there and returns 0. *)
Theorem short_cid_has_size_zero (cid : Buffer) :
  (List.length cid < 34)%nat -> extractRawSizeFromCID cid = Finite 0.
Proof.
  intros H. unfold extractRawSizeFromCID.
  destruct (Nat.leb_spec 34 (List.length cid)); [lia|].
  rewrite slice_from_all by lia. apply bufToNum_nil.
Qed.

Lemma short_cid_has_size_zero_witness :
  (List.length (alloc_fill 33 cidTypeRaw) < 34)%nat /\
  extractRawSizeFromCID (alloc_fill 33 cidTypeRaw) = Finite 0.
Proof.
  assert (H : (List.length (alloc_fill 33 cidTypeRaw) < 34)%nat)
    by (vm_compute; lia).
  split; [exact H | apply (short_cid_has_size_zero _ H)].
Defined.

(** C4 fails as stated: a 33-byte buffer makes [extractRawSizeFromCID]
    return a size instead of failing. *)
Lemma short_cid_is_not_rejected :
  List.length (alloc_fill 33 cidTypeRaw) = 33%nat /\
  extractRawSizeFromCID (alloc_fill 33 cidTypeRaw) = Finite 0.
Proof. split; vm_compute; reflexivity. Qed.

(** ** The digest of a textual CID *)

(** [convertS5CidToB3hashHex] decodes as [convertS5CidToCIDBytes] does,
    then looks at the size. *)
Lemma convertS5CidToB3hashHex_spec fuel cid :
  convertS5CidToB3hashHex fuel cid
  = match convertS5CidToCIDBytes cid with
    | Throw e => Some (Throw e)
    | Return cidBytes =>
        match b3hash_of fuel cidBytes with
        | None => None
        | Some None => Some (Throw "Invalid CID input address")
        | Some (Some h) => Some (Return (toString_hex h))
        end
    end.
Proof.
  unfold convertS5CidToB3hashHex, convertS5CidToCIDBytes.
  generalize decodeCIDWithPrefixZ, decodeCIDWithPrefixU, decodeCIDWithPrefixB,
    (b3hash_of fuel).
  intros dz du db bh.
  destruct cid as [|c rest]; [reflexivity|].
  change (first_is (String c rest) "z") with (Ascii.eqb c "z").
  change (first_is (String c rest) "u") with (Ascii.eqb c "u").
  change (first_is (String c rest) "b") with (Ascii.eqb c "b").
  destruct (Ascii.eqb_spec c "z") as [->|Hz].
  { change (Ascii.eqb "z" "u") with false. change (Ascii.eqb "z" "b") with false.
    destruct (dz (String "z" rest)) as [b|e]; cbn [bind]; [|reflexivity].
    destruct (bh b) as [[h|]|]; reflexivity. }
  destruct (Ascii.eqb_spec c "u") as [->|Hu].
  { change (Ascii.eqb "u" "b") with false. cbn [bind].
    destruct (du (String "u" rest)) as [b|e]; cbn [bind]; [|reflexivity].
    destruct (bh b) as [[h|]|]; reflexivity. }
  destruct (Ascii.eqb_spec c "b") as [->|Hb]; cbn [bind]; [|reflexivity].
  destruct (bh (db (String "b" rest))) as [[h|]|]; reflexivity.
Qed.

(** C6: for every textual CID, of any of the three prefixes, whose
    bytes carry a size that decodes to 0, [convertS5CidToB3hashHex]
    throws (the error it also uses for an unknown prefix) instead of
    returning a hex string. *)
Theorem zero_size_has_no_digest (fuel : nat) (cid : string) (cidBytes : Buffer) :
  convertS5CidToCIDBytes cid = Return cidBytes ->
  extractRawSizeFromCID cidBytes = Finite 0 ->
  convertS5CidToB3hashHex fuel cid = Some (Throw "Invalid CID input address").
Proof.
  intros Hbytes Hsize. rewrite convertS5CidToB3hashHex_spec, Hbytes.
  unfold b3hash_of. now rewrite Hsize.
Qed.

(** The dispatching decoder reads each text form back. *)
Lemma convertS5CidToCIDBytes_encodeCID p c :
  no_leading_zero c -> convertS5CidToCIDBytes (encodeCID p c) = Return c.
Proof.
  intros Hnz. pose proof (decodeCID_encodeCID p c Hnz) as E.
  unfold convertS5CidToCIDBytes.
  destruct p; cbn [encodeCID decodeCID] in *;
    [rewrite encodeCIDWithPrefixZ_eq in *
    | rewrite encodeCIDWithPrefixU_eq in *
    | rewrite encodeCIDWithPrefixB_eq in *];
    match goal with
    | |- context [first_is (String ?x ?r) _] =>
        change (first_is (String x r) "z") with (Ascii.eqb x "z");
        change (first_is (String x r) "u") with (Ascii.eqb x "u");
        change (first_is (String x r) "b") with (Ascii.eqb x "b")
    end; cbv [Ascii.eqb Bool.eqb]; cbv iota.
  - rewrite E. reflexivity.
  - rewrite E. reflexivity.
  - injection E as E. rewrite E. reflexivity.
Qed.

(** A CID built with size 0, in any text form, is such a CID. *)
Lemma cid_of_size_zero p mHash :
  List.length mHash = 33%nat ->
  convertS5CidToCIDBytes (encodeCID p (generateCIDFromMHash mHash 0))
  = Return (generateCIDFromMHash mHash 0) /\
  extractRawSizeFromCID (generateCIDFromMHash mHash 0) = Finite 0.
Proof.
  intros Hlen.
  assert (Hc : generateCIDFromMHash mHash 0 = byte.of_Z cidTypeRaw :: mHash).
  { unfold generateCIDFromMHash. change (numToBuf 0 16) with (@nil byte).
    now rewrite app_nil_r. }
  rewrite Hc. split.
  - apply convertS5CidToCIDBytes_encodeCID.
    cbn [no_leading_zero]. vm_compute. discriminate.
  - unfold extractRawSizeFromCID. cbn [List.length]. rewrite Hlen.
    change (34 <=? 34)%nat with true. cbv iota.
    rewrite slice_from_all by (cbn [List.length]; lia). reflexivity.
Qed.

Lemma zero_size_has_no_digest_witness :
  convertS5CidToCIDBytes
    (encodeCID PrefixU (generateCIDFromMHash (alloc_fill 33 mhashBlake3Default) 0))
  = Return (generateCIDFromMHash (alloc_fill 33 mhashBlake3Default) 0) /\
  extractRawSizeFromCID (generateCIDFromMHash (alloc_fill 33 mhashBlake3Default) 0)
  = Finite 0 /\
  convertS5CidToB3hashHex 0
    (encodeCID PrefixU (generateCIDFromMHash (alloc_fill 33 mhashBlake3Default) 0))
  = Some (Throw "Invalid CID input address").
Proof.
  destruct (cid_of_size_zero PrefixU (alloc_fill 33 mhashBlake3Default) eq_refl)
    as [H1 H2].
  split; [exact H1|]. split; [exact H2|].
  exact (zero_size_has_no_digest 0 _ _ H1 H2).
Defined.

(** ** The concrete scenario *)

(** C7, as the code has it: 32 zero bytes under the default BLAKE3 tag
    and the raw type tag, with size 5, pack into 35 bytes (1 + 33 + 1);
    the [z] form starts with [z] and decodes to these bytes, and the
    size read from them is 5. *)
Theorem scenario_raw_cid_of_size_5 :
  scenario_cid
  = (byte.of_Z cidTypeRaw :: byte.of_Z mhashBlake3Default
       :: repeat Byte.x00 32 ++ [Byte.x05])%list /\
  List.length scenario_cid = 35%nat /\
  first_is (encodeCIDWithPrefixZ scenario_cid) "z" = true /\
  decodeCIDWithPrefixZ (encodeCIDWithPrefixZ scenario_cid) = Return scenario_cid /\
  convertS5CidToCIDBytes (encodeCIDWithPrefixZ scenario_cid) = Return scenario_cid /\
  extractRawSizeFromCID scenario_cid = Finite 5.
Proof. repeat split; vm_compute; reflexivity. Qed.

(** C7 fails as stated: the packed CID is not 36 bytes long. *)
Lemma scenario_cid_is_not_36_bytes : List.length scenario_cid <> 36%nat.
Proof. vm_compute. discriminate. Qed.

(** ** The size codec *)

(** The buffer [numToBuf] fills holds the bytes it emits, in order. *)
Lemma numToBuf_for_emit rest : forall written value,
  numToBuf_for (List.length rest) (Z.of_nat (List.length written))
    (Z.of_nat (List.length written + List.length rest) - 1) value
    (written ++ rest)%list
  = ((written ++ from_array (numToBuf_emit (List.length rest) value)
        ++ skipn (List.length (numToBuf_emit (List.length rest) value)) rest)%list,
     Z.of_nat (List.length written
               + List.length (numToBuf_emit (List.length rest) value)) - 1).
Proof.
  induction rest as [|r rest IH]; intros written value.
  - cbn [List.length numToBuf_for numToBuf_emit from_array map skipn app].
    rewrite !Nat.add_0_r. reflexivity.
  - cbn [List.length numToBuf_for numToBuf_emit].
    destruct (Z.leb_spec (Z.of_nat (List.length written))
                (Z.of_nat (List.length written + S (List.length rest)) - 1));
      [|lia].
    destruct (Z.eqb_spec value 0) as [E|E].
    + cbn [from_array map List.length skipn app]. rewrite Nat.add_0_r.
      reflexivity.
    + rewrite Nat2Z.id, set_at_end.
      replace (written ++ byte.of_Z (rem value 256) :: rest)%list
        with ((written ++ [byte.of_Z (rem value 256)]) ++ rest)%list
        by (now rewrite <- app_assoc).
      replace (Z.of_nat (List.length written) + 1)
        with (Z.of_nat (List.length (written ++ [byte.of_Z (rem value 256)])))
        by (rewrite length_app; cbn [List.length]; lia).
      replace (Z.of_nat (List.length written + S (List.length rest)) - 1)
        with (Z.of_nat (List.length (written ++ [byte.of_Z (rem value 256)])
                        + List.length rest) - 1)
        by (rewrite length_app; cbn [List.length]; lia).
      rewrite IH. cbn [from_array map List.length skipn app].
      rewrite <- app_assoc, length_app. cbn [app List.length].
      f_equal. lia.
Qed.

Lemma numToBuf_emitted value bufferSize :
  numToBuf value bufferSize = from_array (numToBuf_emit bufferSize value).
Proof.
  unfold numToBuf.
  pose proof (numToBuf_for_emit (alloc bufferSize) [] value) as E.
  unfold alloc in *. rewrite repeat_length in E. cbn [app List.length] in E.
  change (Z.of_nat 0) with 0 in E. rewrite Nat.add_0_l in E. rewrite E.
  set (em := numToBuf_emit bufferSize value).
  replace (Z.of_nat (0 + List.length em) - 1 + 1)
    with (Z.of_nat (List.length (from_array em)))
    by (unfold from_array; rewrite length_map; lia).
  apply slice_prefix.
Qed.

(** Below [2^31] the emitted bytes are the base-256 digits of the
    number, least significant first. *)
Lemma numToBuf_emit_small steps : forall value,
  0 <= value < 2 ^ 31 -> value < 256 ^ Z.of_nat steps ->
  digits_ok 256 (numToBuf_emit steps value) /\
  le_val 256 (numToBuf_emit steps value) = value.
Proof.
  induction steps as [|steps IH]; intros value Hv Hs.
  - change (256 ^ Z.of_nat 0) with 1 in Hs.
    cbn [numToBuf_emit le_val]. split; [constructor | lia].
  - rewrite Nat2Z.inj_succ, Z.pow_succ_r in Hs by lia.
    cbn [numToBuf_emit]. destruct (Z.eqb_spec value 0) as [->|E].
    + split; [constructor | reflexivity].
    + rewrite rem_small, sar_small by lia. change (2 ^ 8) with 256.
      pose proof (Z.mod_pos_bound value 256 ltac:(lia)).
      pose proof (Z.div_mod value 256 ltac:(lia)).
      assert (0 <= value / 256) by (apply Z.div_pos; lia).
      destruct (IH (value / 256)) as [I1 I2];
        [lia | apply Z.div_lt_upper_bound; lia |].
      cbn [le_val]. rewrite I2. split; [constructor; assumption | lia].
Qed.

Lemma bufToNum_big_le_val buffer :
  bufToNum_big buffer = le_val 256 (unsigned_bytes buffer).
Proof.
  unfold bufToNum_big.
  induction buffer as [|b buffer IH]; [reflexivity|].
  cbn [rev unsigned_bytes map le_val]. rewrite fold_left_app. cbn [fold_left].
  rewrite IH, Z.shiftl_mul_pow2 by lia. change (2 ^ 8) with 256.
  fold (unsigned_bytes buffer). ring.
Qed.

Lemma unsigned_from_array ds :
  digits_ok 256 ds -> unsigned_bytes (from_array ds) = ds.
Proof.
  unfold unsigned_bytes, from_array.
  induction 1 as [|d ds Hd _ IH]; [reflexivity|].
  cbn [map]. rewrite IH, byte.unsigned_of_Z. unfold byte.wrap.
  now rewrite Z.mod_small.
Qed.

(** The size codec is exact for every size below [2^31]. *)
Lemma size_round_trip_below_2_31 s :
  0 <= s < 2 ^ 31 -> bufToNum (numToBuf s 16) = Finite s.
Proof.
  intros Hs.
  destruct (numToBuf_emit_small 16 s Hs) as [H1 H2].
  { change (2 ^ 31) with 2147483648 in Hs.
    change (256 ^ Z.of_nat 16) with 340282366920938463463374607431768211456.
    lia. }
  unfold bufToNum.
  rewrite bufToNum_big_le_val, numToBuf_emitted, unsigned_from_array, H2
    by assumption.
  unfold Number. change (2 ^ 53) with 9007199254740992.
  change (2 ^ 31) with 2147483648 in Hs.
  destruct (Z.ltb_spec s 9007199254740992); [reflexivity | lia].
Qed.

(** C2 does not hold of the code: [value >> 8] works on 32 bits, so
    from [2^31] on the bytes written are not those of the size.  At
    [2^31] sixteen bytes are written and read back as [2^128]; at
    [2^32] a single zero byte is written and read back as 0. *)
Theorem size_codec_wraps_at_32_bits :
  numToBuf (2 ^ 31) 16
  = from_array [0; 0; 0; 128; 255; 255; 255; 255;
                255; 255; 255; 255; 255; 255; 255; 255] /\
  bufToNum (numToBuf (2 ^ 31) 16) = Finite (2 ^ 128) /\
  bufToNum (numToBuf (2 ^ 31) 16) <> Finite (2 ^ 31) /\
  numToBuf (2 ^ 32) 16 = from_array [0] /\
  bufToNum (numToBuf (2 ^ 32) 16) = Finite 0 /\
  bufToNum (numToBuf (2 ^ 32) 16) <> Finite (2 ^ 32).
Proof.
  repeat split; vm_compute; first [reflexivity | discriminate].
Qed.

(** ** The subdomain of a URL *)

Lemma span_label_spec s :
  s = (fst (span_label s) ++ snd (span_label s))%string /\
  exists_string (fun c => Ascii.eqb c "." || Ascii.eqb c "/") (fst (span_label s))
  = false.
Proof.
  induction s as [|c s [IH1 IH2]]; [split; reflexivity|].
  cbn [span_label].
  destruct (Ascii.eqb c "." || Ascii.eqb c "/") eqn:E; [split; reflexivity|].
  destruct (span_label s) as [l r]. cbn [fst snd append exists_string] in *.
  rewrite E, IH2. split; [now rewrite <- IH1 | reflexivity].
Qed.

Lemma match_label_spec s label :
  match_label s = Some label ->
  is_label label /\ exists rest, s = (label ++ String "." rest)%string.
Proof.
  unfold match_label. intros H.
  destruct (span_label_spec s) as [S1 S2].
  destruct (span_label s) as [[|c l] [|d r]]; try discriminate.
  cbn [fst snd] in *.
  destruct (Ascii.eqb_spec d ".") as [->|Hd].
  - injection H as <-. split; [split; [discriminate | exact S2]|].
    now exists r.
  - exfalso. destruct d as [[] [] [] [] [] [] [] []]; try discriminate.
    now apply Hd.
Qed.

Lemma strip_ci_spec p : forall s rest,
  strip_ci p s = Some rest ->
  exists pre, s = (pre ++ rest)%string /\ toUpperCase pre = toUpperCase p.
Proof.
  induction p as [|a p IH]; intros s rest H.
  - injection H as <-. now exists EmptyString.
  - destruct s as [|b s]; [discriminate|]. cbn [strip_ci] in H.
    destruct (Ascii.eqb_spec (upper_char a) (upper_char b)) as [E|E];
      [|discriminate].
    destruct (IH s rest H) as (pre & -> & Hp).
    exists (String b pre). split; [reflexivity|].
    unfold toUpperCase in *. cbn [map_string]. now rewrite Hp, E.
Qed.

Lemma match_scheme_spec url rest :
  match_scheme url = Some rest ->
  exists scheme, url = (scheme ++ rest)%string /\
    (toUpperCase scheme = "HTTPS://" \/ toUpperCase scheme = "HTTP://").
Proof.
  unfold match_scheme. intros H.
  destruct (strip_ci "https://" url) as [r|] eqn:E.
  - injection H as <-. destruct (strip_ci_spec _ _ _ E) as (pre & -> & Hp).
    exists pre. split; [reflexivity | now left].
  - destruct (strip_ci_spec _ _ _ H) as (pre & -> & Hp).
    exists pre. split; [reflexivity | now right].
Qed.

(** What [getSubdomainFromUrl] returns is the first label of the URL:
    the characters up to the first dot, after the scheme if there is
    one, none of them a dot or a slash. *)
Lemma getSubdomainFromUrl_sound url label :
  getSubdomainFromUrl url = Some label -> first_label url label.
Proof.
  unfold getSubdomainFromUrl, first_label. intros H.
  assert (Hplain : match_label url = Some label ->
                   is_label label /\
                   exists scheme rest,
                     url = (scheme ++ label ++ String "." rest)%string /\
                     (scheme = EmptyString \/ toUpperCase scheme = "HTTPS://"
                      \/ toUpperCase scheme = "HTTP://")).
  { intros M. destruct (match_label_spec _ _ M) as [L [rest ->]].
    split; [exact L|]. exists EmptyString, rest. split; [reflexivity | now left]. }
  destruct (match_scheme url) as [after|] eqn:S; [|now apply Hplain].
  destruct (match_label after) as [l|] eqn:M; [|now apply Hplain].
  injection H as <-.
  destruct (match_scheme_spec _ _ S) as (scheme & -> & Hs).
  destruct (match_label_spec _ _ M) as [L [rest ->]].
  split; [exact L|]. exists scheme, rest. split; [reflexivity | now right].
Qed.

(** Conversely, a URL with a first label has it found. *)
Lemma span_label_app l r :
  exists_string (fun c => Ascii.eqb c "." || Ascii.eqb c "/") l = false ->
  span_label (l ++ String "." r) = (l, String "." r).
Proof.
  induction l as [|c l IH]; intros H; [reflexivity|].
  cbn [exists_string] in H. apply orb_false_iff in H. destruct H as [H1 H2].
  cbn [append span_label]. rewrite H1, IH by assumption. reflexivity.
Qed.

Lemma match_label_complete label rest :
  is_label label -> match_label (label ++ String "." rest) = Some label.
Proof.
  intros [Hne Hl]. unfold match_label. rewrite span_label_app by assumption.
  destruct label; [contradiction | reflexivity].
Qed.

Lemma strip_ci_complete p : forall pre rest,
  toUpperCase pre = toUpperCase p -> strip_ci p (pre ++ rest) = Some rest.
Proof.
  unfold toUpperCase.
  induction p as [|a p IH]; intros [|b pre] rest H; try discriminate.
  - reflexivity.
  - cbn [map_string] in H. injection H as H1 H2.
    cbn [append strip_ci]. rewrite H1, Ascii.eqb_refl. now apply IH.
Qed.

(** A character that is a slash once in upper case is a slash, and one
    that is a letter or a colon then is neither a dot nor a slash. *)
Lemma upper_char_slash c : upper_char c = "/"%char -> c = "/"%char.
Proof.
  destruct c as [[] [] [] [] [] [] [] []]; vm_compute; congruence.
Qed.

Lemma upper_char_plain c d :
  upper_char c = d -> Ascii.eqb d "." || Ascii.eqb d "/" = false ->
  Ascii.eqb c "." || Ascii.eqb c "/" = false.
Proof.
  intros <-. destruct c as [[] [] [] [] [] [] [] []]; vm_compute; congruence.
Qed.

Lemma scheme_then_slash scheme after :
  toUpperCase scheme = "HTTPS://" \/ toUpperCase scheme = "HTTP://" ->
  exists l r, span_label (scheme ++ after) = (l, String "/" r).
Proof.
  unfold toUpperCase.
  intros [H|H];
    repeat (destruct scheme as [|? scheme]; try discriminate);
    cbn [map_string] in H; injection H; intros;
    cbn [append span_label];
    repeat match goal with
           | E : upper_char ?c = "/"%char |- _ =>
               apply upper_char_slash in E; subst c
           | E : upper_char ?c = _ |- context [Ascii.eqb ?c "." || Ascii.eqb ?c "/"] =>
               rewrite (upper_char_plain c _ E eq_refl)
           end;
    cbn [Ascii.eqb Bool.eqb orb andb]; cbn [fst snd]; eauto.
Qed.

Lemma getSubdomainFromUrl_complete url label :
  first_label url label -> getSubdomainFromUrl url = Some label.
Proof.
  intros (L & scheme & rest & -> & [->|Hs]); unfold getSubdomainFromUrl.
  - cbn [append].
    destruct (match_scheme (label ++ String "." rest)) as [after|] eqn:S;
      [|now apply match_label_complete].
    exfalso. destruct (match_scheme_spec _ _ S) as (pre & E & Hp).
    destruct (scheme_then_slash pre after Hp) as (l & r & Sp).
    rewrite <- E in Sp. destruct L as [_ Hl].
    rewrite span_label_app in Sp by assumption. discriminate.
  - assert (S : match_scheme (scheme ++ label ++ String "." rest)
                = Some (label ++ String "." rest)%string).
    { unfold match_scheme. destruct Hs as [Hs|Hs].
      - now rewrite (strip_ci_complete "https://") by exact Hs.
      - assert (N : strip_ci "https://" (scheme ++ label ++ String "." rest) = None).
        { unfold toUpperCase in Hs.
          repeat (destruct scheme as [|? scheme]; try discriminate).
          cbn [map_string] in Hs. injection Hs; intros.
          cbn [append strip_ci].
          repeat match goal with
                 | E : upper_char ?c = _ |- context [upper_char ?c] => rewrite E
                 end.
          reflexivity. }
        rewrite N. now apply (strip_ci_complete "http://"). }
    rewrite S. now rewrite match_label_complete.
Qed.

Lemma no_first_label url :
  getSubdomainFromUrl url = None <-> (forall label, ~ first_label url label).
Proof.
  split.
  - intros N label F. apply getSubdomainFromUrl_complete in F. congruence.
  - intros H. destruct (getSubdomainFromUrl url) as [label|] eqn:G;
      [|reflexivity].
    exfalso. apply (H label). now apply getSubdomainFromUrl_sound.
Qed.




(** * Further properties of the code *)

(** ** [numToBuf]: minimal, little-endian, truncating *)




(** ** [bufToNum] and the size field *)

Lemma Number_exact v : 0 <= v < 2 ^ 53 -> Number v = Finite v.
Proof.
  intros Hv. unfold Number. destruct (Z.ltb_spec v (2 ^ 53)); [reflexivity | lia].
Qed.

Lemma Number_zero v : 0 <= v -> (Number v = Finite 0 <-> v = 0).
Proof.
  intros Hv. unfold Number. destruct (Z.ltb_spec v (2 ^ 53)) as [Hlt|Hge].
  - split; [now intros [= ->] | now intros ->].
  - assert (H53 : 0 < 2 ^ 53) by reflexivity.
    assert (Hlog : 53 <= Z.log2 v) by (apply Z.log2_le_pow2; lia).
    set (e := Z.log2 v - 52).
    assert (He : 0 < 2 ^ e) by (apply Z.pow_pos_nonneg; lia).
    assert (Hq : 0 < Z.shiftr v e).
    { rewrite Z.shiftr_div_pow2 by lia.
      enough (2 ^ 52 <= v / 2 ^ e) by (change (2 ^ 52) with 4503599627370496 in *; lia).
      apply Z.div_le_lower_bound; [lia|].
      rewrite <- Z.pow_add_r by lia.
      replace (e + 52) with (Z.log2 v) by (unfold e; lia).
      apply Z.log2_spec. lia. }
    set (q := Z.shiftr v e) in *.
    set (q' := if Z.land v (Z.ones e) <? 2 ^ (e - 1) then q
               else if 2 ^ (e - 1) <? Z.land v (Z.ones e) then q + 1
                    else if Z.even q then q else q + 1).
    assert (Hq' : 0 < q').
    { unfold q'. destruct (_ <? _); [lia|]. destruct (_ <? _); [lia|].
      destruct (Z.even q); lia. }
    assert (Hres : 0 < Z.shiftl q' e) by (rewrite Z.shiftl_mul_pow2 by lia; nia).
    split.
    + destruct (Z.shiftl q' e <? 2 ^ 1024); [|discriminate].
      intros [= E]. lia.
    + intros ->. change (2 ^ 53) with 9007199254740992 in Hge. lia.
Qed.

Lemma le_val_zero ds :
  digits_ok 256 ds -> (le_val 256 ds = 0 <-> Forall (fun d => d = 0) ds).
Proof.
  induction 1 as [|d ds Hd Hds IH]; cbn [le_val].
  - split; [constructor | reflexivity].
  - pose proof (le_val_bound 256 ltac:(lia) ds Hds) as Hb. split.
    + intros E. assert (d = 0 /\ le_val 256 ds = 0) as [-> E'] by lia.
      constructor; [reflexivity | now apply IH].
    + intros F. inversion F; subst. apply IH in H2. lia.
Qed.

Lemma bufToNum_big_nonneg buffer : 0 <= bufToNum_big buffer.
Proof.
  rewrite bufToNum_big_le_val.
  apply (le_val_bound 256 ltac:(lia)), unsigned_bytes_ok.
Qed.

Lemma bufToNum_zero buffer : bufToNum buffer = Finite 0 <-> all_zero buffer.
Proof.
  unfold bufToNum. rewrite Number_zero by apply bufToNum_big_nonneg.
  rewrite bufToNum_big_le_val, le_val_zero by apply unsigned_bytes_ok.
  unfold all_zero, unsigned_bytes. rewrite Forall_map. reflexivity.
Qed.

Lemma slice_from_skipn (buffer : Buffer) k :
  0 <= k -> slice_from buffer k = skipn (Z.to_nat k) buffer.
Proof.
  intros Hk. unfold slice_from, clamp. destruct (Z.ltb_spec k 0); [lia|].
  destruct (Nat.le_gt_cases (Z.to_nat k) (List.length buffer)).
  - now rewrite Nat.min_l.
  - rewrite Nat.min_r by lia. now rewrite !skipn_all2 by lia.
Qed.

(** X2: the size [extractRawSizeFromCID] reads is 0 exactly when every
    byte after the 34-byte head is zero, in particular when there is
    none; sizes are not required to be minimally encoded. *)
Theorem size_is_zero_iff_size_bytes_are_zero (cid : Buffer) :
  extractRawSizeFromCID cid = Finite 0 <-> all_zero (skipn 34 cid).
Proof.
  unfold extractRawSizeFromCID. rewrite bufToNum_zero.
  destruct (Nat.leb_spec 34 (List.length cid)).
  - now rewrite slice_from_skipn by lia.
  - rewrite slice_from_skipn by lia.
    rewrite (skipn_all2 cid (n := 34)) by lia.
    destruct (Nat.le_gt_cases (Z.to_nat 33) (List.length cid)) as [H33|H33].
    + assert (E : List.length cid = 33%nat) by lia.
      change (Z.to_nat 33) with 33%nat. rewrite <- E, skipn_all. reflexivity.
    + rewrite skipn_all2 by lia. reflexivity.
Qed.

(** X3: [bufToNum] returns the little-endian value of the bytes
    exactly for every buffer of at most 6 bytes (the value is then
    below [2^53]). *)
Theorem bufToNum_exact_up_to_6_bytes (buffer : Buffer) :
  (List.length buffer <= 6)%nat ->
  bufToNum buffer = Finite (le_val 256 (unsigned_bytes buffer)).
Proof.
  intros Hlen. unfold bufToNum. rewrite bufToNum_big_le_val.
  apply Number_exact.
  pose proof (le_val_bound 256 ltac:(lia) _ (unsigned_bytes_ok buffer)) as Hb.
  assert (El : List.length (unsigned_bytes buffer) = List.length buffer)
    by (unfold unsigned_bytes; apply length_map).
  rewrite El in Hb.
  assert (256 ^ Z.of_nat (List.length buffer) <= 256 ^ 6)
    by (apply Z.pow_le_mono_r; lia).
  change (256 ^ 6) with 281474976710656 in *.
  change (2 ^ 53) with 9007199254740992. lia.
Qed.

Lemma bufToNum_exact_up_to_6_bytes_witness :
  (List.length (from_array [1; 2; 3; 4; 5; 6]%Z) <= 6)%nat /\
  bufToNum (from_array [1; 2; 3; 4; 5; 6])
  = Finite (le_val 256 (unsigned_bytes (from_array [1; 2; 3; 4; 5; 6]))).
Proof.
  assert (H : (List.length (from_array [1; 2; 3; 4; 5; 6]%Z) <= 6)%nat)
    by (vm_compute; lia).
  split; [exact H | exact (bufToNum_exact_up_to_6_bytes _ H)].
Defined.

(** ** Packing and unpacking a raw CID *)

Lemma hashSize_while_from_start fuel length :
  34 <= length -> length < Z.of_nat fuel ->
  hashSize_while fuel length 0 (length - 1) = Some 33.
Proof.
  intros H Hf. destruct fuel as [|fuel]; [lia|]. cbn [hashSize_while].
  destruct (Z.eqb_spec (length - 1) 33) as [E|E]; cbn [negb].
  - now rewrite E.
  - change (0 + 1) with 1. apply hashSize_while_long; lia.
Qed.

Lemma slice_head_33 (t : byte) (mHash rest : Buffer) :
  List.length mHash = 33%nat -> slice (t :: mHash ++ rest) 1 34 = mHash.
Proof.
  intros H. unfold slice, clamp.
  change (34 <? 0) with false. change (1 <? 0) with false. cbv iota.
  cbn [List.length]. rewrite length_app, H.
  change (Z.to_nat 1) with 1%nat. change (Z.to_nat 34) with 34%nat.
  rewrite !Nat.min_l by lia. cbn [skipn].
  change (34 - 1)%nat with 33%nat. rewrite <- H, firstn_app, firstn_all, Nat.sub_diag.
  cbn [firstn]. apply app_nil_r.
Qed.

Lemma raw_cid_parts b3hash fileSize :
  raw_cid b3hash fileSize
  = (byte.of_Z cidTypeRaw
       :: (byte.of_Z mhashBlake3Default :: b3hash) ++ numToBuf fileSize 16)%list.
Proof. reflexivity. Qed.

Lemma numToBuf_length value bufferSize :
  (List.length (numToBuf value bufferSize) <= bufferSize)%nat.
Proof.
  rewrite numToBuf_emitted. unfold from_array. rewrite length_map.
  revert value. induction bufferSize as [|n IH]; intros value;
    cbn [numToBuf_emit List.length]; [lia|].
  destruct (value =? 0); cbn [List.length]; [lia|].
  specialize (IH (sar value 8)). lia.
Qed.

Lemma raw_cid_length b3hash fileSize :
  List.length b3hash = 32%nat ->
  (34 <= List.length (raw_cid b3hash fileSize) <= 50)%nat.
Proof.
  intros H. rewrite raw_cid_parts. cbn [List.length]. rewrite length_app.
  cbn [List.length]. rewrite H.
  pose proof (numToBuf_length fileSize 16). lia.
Qed.

Lemma raw_cid_no_leading_zero b3hash fileSize :
  no_leading_zero (raw_cid b3hash fileSize).
Proof. rewrite raw_cid_parts. cbn [no_leading_zero]. vm_compute. discriminate. Qed.

(** What the unpack operations find in a raw CID. *)
Lemma raw_cid_unpack fuel b3hash fileSize :
  List.length b3hash = 32%nat -> 0 <= fileSize < 2 ^ 31 -> (50 < fuel)%nat ->
  extractMHashFromCID fuel (raw_cid b3hash fileSize)
  = Some (generateMHashFromB3hash b3hash) /\
  extractB3hashFromCID fuel (raw_cid b3hash fileSize) = Some b3hash /\
  extractRawSizeFromCID (raw_cid b3hash fileSize) = Finite fileSize.
Proof.
  intros Hlen Hsize Hfuel.
  pose proof (raw_cid_length b3hash fileSize Hlen) as Hl.
  assert (Hw : hashSize_while fuel (Z.of_nat (List.length (raw_cid b3hash fileSize)))
                 0 (Z.of_nat (List.length (raw_cid b3hash fileSize)) - 1) = Some 33)
    by (apply hashSize_while_from_start; lia).
  assert (Hs : slice (raw_cid b3hash fileSize) 1 (1 + 33)
               = generateMHashFromB3hash b3hash).
  { rewrite raw_cid_parts. change (1 + 33) with 34.
    change (generateMHashFromB3hash b3hash)
      with (byte.of_Z mhashBlake3Default :: b3hash).
    apply slice_head_33. cbn [List.length]. now rewrite Hlen. }
  unfold extractMHashFromCID, extractB3hashFromCID. rewrite Hw, Hs.
  repeat split.
  unfold extractRawSizeFromCID.
  destruct (Nat.leb_spec 34 (List.length (raw_cid b3hash fileSize))); [|lia].
  rewrite slice_from_skipn by lia. rewrite raw_cid_parts.
  replace (Z.to_nat 34) with (S (List.length (byte.of_Z mhashBlake3Default :: b3hash)))
    by (cbn [List.length]; now rewrite Hlen).
  cbn [skipn]. rewrite skipn_app, skipn_all, Nat.sub_diag. cbn [skipn app].
  now apply size_round_trip_below_2_31.
Qed.

Lemma numToBuf_emit_at_most steps : forall value k,
  0 <= value < 2 ^ 31 -> value < 256 ^ Z.of_nat k ->
  (List.length (numToBuf_emit steps value) <= k)%nat.
Proof.
  induction steps as [|steps IH]; intros value k Hv Hk;
    cbn [numToBuf_emit List.length]; [lia|].
  destruct (Z.eqb_spec value 0) as [->|E]; cbn [List.length]; [lia|].
  destruct k as [|k]; [change (256 ^ Z.of_nat 0) with 1 in Hk; lia|].
  rewrite Nat2Z.inj_succ, Z.pow_succ_r in Hk by lia.
  rewrite sar_small by lia. change (2 ^ 8) with 256.
  assert (0 <= value / 256 <= value).
  { split; [apply Z.div_pos; lia|]. apply Z.div_le_upper_bound; lia. }
  specialize (IH (value / 256) k ltac:(lia)
                 ltac:(apply Z.div_lt_upper_bound; lia)).
  lia.
Qed.

(** X4: packing a 32-byte digest with a size below [2^31] and
    unpacking give back every part: the multihash (the default BLAKE3
    tag and the digest), the digest and the size; the search for the
    multihash ends within the length of the CID, which is between 34
    and 38 bytes. *)
Theorem pack_then_unpack (fuel : nat) (b3hash : Buffer) (fileSize : Z) :
  List.length b3hash = 32%nat -> 0 <= fileSize < 2 ^ 31 -> (50 < fuel)%nat ->
  extractMHashFromCID fuel (raw_cid b3hash fileSize)
  = Some (byte.of_Z mhashBlake3Default :: b3hash) /\
  extractB3hashFromCID fuel (raw_cid b3hash fileSize) = Some b3hash /\
  extractRawSizeFromCID (raw_cid b3hash fileSize) = Finite fileSize /\
  (34 <= List.length (raw_cid b3hash fileSize) <= 38)%nat.
Proof.
  intros Hlen Hsize Hfuel.
  destruct (raw_cid_unpack fuel b3hash fileSize Hlen Hsize Hfuel) as (U1 & U2 & U3).
  repeat split; try assumption.
  - pose proof (raw_cid_length b3hash fileSize Hlen). lia.
  - rewrite raw_cid_parts. cbn [List.length]. rewrite length_app.
    cbn [List.length]. rewrite Hlen.
    enough (List.length (numToBuf fileSize 16) <= 4)%nat by lia.
    rewrite numToBuf_emitted. unfold from_array. rewrite length_map.
    apply numToBuf_emit_at_most; [assumption|].
    change (256 ^ Z.of_nat 4) with 4294967296.
    change (2 ^ 31) with 2147483648 in Hsize. lia.
Qed.

Lemma pack_then_unpack_witness :
  List.length (repeat Byte.x2a 32) = 32%nat /\ 0 <= 1000000 < 2 ^ 31 /\
  (50 < 51)%nat /\
  extractB3hashFromCID 51 (raw_cid (repeat Byte.x2a 32) 1000000)
  = Some (repeat Byte.x2a 32) /\
  extractRawSizeFromCID (raw_cid (repeat Byte.x2a 32) 1000000) = Finite 1000000.
Proof.
  assert (H1 : List.length (repeat Byte.x2a 32) = 32%nat) by reflexivity.
  assert (H2 : 0 <= 1000000 < 2 ^ 31) by (change (2 ^ 31) with 2147483648; lia).
  assert (H3 : (50 < 51)%nat) by lia.
  destruct (pack_then_unpack 51 _ _ H1 H2 H3) as (_ & U2 & U3 & _).
  repeat split; try assumption; lia.
Defined.

(** X5: the search for the multihash in [extractMHashFromCID] ends
    exactly on buffers of at least 34 bytes, and then returns the 33
    bytes after the type byte; on a shorter buffer no number of rounds
    ends it. *)
Theorem multihash_search_ends_iff (cid : Buffer) :
  ((exists fuel mhash, extractMHashFromCID fuel cid = Some mhash)
   <-> (34 <= List.length cid)%nat) /\
  (forall fuel mhash,
     extractMHashFromCID fuel cid = Some mhash -> mhash = slice cid 1 34) /\
  ((34 <= List.length cid)%nat ->
   extractMHashFromCID (S (List.length cid)) cid = Some (slice cid 1 34)).
Proof.
  assert (Hlong : (34 <= List.length cid)%nat ->
                  extractMHashFromCID (S (List.length cid)) cid
                  = Some (slice cid 1 34))
    by (intros H; apply extractMHashFromCID_long; lia).
  split; [split|split].
  - intros (fuel & mhash & E).
    destruct (Nat.le_gt_cases 34 (List.length cid)) as [H|H]; [exact H|].
    destruct (extractMHashFromCID_short fuel cid H) as [N _]. congruence.
  - intros H. eauto.
  - intros fuel mhash E.
    destruct (Nat.le_gt_cases 34 (List.length cid)) as [H|H].
    + unfold extractMHashFromCID in E.
      destruct (hashSize_while fuel _ 0 _) as [hashSize|] eqn:W; [|discriminate].
      assert (hashSize = 33).
      { clear -W. revert W. generalize 0 at 1.
        generalize (Z.of_nat (List.length cid) - 1).
        generalize (Z.of_nat (List.length cid)).
        induction fuel as [|fuel IH]; intros len h i W; [discriminate|].
        cbn [hashSize_while] in W.
        destruct (Z.eqb_spec h 33); cbn [negb] in W; [congruence|].
        eapply IH; eassumption. }
      subst. now injection E as <-.
    + destruct (extractMHashFromCID_short fuel cid H) as [N _]. congruence.
  - exact Hlong.
Qed.

Lemma multihash_search_ends_iff_witness :
  (34 <= List.length scenario_cid)%nat /\
  extractMHashFromCID (S (List.length scenario_cid)) scenario_cid
  = Some (slice scenario_cid 1 34).
Proof.
  assert (H : (34 <= List.length scenario_cid)%nat) by (vm_compute; lia).
  split; [exact H | exact (proj2 (proj2 (multihash_search_ends_iff scenario_cid)) H)].
Defined.

(** ** The entry points that take a textual CID *)

Lemma encodeCID_char p c :
  exists body, encodeCID p c = String (prefix_char p) body.
Proof.
  destruct p; cbn [encodeCID prefix_char];
    [rewrite encodeCIDWithPrefixZ_eq | rewrite encodeCIDWithPrefixU_eq
     | rewrite encodeCIDWithPrefixB_eq]; eauto.
Qed.

(** On a text form of [c] every dispatch on the first character runs
    the decoder of that form, which returns [c]. *)
Lemma dispatch_encodeCID (A : Type) p c (kz ku kb : A) (other : A) :
  (if first_is (encodeCID p c) "z" then kz
   else if first_is (encodeCID p c) "u" then ku
   else if first_is (encodeCID p c) "b" then kb else other)
  = match p with PrefixZ => kz | PrefixU => ku | PrefixB => kb end.
Proof.
  destruct (encodeCID_char p c) as [body ->]. now destruct p.
Qed.

Lemma decoders_encodeCID p c :
  no_leading_zero c ->
  match p with
  | PrefixZ => decodeCIDWithPrefixZ (encodeCID p c)
  | PrefixU => decodeCIDWithPrefixU (encodeCID p c)
  | PrefixB => Return (decodeCIDWithPrefixB (encodeCID p c))
  end = Return c.
Proof.
  intros H. pose proof (decodeCID_encodeCID p c H) as E. now destruct p.
Qed.

Lemma convertS5CidToMHash_encodeCID fuel p c :
  no_leading_zero c ->
  convertS5CidToMHash fuel (encodeCID p c)
  = match extractMHashFromCID fuel c with
    | Some mhash => Some (Return mhash)
    | None => None
    end.
Proof.
  intros H. unfold convertS5CidToMHash. rewrite dispatch_encodeCID.
  pose proof (decoders_encodeCID p c H) as E.
  destruct p; cbn [encodeCID] in *;
    [rewrite E | rewrite E | injection E as ->]; reflexivity.
Qed.

(** X6: every entry point that takes a textual CID throws
    ['Invalid CID input address'] when the first character is none of
    [z], [u], [b], the empty string included. *)
Theorem unknown_prefix_is_rejected (fuel : nat) (cid : string) :
  first_is cid "z" = false -> first_is cid "u" = false ->
  first_is cid "b" = false ->
  convertS5CidToCIDBytes cid = Throw "Invalid CID input address" /\
  convertS5CidToMHash fuel cid = Some (Throw "Invalid CID input address") /\
  checkRawSizeIsNotNull cid = Throw "Invalid CID input address" /\
  convertS5CidToMHashB64url fuel cid = Some (Throw "Invalid CID input address") /\
  convertS5CidToB3hashHex fuel cid = Some (Throw "Invalid CID input address") /\
  getAllInfosFromCid fuel cid = Some (Throw "Invalid CID input address").
Proof.
  intros Hz Hu Hb.
  assert (E : convertS5CidToCIDBytes cid = Throw "Invalid CID input address").
  { unfold convertS5CidToCIDBytes. now rewrite Hz, Hu, Hb. }
  repeat split.
  - exact E.
  - unfold convertS5CidToMHash. now rewrite Hz, Hu, Hb.
  - unfold checkRawSizeIsNotNull. now rewrite E.
  - unfold convertS5CidToMHashB64url. now rewrite E.
  - rewrite convertS5CidToB3hashHex_spec. now rewrite E.
  - unfold getAllInfosFromCid. now rewrite Hz, Hu, Hb.
Qed.

Lemma unknown_prefix_is_rejected_witness :
  first_is "Qm12" "z" = false /\ first_is "Qm12" "u" = false /\
  first_is "Qm12" "b" = false /\
  getAllInfosFromCid 0 "Qm12" = Some (Throw "Invalid CID input address").
Proof.
  assert (Hz : first_is "Qm12" "z" = false) by reflexivity.
  assert (Hu : first_is "Qm12" "u" = false) by reflexivity.
  assert (Hb : first_is "Qm12" "b" = false) by reflexivity.
  split; [exact Hz|]. split; [exact Hu|]. split; [exact Hb|].
  exact (proj2 (proj2 (proj2 (proj2 (proj2
           (unknown_prefix_is_rejected 0 "Qm12" Hz Hu Hb)))))).
Defined.

Lemma length_toString_hex buffer :
  String.length (toString_hex buffer) = (2 * List.length buffer)%nat.
Proof.
  induction buffer as [|b buffer IH]; cbn [toString_hex String.length List.length];
    [reflexivity|]. rewrite IH. lia.
Qed.

Lemma neq0_Finite z : neq0 (Finite z) = negb (z =? 0).
Proof. reflexivity. Qed.

Lemma digest_hex_of_raw_cid fuel p b3hash fileSize :
  List.length b3hash = 32%nat -> 0 < fileSize < 2 ^ 31 -> (50 < fuel)%nat ->
  convertS5CidToB3hashHex fuel (encodeCID p (raw_cid b3hash fileSize))
  = Some (Return (toString_hex b3hash)).
Proof.
  intros Hlen Hsize Hfuel.
  destruct (raw_cid_unpack fuel b3hash fileSize Hlen ltac:(lia) Hfuel)
    as (U1 & U2 & U3).
  rewrite convertS5CidToB3hashHex_spec.
  rewrite convertS5CidToCIDBytes_encodeCID by apply raw_cid_no_leading_zero.
  unfold b3hash_of. rewrite U3, neq0_Finite, U2.
  destruct (Z.eqb_spec fileSize 0); [lia | reflexivity].
Qed.

(** X7: for the raw CID of a 32-byte digest with a size from 1 up to
    [2^31 - 1], in any of the three text forms,
    [convertS5CidToB3hashHex] returns the digest in hexadecimal, 64
    characters long. *)
Theorem digest_hex_of_sized_cid (fuel : nat) (p : prefix) (b3hash : Buffer)
  (fileSize : Z) :
  List.length b3hash = 32%nat -> 0 < fileSize < 2 ^ 31 -> (50 < fuel)%nat ->
  convertS5CidToB3hashHex fuel (encodeCID p (raw_cid b3hash fileSize))
  = Some (Return (toString_hex b3hash)) /\
  String.length (toString_hex b3hash) = 64%nat.
Proof.
  intros Hlen Hsize Hfuel. split.
  - now apply digest_hex_of_raw_cid.
  - rewrite length_toString_hex, Hlen. reflexivity.
Qed.

Lemma digest_hex_of_sized_cid_witness :
  List.length (repeat Byte.x2a 32) = 32%nat /\ 0 < 1000000 < 2 ^ 31 /\
  (50 < 51)%nat /\
  convertS5CidToB3hashHex 51 (encodeCID PrefixB (raw_cid (repeat Byte.x2a 32) 1000000))
  = Some (Return (toString_hex (repeat Byte.x2a 32))).
Proof.
  assert (H1 : List.length (repeat Byte.x2a 32) = 32%nat) by reflexivity.
  assert (H2 : 0 < 1000000 < 2 ^ 31) by (change (2 ^ 31) with 2147483648; lia).
  assert (H3 : (50 < 51)%nat) by lia.
  split; [exact H1|]. split; [exact H2|]. split; [exact H3|].
  exact (proj1 (digest_hex_of_sized_cid 51 PrefixB _ _ H1 H2 H3)).
Defined.

(** ** [convertMHashToB64url] *)

Lemma url_char_not_padding v :
  0 <= v < 64 -> Ascii.eqb (digit_char base64url_alphabet v) "=" = false.
Proof.
  intros Hv. apply negb_true_iff.
  apply (below_forall
           (fun v => negb (Ascii.eqb (digit_char base64url_alphabet v) "=")) 64);
    [reflexivity | assumption].
Qed.

Lemma convert64_cons v rest :
  0 <= v < 64 ->
  remove_first "=" (replace_all "/" "_" (replace_all "+" "-"
    (String (base64_char v) rest)))
  = String (digit_char base64url_alphabet v)
      (remove_first "=" (replace_all "/" "_" (replace_all "+" "-" rest))).
Proof.
  intros Hv. destruct (base64_char_url v Hv) as [_ Hc].
  unfold replace_all. cbn [map_string remove_first].
  rewrite Hc, url_char_not_padding by assumption. reflexivity.
Qed.

Lemma convertMHashToB64url_spec (mHash : Buffer) :
  convertMHashToB64url mHash
  = encodeBase64URL mHash
    ++ (if (List.length mHash mod 3 =? 1)%nat then "=" else "").
Proof.
  rewrite encodeBase64URL_spec. unfold convertMHashToB64url.
  induction mHash as [|a|a b|a b c rest IH] using list_ind3;
    [reflexivity | pose proof (bytes_sextets_ok [a]) as Hok
     | pose proof (bytes_sextets_ok [a; b]) as Hok
     | pose proof (bytes_sextets_ok (a :: b :: c :: rest)) as Hok];
    cbn [bytes_sextets toString_base64 numeral] in *;
    unfold digits_ok in Hok;
    repeat match goal with
           | K : Forall _ (_ :: _) |- _ =>
               apply Forall_cons_iff in K; destruct K as [? K]
           end;
    rewrite !convert64_cons by assumption; try reflexivity.
  rewrite IH. cbn [append].
  replace (List.length (a :: b :: c :: rest) mod 3)%nat
    with (List.length rest mod 3)%nat; [reflexivity|].
  cbn [List.length].
  replace (S (S (S (List.length rest)))) with (List.length rest + 1 * 3)%nat by lia.
  now rewrite Nat.Div0.mod_add.
Qed.

(** X8: [convertMHashToB64url] removes one [=] only: its result is the
    unpadded base64url text of [encodeBase64URL], followed by one [=]
    when the number of bytes is 1 modulo 3; in particular the two
    functions agree on a 33-byte multihash. *)
Theorem convertMHashToB64url_padding (mHash : Buffer) :
  convertMHashToB64url mHash
  = encodeBase64URL mHash
    ++ (if (List.length mHash mod 3 =? 1)%nat then "=" else "") /\
  (List.length mHash = 33%nat ->
   convertMHashToB64url mHash = encodeBase64URL mHash).
Proof.
  split; [apply convertMHashToB64url_spec|].
  intros H. rewrite convertMHashToB64url_spec, H. apply append_nil_r.
Qed.

Lemma convertMHashToB64url_padding_witness :
  List.length (repeat Byte.x2a 33) = 33%nat /\
  convertMHashToB64url (repeat Byte.x2a 33) = encodeBase64URL (repeat Byte.x2a 33).
Proof.
  assert (H : List.length (repeat Byte.x2a 33) = 33%nat) by reflexivity.
  split; [exact H|].
  exact (proj2 (convertMHashToB64url_padding (repeat Byte.x2a 33)) H).
Defined.

Lemma mhash_b64url_of_raw_cid fuel p b3hash fileSize :
  List.length b3hash = 32%nat -> 0 <= fileSize < 2 ^ 31 -> (50 < fuel)%nat ->
  convertS5CidToMHashB64url fuel (encodeCID p (raw_cid b3hash fileSize))
  = Some (Return (if fileSize =? 0 then ""
                  else encodeBase64URL (generateMHashFromB3hash b3hash))).
Proof.
  intros Hlen Hsize Hfuel.
  destruct (raw_cid_unpack fuel b3hash fileSize Hlen Hsize Hfuel)
    as (U1 & U2 & U3).
  unfold convertS5CidToMHashB64url.
  rewrite convertS5CidToCIDBytes_encodeCID by apply raw_cid_no_leading_zero.
  rewrite U3, neq0_Finite.
  destruct (Z.eqb_spec fileSize 0); cbn [negb]; [reflexivity|].
  rewrite convertS5CidToMHash_encodeCID by apply raw_cid_no_leading_zero.
  rewrite U1, convertMHashToB64url_spec.
  replace (List.length (generateMHashFromB3hash b3hash)) with 33%nat
    by (change (generateMHashFromB3hash b3hash)
          with (byte.of_Z mhashBlake3Default :: b3hash);
        cbn [List.length]; now rewrite Hlen).
  now rewrite append_nil_r.
Qed.

(** X9: for the raw CID of a 32-byte digest and a size below [2^31], in
    any of the three text forms: [checkRawSizeIsNotNull] tells whether
    the size is nonzero, [convertS5CidToMHash] returns the multihash
    whatever the size, and [convertS5CidToMHashB64url] returns the
    base64url text of the multihash, or the empty string when the size
    is 0. *)
Theorem size_gate_of_the_entry_points (fuel : nat) (p : prefix)
  (b3hash : Buffer) (fileSize : Z) :
  List.length b3hash = 32%nat -> 0 <= fileSize < 2 ^ 31 -> (50 < fuel)%nat ->
  let cid := encodeCID p (raw_cid b3hash fileSize) in
  checkRawSizeIsNotNull cid = Return (negb (fileSize =? 0)) /\
  convertS5CidToMHash fuel cid = Some (Return (generateMHashFromB3hash b3hash)) /\
  convertS5CidToMHashB64url fuel cid
  = Some (Return (if fileSize =? 0 then ""
                  else encodeBase64URL (generateMHashFromB3hash b3hash))).
Proof.
  intros Hlen Hsize Hfuel cid. subst cid.
  destruct (raw_cid_unpack fuel b3hash fileSize Hlen Hsize Hfuel)
    as (U1 & U2 & U3).
  split; [|split].
  - unfold checkRawSizeIsNotNull.
    rewrite convertS5CidToCIDBytes_encodeCID by apply raw_cid_no_leading_zero.
    cbn [bind]. rewrite U3, neq0_Finite. now destruct (fileSize =? 0).
  - rewrite convertS5CidToMHash_encodeCID by apply raw_cid_no_leading_zero.
    now rewrite U1.
  - now apply mhash_b64url_of_raw_cid.
Qed.

Lemma size_gate_of_the_entry_points_witness :
  List.length (repeat Byte.x2a 32) = 32%nat /\ 0 <= 0 < 2 ^ 31 /\
  (50 < 51)%nat /\
  convertS5CidToMHashB64url 51 (encodeCID PrefixZ (raw_cid (repeat Byte.x2a 32) 0))
  = Some (Return "").
Proof.
  assert (H1 : List.length (repeat Byte.x2a 32) = 32%nat) by reflexivity.
  assert (H2 : 0 <= 0 < 2 ^ 31) by (change (2 ^ 31) with 2147483648; lia).
  assert (H3 : (50 < 51)%nat) by lia.
  split; [exact H1|]. split; [exact H2|]. split; [exact H3|].
  exact (proj2 (proj2 (size_gate_of_the_entry_points 51 PrefixZ _ _ H1 H2 H3))).
Defined.

(** X10: [getAllInfosFromCid] gives the same report whichever of the
    three text forms of a raw CID it is given: the three text forms,
    the size, and the base64url multihash and hexadecimal digest, both
    replaced by ["It is not possible!"] when the size is 0. *)
Theorem report_is_the_same_for_all_forms (fuel : nat) (p : prefix)
  (b3hash : Buffer) (fileSize : Z) :
  List.length b3hash = 32%nat -> 0 <= fileSize < 2 ^ 31 -> (50 < fuel)%nat ->
  getAllInfosFromCid fuel (encodeCID p (raw_cid b3hash fileSize))
  = Some (Return (report_of b3hash fileSize)).
Proof.
  intros Hlen Hsize Hfuel.
  destruct (raw_cid_unpack fuel b3hash fileSize Hlen Hsize Hfuel)
    as (U1 & U2 & U3).
  pose proof (decoders_encodeCID p _ (raw_cid_no_leading_zero b3hash fileSize)) as E.
  pose proof (mhash_b64url_of_raw_cid fuel p b3hash fileSize Hlen Hsize Hfuel) as M.
  pose proof (digest_hex_of_raw_cid fuel p b3hash fileSize Hlen) as D.
  unfold getAllInfosFromCid. rewrite dispatch_encodeCID.
  remember (encodeCID p (raw_cid b3hash fileSize)) as cid eqn:Hcid.
  unfold report_of.
  destruct p; [rewrite E | rewrite E | injection E as ->];
    rewrite U3, neq0_Finite;
    (destruct (Z.eqb_spec fileSize 0); cbn [negb];
     [reflexivity | rewrite M, D by lia; reflexivity]).
Qed.

Lemma report_is_the_same_for_all_forms_witness :
  List.length (repeat Byte.x2a 32) = 32%nat /\ 0 <= 5 < 2 ^ 31 /\
  (50 < 51)%nat /\
  getAllInfosFromCid 51 (encodeCID PrefixU (raw_cid (repeat Byte.x2a 32) 5))
  = Some (Return (report_of (repeat Byte.x2a 32) 5)).
Proof.
  assert (H1 : List.length (repeat Byte.x2a 32) = 32%nat) by reflexivity.
  assert (H2 : 0 <= 5 < 2 ^ 31) by (change (2 ^ 31) with 2147483648; lia).
  assert (H3 : (50 < 51)%nat) by lia.
  split; [exact H1|]. split; [exact H2|]. split; [exact H3|].
  exact (report_is_the_same_for_all_forms 51 PrefixU _ _ H1 H2 H3).
Defined.

(** ** The text-to-text conversions *)

Lemma strip_trailing_eq_id s :
  exists_string (fun c => Ascii.eqb c "=") s = false -> strip_trailing_eq s = s.
Proof.
  induction s as [|c rest IH]; cbn [exists_string strip_trailing_eq];
    [reflexivity|].
  intros H. apply orb_false_iff in H. destruct H as [Hc Hrest].
  rewrite (IH Hrest). destruct rest; [now rewrite Hc | reflexivity].
Qed.

Lemma base32_numeral_no_padding qs :
  digits_ok 32 qs ->
  exists_string (fun c => Ascii.eqb c "=") (numeral BASE32_ALPHABET qs) = false.
Proof.
  induction 1 as [|d qs Hd _ IH]; cbn [numeral exists_string]; [reflexivity|].
  rewrite IH, orb_false_r. apply negb_true_iff.
  apply (below_forall
           (fun v => negb (Ascii.eqb (digit_char BASE32_ALPHABET v) "=")) 32);
    [reflexivity | assumption].
Qed.

Lemma base32_text_no_padding data :
  strip_trailing_eq (encodeBase32RFC data) = encodeBase32RFC data.
Proof.
  destruct (encodeBase32RFC_spec data) as (qs & pad & E & Hok & _).
  rewrite E. now apply strip_trailing_eq_id, base32_numeral_no_padding.
Qed.

Lemma base32_text_case data :
  toUpperCase (toLowerCase (encodeBase32RFC data)) = encodeBase32RFC data.
Proof.
  destruct (encodeBase32RFC_spec data) as (qs & pad & E & Hok & _).
  rewrite E. now apply base32_numeral_case.
Qed.

Lemma sextets_url_numeral qs :
  digits_ok 64 qs -> sextets (numeral base64url_alphabet qs) = qs.
Proof.
  induction 1 as [|d qs Hd _ IH]; cbn [numeral sextets]; [reflexivity|].
  assert (E : unbase64 (digit_char base64url_alphabet d) = Some d).
  { assert (K : match unbase64 (digit_char base64url_alphabet d) with
                | Some w => w =? d
                | None => false
                end = true).
    { apply (below_forall
               (fun v => match unbase64 (digit_char base64url_alphabet v) with
                         | Some w => w =? v
                         | None => false
                         end) 64); [reflexivity | assumption]. }
    destruct (unbase64 (digit_char base64url_alphabet d)); [|discriminate].
    apply Z.eqb_eq in K. now subst. }
  now rewrite E, IH.
Qed.

(** Node's own base64url decoder reads the text of [encodeBase64URL]
    back. *)
Lemma from_base64_encodeBase64URL data :
  from_base64 (encodeBase64URL data) = data.
Proof.
  unfold from_base64. rewrite encodeBase64URL_spec.
  rewrite sextets_url_numeral by apply bytes_sextets_ok.
  apply unsextets_bytes_sextets.
Qed.

Lemma convertB58btcToB32rfcCid_form c :
  convertB58btcToB32rfcCid (encodeCIDWithPrefixZ c)
  = Return (encodeCIDWithPrefixB (drop_zeros c)).
Proof.
  rewrite encodeCIDWithPrefixZ_eq, encodeCIDWithPrefixB_eq.
  unfold convertB58btcToB32rfcCid.
  cbn [substring1].
  rewrite base58_decode_encode. cbn [bind].
  now rewrite base32_text_no_padding.
Qed.

Lemma convertB64urlToB32rfcCid_form c :
  convertB64urlToB32rfcCid (encodeCIDWithPrefixU c) = encodeCIDWithPrefixB c.
Proof.
  rewrite encodeCIDWithPrefixU_eq, encodeCIDWithPrefixB_eq.
  unfold convertB64urlToB32rfcCid.
  cbn [substring1].
  now rewrite from_base64_encodeBase64URL, base32_text_no_padding.
Qed.

(** X11: each of the six conversions takes one text form of a byte
    sequence to another text form of the same bytes; the two that start
    from the base58 form give the form of the bytes without their
    leading zero bytes. *)
Theorem conversions_change_the_form_only (c : Buffer) :
  convertB32rfcToB58btcCid (encodeCIDWithPrefixB c) = encodeCIDWithPrefixZ c /\
  convertB32rfcToB64urlCid (encodeCIDWithPrefixB c) = encodeCIDWithPrefixU c /\
  convertB64urlToB58btcCid (encodeCIDWithPrefixU c) = encodeCIDWithPrefixZ c /\
  convertB64urlToB32rfcCid (encodeCIDWithPrefixU c) = encodeCIDWithPrefixB c /\
  convertB58btcToB32rfcCid (encodeCIDWithPrefixZ c)
  = Return (encodeCIDWithPrefixB (drop_zeros c)) /\
  convertB58btcToB64urlCid (encodeCIDWithPrefixZ c)
  = Return (encodeCIDWithPrefixU (drop_zeros c)).
Proof.
  repeat split.
  - rewrite encodeCIDWithPrefixB_eq, encodeCIDWithPrefixZ_eq.
    unfold convertB32rfcToB58btcCid.
    cbn [substring1].
    now rewrite base32_text_case, base32_round_trip.
  - rewrite encodeCIDWithPrefixB_eq, encodeCIDWithPrefixU_eq.
    unfold convertB32rfcToB64urlCid.
    cbn [substring1].
    now rewrite base32_text_case, base32_round_trip.
  - rewrite encodeCIDWithPrefixU_eq, encodeCIDWithPrefixZ_eq.
    unfold convertB64urlToB58btcCid.
    cbn [substring1].
    now rewrite base64url_round_trip.
  - apply convertB64urlToB32rfcCid_form.
  - apply convertB58btcToB32rfcCid_form.
  - rewrite encodeCIDWithPrefixZ_eq, encodeCIDWithPrefixU_eq.
    unfold convertB58btcToB64urlCid.
    cbn [substring1].
    now rewrite base58_decode_encode.
Qed.

Lemma directory_input_starts_with_b cid r :
  startsWith cid "http" = false ->
  convertDownloadDirectoryInputCid cid = Return r -> first_is r "b" = true.
Proof.
  intros Hh. unfold convertDownloadDirectoryInputCid. rewrite Hh.
  destruct cid as [|c rest]; [discriminate|].
  change (first_is (String c rest) "z") with (Ascii.eqb c "z").
  change (first_is (String c rest) "u") with (Ascii.eqb c "u").
  change (first_is (String c rest) "b") with (Ascii.eqb c "b").
  destruct (Ascii.eqb_spec c "z") as [->|Hz].
  { change (Ascii.eqb "z" "u") with false. change (Ascii.eqb "z" "b") with false.
    unfold convertB58btcToB32rfcCid.
    destruct (decodeBase58BTC (substring1 (String "z" rest))) as [b|e];
      cbn [bind]; [|discriminate].
    intros E. now injection E as <-. }
  destruct (Ascii.eqb_spec c "u") as [->|Hu].
  { change (Ascii.eqb "u" "b") with false. cbn [bind].
    intros E. now injection E as <-. }
  destruct (Ascii.eqb_spec c "b") as [->|Hb]; cbn [bind]; [|discriminate].
  intros E. now injection E as <-.
Qed.

(** X12: given a CID instead of a URL, [convertDownloadDirectoryInputCid]
    returns its base32 form: a text that starts with [b] is returned as
    it is, whatever follows; the base64url form of [c] becomes the base32
    form of [c], and the base58 form of [c] the base32 form of [c]
    without its leading zero bytes.  Whatever it returns for an input
    that does not start with [http] starts with [b]. *)
Theorem directory_input_cid_forms (c : Buffer) (body : string) :
  convertDownloadDirectoryInputCid ("b" ++ body) = Return ("b" ++ body) /\
  convertDownloadDirectoryInputCid (encodeCIDWithPrefixU c)
  = Return (encodeCIDWithPrefixB c) /\
  convertDownloadDirectoryInputCid (encodeCIDWithPrefixZ c)
  = Return (encodeCIDWithPrefixB (drop_zeros c)) /\
  (forall cid r,
     startsWith cid "http" = false ->
     convertDownloadDirectoryInputCid cid = Return r -> first_is r "b" = true).
Proof.
  split; [reflexivity|]. split; [|split].
  - pose proof (convertB64urlToB32rfcCid_form c) as E.
    rewrite encodeCIDWithPrefixU_eq in *.
    unfold convertDownloadDirectoryInputCid.
    change (startsWith (String "u" (encodeBase64URL c)) "http") with false.
    change (first_is (String "u" (encodeBase64URL c)) "z") with false.
    change (first_is (String "u" (encodeBase64URL c)) "u") with true.
    change (first_is (String "u" (encodeBase64URL c)) "b") with false.
    cbn [bind]. now rewrite E.
  - pose proof (convertB58btcToB32rfcCid_form c) as E.
    rewrite encodeCIDWithPrefixZ_eq in *.
    unfold convertDownloadDirectoryInputCid.
    change (startsWith (String "z" (encodeBase58BTC c)) "http") with false.
    change (first_is (String "z" (encodeBase58BTC c)) "z") with true.
    change (first_is (String "z" (encodeBase58BTC c)) "u") with false.
    change (first_is (String "z" (encodeBase58BTC c)) "b") with false.
    rewrite E. reflexivity.
  - apply directory_input_starts_with_b.
Qed.

Lemma directory_input_cid_forms_witness :
  startsWith "uJh8" "http" = false /\
  convertDownloadDirectoryInputCid "uJh8" = Return "beypq" /\
  first_is "beypq" "b" = true.
Proof.
  assert (H1 : startsWith "uJh8" "http" = false) by reflexivity.
  assert (H2 : convertDownloadDirectoryInputCid "uJh8" = Return "beypq")
    by (vm_compute; reflexivity).
  split; [exact H1|]. split; [exact H2|].
  exact (proj2 (proj2 (proj2 (directory_input_cid_forms [] "")))
           "uJh8" "beypq" H1 H2).
Defined.

(** ** [formatCid] and [getSubdomainFromUrl] *)

Lemma prefix_append p s : String.prefix p (p ++ s) = true.
Proof.
  induction p as [|a p IH]; cbn [append String.prefix];
    [now destruct s|].
  destruct (ascii_dec a a) as [_|N]; [exact IH | now elim N].
Qed.

(** X13: [formatCid] leaves the empty string alone, returns a text that
    starts with [s5://] as it is, and puts [s5://] in front of every
    other text; so every result but the empty one starts with [s5://],
    and applying it twice is the same as applying it once. *)
Theorem formatCid_adds_the_prefix_once (cid : string) :
  formatCid "" = "" /\
  (cid <> "" -> startsWith cid uriS5Prefix = false ->
   formatCid cid = uriS5Prefix ++ cid) /\
  (cid <> "" -> startsWith (formatCid cid) uriS5Prefix = true) /\
  (startsWith cid uriS5Prefix = true -> formatCid cid = cid) /\
  formatCid (formatCid cid) = formatCid cid.
Proof.
  assert (Ha : cid <> "" -> startsWith cid uriS5Prefix = false ->
               formatCid cid = uriS5Prefix ++ cid).
  { intros Hne E. unfold formatCid. rewrite E. cbn [negb].
    destruct (String.eqb_spec cid ""); [contradiction | reflexivity]. }
  assert (Hp : cid <> "" -> startsWith (formatCid cid) uriS5Prefix = true).
  { intros Hne. destruct (startsWith cid uriS5Prefix) eqn:E.
    - unfold formatCid. rewrite E. cbn [negb].
      now destruct (String.eqb cid "").
    - rewrite (Ha Hne eq_refl). apply prefix_append. }
  assert (Hk : forall s, startsWith s uriS5Prefix = true -> formatCid s = s).
  { intros s E. unfold formatCid. rewrite E. cbn [negb].
    now destruct (String.eqb s ""). }
  split; [reflexivity|]. split; [exact Ha|]. split; [exact Hp|].
  split; [apply Hk|].
  destruct (String.eqb_spec cid "") as [->|Hne]; [reflexivity|].
  apply Hk, Hp, Hne.
Qed.

Lemma formatCid_adds_the_prefix_once_witness :
  "zHnq" <> "" /\ startsWith "zHnq" uriS5Prefix = false /\
  formatCid "zHnq" = "s5://zHnq".
Proof.
  assert (H1 : "zHnq" <> "") by discriminate.
  assert (H2 : startsWith "zHnq" uriS5Prefix = false) by reflexivity.
  split; [exact H1|]. split; [exact H2|].
  exact (proj1 (proj2 (formatCid_adds_the_prefix_once "zHnq")) H1 H2).
Defined.

(** X14: [getSubdomainFromUrl] returns a label exactly when the URL
    begins, after an optional [http://] or [https://] in any letter
    case, with that label (non-empty, without [.] and [/]) followed by a
    dot; it returns [null] exactly when the URL has no such label. *)
Theorem getSubdomainFromUrl_finds_the_first_label (url label : string) :
  (getSubdomainFromUrl url = Some label <-> first_label url label) /\
  (getSubdomainFromUrl url = None <-> forall l, ~ first_label url l).
Proof.
  split; [split|].
  - apply getSubdomainFromUrl_sound.
  - apply getSubdomainFromUrl_complete.
  - apply no_first_label.
Qed.

Lemma getSubdomainFromUrl_finds_the_first_label_witness :
  getSubdomainFromUrl "HTTPS://abc.example.com/x" = Some "abc" /\
  first_label "HTTPS://abc.example.com/x" "abc".
Proof.
  assert (H : getSubdomainFromUrl "HTTPS://abc.example.com/x" = Some "abc")
    by reflexivity.
  split; [exact H|].
  exact (proj1 (proj1 (getSubdomainFromUrl_finds_the_first_label
                         "HTTPS://abc.example.com/x" "abc")) H).
Defined.

(** ** Base58 read as text *)

Lemma indexOf_get alphabet c : forall i,
  indexOf alphabet c = i -> 0 <= i ->
  String.get (Z.to_nat i) alphabet = Some c /\
  i < Z.of_nat (String.length alphabet).
Proof.
  induction alphabet as [|a rest IH]; cbn [indexOf]; intros i E Hi; [lia|].
  destruct (Ascii.eqb_spec a c) as [->|N].
  - subst i. cbn [Z.to_nat String.get String.length]. split; [reflexivity | lia].
  - destruct (Z.ltb_spec (indexOf rest c) 0) as [L|L]; [lia|].
    destruct (IH _ eq_refl L) as [G Hl]. subst i.
    replace (Z.to_nat (indexOf rest c + 1)) with (S (Z.to_nat (indexOf rest c)))
      by lia.
    cbn [String.get String.length]. split; [exact G | lia].
Qed.

(** A text over the base58 alphabet is a numeral. *)
Lemma alphabet_text_numeral s :
  has_foreign ALPHABET s = false ->
  exists ds, s = numeral ALPHABET ds /\ digits_ok 58 ds.
Proof.
  unfold has_foreign.
  induction s as [|c rest IH]; cbn [exists_string]; intros H.
  - exists []. split; [reflexivity | constructor].
  - apply orb_false_iff in H. destruct H as [Hc Hrest].
    destruct (IH Hrest) as (ds & -> & Hds).
    pose proof (indexOf_lower_bound ALPHABET c) as Hlb.
    assert (Hne : indexOf ALPHABET c <> -1).
    { intros E. apply indexOf_foreign in E. congruence. }
    destruct (indexOf_get ALPHABET c _ eq_refl ltac:(lia)) as [G Hl].
    change (Z.of_nat (String.length ALPHABET)) with 58 in Hl.
    exists (indexOf ALPHABET c :: ds). split.
    + cbn [numeral]. unfold digit_char. now rewrite G.
    + constructor; [lia | assumption].
Qed.

Lemma digit_one d :
  0 <= d < 58 -> Ascii.eqb (digit_char ALPHABET d) "1" = (d =? 0).
Proof.
  intros Hd. apply Bool.eqb_prop.
  apply (below_forall
           (fun v => Bool.eqb (Ascii.eqb (digit_char ALPHABET v) "1") (v =? 0)) 58);
    [reflexivity | assumption].
Qed.

Lemma drop_ones_numeral ds :
  digits_ok 58 ds ->
  drop_ones (numeral ALPHABET ds) = numeral ALPHABET (pop_zeros ds).
Proof.
  induction 1 as [|d ds Hd _ IH]; [reflexivity|].
  cbn [numeral drop_ones]. rewrite digit_one by assumption.
  destruct d as [|q|q]; cbn [Z.eqb pop_zeros numeral]; [exact IH | reflexivity | lia].
Qed.

Lemma pop_zeros_tight top_down :
  digits_ok 58 top_down -> tight 58 (rev (pop_zeros top_down)).
Proof.
  induction 1 as [|d ds Hd Hds IH]; [now left|].
  destruct d as [|q|q]; cbn [pop_zeros]; [exact IH | | lia].
  cbn [rev]. apply tight_snoc; [lia | now apply digits_ok_rev | lia].
Qed.

(** The numeral [encodeBase58BTC] writes has no leading zero digit. *)
Lemma encodeBase58BTC_tight bytes :
  exists top_down,
    encodeBase58BTC bytes = numeral ALPHABET top_down /\
    digits_ok 58 top_down /\ tight 58 (rev top_down) /\
    le_val 58 (rev top_down) = le_val 256 (rev (unsigned_bytes bytes)).
Proof.
  unfold encodeBase58BTC.
  destruct (encode58_fold_spec bytes [0]) as [F1 F2].
  { constructor; [lia | constructor]. }
  { discriminate. }
  set (digits := fold_left encode58_step bytes [0]) in *.
  destruct (pop_zeros_spec (rev digits)) as [Z1 Z2].
  { now apply digits_ok_rev. }
  exists (pop_zeros (rev digits)). repeat split.
  - rewrite fold_append_index; [reflexivity|].
    eapply Forall_impl; [|exact Z1]. cbv beta. intros a Ha.
    change (Z.of_nat (String.length ALPHABET)) with 58. exact Ha.
  - assumption.
  - all: try (apply pop_zeros_tight; now apply digits_ok_rev).
  - rewrite Z2, rev_involutive, F2. cbn [le_val]. lia.
Qed.

Lemma rev_eq (A : Type) (a b : list A) : rev a = rev b -> a = b.
Proof.
  intros H. apply (f_equal (@rev A)) in H. now rewrite !rev_involutive in H.
Qed.

Lemma decodeBase58BTC_returns s :
  has_foreign ALPHABET s = false -> exists bytes, decodeBase58BTC s = Return bytes.
Proof.
  intros F. destruct (alphabet_text_numeral s F) as (ds & -> & Hds).
  destruct (decode58_for_numeral ds [] Hds) as (bytes' & E & _);
    [constructor | now left |].
  unfold decodeBase58BTC. rewrite E. cbn [bind]. eauto.
Qed.

Lemma base58_encode_decode s bytes :
  decodeBase58BTC s = Return bytes -> encodeBase58BTC bytes = drop_ones s.
Proof.
  intros E.
  assert (F : has_foreign ALPHABET s = false).
  { destruct (has_foreign ALPHABET s) eqn:F; [|reflexivity].
    unfold decodeBase58BTC in E.
    rewrite decode58_for_foreign in E by assumption. discriminate. }
  destruct (alphabet_text_numeral s F) as (ds & -> & Hds).
  destruct (decode58_for_numeral ds [] Hds) as (bytes' & E' & B1 & B2 & B3);
    [constructor | now left |].
  unfold decodeBase58BTC in E. rewrite E' in E. cbn [bind] in E.
  injection E as <-.
  destruct (encodeBase58BTC_tight (from_array (rev bytes')))
    as (td & -> & T1 & T2 & T3).
  rewrite drop_ones_numeral by assumption. f_equal.
  rewrite unsigned_from_array in T3 by now apply digits_ok_rev.
  rewrite rev_involutive in T3. cbn [le_val] in B3.
  destruct (pop_zeros_spec ds Hds) as [Z1 Z2].
  apply rev_eq. apply (tight_inj 58); try lia.
  - now apply digits_ok_rev.
  - now apply digits_ok_rev.
  - assumption.
  - now apply pop_zeros_tight.
Qed.

(** X15: [decodeBase58BTC] returns bytes exactly on the texts written
    in the base58 alphabet, and [encodeBase58BTC] writes these bytes
    back as the text without its leading [1] characters (the digit
    zero). *)
Theorem base58_text_round_trip (s : string) :
  (has_foreign ALPHABET s = false
   <-> exists bytes, decodeBase58BTC s = Return bytes) /\
  (forall bytes,
     decodeBase58BTC s = Return bytes -> encodeBase58BTC bytes = drop_ones s).
Proof.
  split; [split|].
  - apply decodeBase58BTC_returns.
  - intros [bytes E]. destruct (has_foreign ALPHABET s) eqn:F; [|reflexivity].
    unfold decodeBase58BTC in E.
    rewrite decode58_for_foreign in E by assumption. discriminate.
  - apply base58_encode_decode.
Qed.

Lemma base58_text_round_trip_witness :
  decodeBase58BTC "11Ab" = Return [Byte.x02; Byte.x2c] /\
  encodeBase58BTC [Byte.x02; Byte.x2c] = drop_ones "11Ab".
Proof.
  assert (H : decodeBase58BTC "11Ab" = Return [Byte.x02; Byte.x2c])
    by (vm_compute; reflexivity).
  split; [exact H|].
  exact (proj2 (base58_text_round_trip "11Ab") _ H).
Defined.

Lemma drop_zeros_nil bytes : drop_zeros bytes = [] <-> all_zero bytes.
Proof.
  unfold all_zero. induction bytes as [|b bytes IH]; cbn [drop_zeros].
  - split; [constructor | reflexivity].
  - destruct (Z.eqb_spec (byte.unsigned b) 0) as [E|E].
    + rewrite IH. split; [now constructor | now inversion 1].
    + split; [discriminate | inversion 1; contradiction].
Qed.

Lemma encodeBase58BTC_drop_zeros bytes :
  encodeBase58BTC bytes = encodeBase58BTC (drop_zeros bytes).
Proof.
  destruct (encodeBase58BTC_tight bytes) as (t1 & -> & A1 & A2 & A3).
  destruct (encodeBase58BTC_tight (drop_zeros bytes)) as (t2 & -> & B1 & B2 & B3).
  f_equal. apply rev_eq. apply (tight_inj 58); try lia; try assumption.
  - now apply digits_ok_rev.
  - now apply digits_ok_rev.
  - now rewrite A3, B3, le_val_drop_zeros.
Qed.

Lemma decodeBase58BTC_drop_ones s :
  decodeBase58BTC s = decodeBase58BTC (drop_ones s).
Proof.
  induction s as [|c rest IH]; [reflexivity|].
  cbn [drop_ones]. destruct (Ascii.eqb_spec c "1") as [->|N]; [|reflexivity].
  rewrite <- IH. reflexivity.
Qed.

(** X16: base58 does not see leading zeros: [encodeBase58BTC] gives the
    same text with and without the leading zero bytes, the empty text
    exactly for the byte sequences that are all zero, and
    [decodeBase58BTC] gives the same result with and without the leading
    [1] characters. *)
Theorem base58_forgets_leading_zeros (bytes : Buffer) (s : string) :
  encodeBase58BTC bytes = encodeBase58BTC (drop_zeros bytes) /\
  (encodeBase58BTC bytes = "" <-> all_zero bytes) /\
  decodeBase58BTC s = decodeBase58BTC (drop_ones s).
Proof.
  split; [apply encodeBase58BTC_drop_zeros|].
  split; [|apply decodeBase58BTC_drop_ones].
  rewrite <- drop_zeros_nil. split.
  - intros E. pose proof (base58_decode_encode bytes) as D.
    rewrite E in D. now injection D as <-.
  - intros E. now rewrite encodeBase58BTC_drop_zeros, E.
Qed.

Lemma base58_forgets_leading_zeros_witness :
  all_zero [Byte.x00; Byte.x00] /\ encodeBase58BTC [Byte.x00; Byte.x00] = "".
Proof.
  assert (H : all_zero [Byte.x00; Byte.x00]) by (repeat constructor).
  split; [exact H|].
  exact (proj2 (proj1 (proj2 (base58_forgets_leading_zeros
                                [Byte.x00; Byte.x00] ""))) H).
Defined.

(** ** The upper-case prefix of the base32 form *)

Lemma append_charAt_cons ch result alphabet i :
  append_charAt (String ch result) alphabet i
  = String ch (append_charAt result alphabet i).
Proof.
  unfold append_charAt.
  now destruct (if i <? 0 then None else String.get (Z.to_nat i) alphabet).
Qed.

Lemma encode32_while_cons ch fuel : forall result bits value,
  encode32_while fuel (String ch result) bits value
  = (String ch (fst (encode32_while fuel result bits value)),
     snd (encode32_while fuel result bits value)).
Proof.
  induction fuel as [|fuel IH]; intros result bits value;
    cbn [encode32_while]; [reflexivity|].
  destruct (5 <=? bits); [|reflexivity].
  now rewrite append_charAt_cons, IH.
Qed.

Lemma encode32_fold_cons ch data : forall result bits value,
  exists result' bits' value',
    fold_left encode32_step data (result, bits, value) = (result', bits', value') /\
    fold_left encode32_step data (String ch result, bits, value)
    = (String ch result', bits', value').
Proof.
  induction data as [|b data IH]; intros result bits value; cbn [fold_left].
  - eauto.
  - unfold encode32_step at 2 4. rewrite encode32_while_cons.
    destruct (encode32_while _ result _ _) as [r1 b1]. cbn [fst snd].
    apply IH.
Qed.

Lemma encode32_first_step b :
  encode32_step ("", 0, 0) b
  = (String (digit_char BASE32_ALPHABET (byte.unsigned b / 8)) "", 3,
     byte.unsigned b).
Proof. destruct b; reflexivity. Qed.

(** The first character of the base32 text stands for the five high
    bits of the first byte. *)
Lemma encode32_first b rest :
  exists tail,
    encodeBase32RFC (b :: rest)
    = String (digit_char BASE32_ALPHABET (byte.unsigned b / 8)) tail.
Proof.
  unfold encodeBase32RFC. cbn [fold_left]. rewrite encode32_first_step.
  destruct (encode32_fold_cons (digit_char BASE32_ALPHABET (byte.unsigned b / 8))
              rest "" 3 (byte.unsigned b)) as (r & bits & v & _ & ->).
  destruct (0 <? bits); [rewrite append_charAt_cons|]; eauto.
Qed.

Lemma length_map_string f s : String.length (map_string f s) = String.length s.
Proof. induction s as [|c s IH]; cbn [map_string String.length]; congruence. Qed.

Lemma lower_digit_is_b v :
  0 <= v < 32 ->
  Ascii.eqb (lower_char (digit_char BASE32_ALPHABET v)) "b" = (v =? 1).
Proof.
  intros Hv. apply Bool.eqb_prop.
  apply (below_forall
           (fun v => Bool.eqb (Ascii.eqb (lower_char (digit_char BASE32_ALPHABET v)) "b")
                              (v =? 1)) 32);
    [reflexivity | assumption].
Qed.

Lemma decodeCIDWithPrefixB_capital body :
  decodeCIDWithPrefixB ("B" ++ body)
  = decodeBase32RFC
      (let cid := if first_is (toLowerCase body) "b" && test_lower (toLowerCase body)
                  then substring1 (toLowerCase body) else toLowerCase body in
       if test_lower cid then toUpperCase cid else cid).
Proof. reflexivity. Qed.

Lemma capital_prefix_decodes b rest :
  byte.unsigned b / 8 <> 1 ->
  decodeCIDWithPrefixB ("B" ++ encodeBase32RFC (b :: rest)) = b :: rest.
Proof.
  intros Hb. rewrite decodeCIDWithPrefixB_capital.
  destruct (encodeBase32RFC_spec (b :: rest)) as (qs & pad & E & Hok & _).
  destruct (base32_numeral_case qs Hok) as [C1 C2]. rewrite <- E in C1, C2.
  destruct (encode32_first b rest) as [tail Et].
  assert (Hf : first_is (toLowerCase (encodeBase32RFC (b :: rest))) "b" = false).
  { rewrite Et. unfold toLowerCase. cbn [map_string first_is first_char].
    pose proof (byte.unsigned_range b).
    rewrite lower_digit_is_b
      by (split; [apply Z.div_pos; lia | apply Z.div_lt_upper_bound; lia]).
    now apply Z.eqb_neq. }
  rewrite Hf. cbn [andb]. cbv zeta.
  destruct (test_lower (toLowerCase (encodeBase32RFC (b :: rest)))) eqn:T.
  - rewrite C2. apply base32_round_trip.
  - rewrite (toLowerCase_no_lower _ T). apply base32_round_trip.
Qed.

Lemma capital_prefix_loses_a_character b rest :
  byte.unsigned b / 8 = 1 ->
  (List.length (decodeCIDWithPrefixB ("B" ++ encodeBase32RFC (b :: rest)))
   < List.length (b :: rest))%nat.
Proof.
  intros Hb. rewrite decodeCIDWithPrefixB_capital.
  destruct (encodeBase32RFC_spec (b :: rest)) as (qs & pad & E & Hok & Hpad & Hlen & _).
  destruct (encode32_first b rest) as [tail Et].
  assert (Hq : Z.of_nat (String.length tail) = Z.of_nat (List.length qs) - 1).
  { rewrite <- (length_numeral BASE32_ALPHABET qs), <- E, Et.
    cbn [String.length]. lia. }
  assert (Hl : toLowerCase (encodeBase32RFC (b :: rest))
               = String "b" (toLowerCase tail)).
  { rewrite Et. unfold toLowerCase. cbn [map_string]. f_equal.
    apply Ascii.eqb_eq. rewrite lower_digit_is_b by lia. now apply Z.eqb_eq. }
  rewrite Hl.
  change (first_is (String "b" (toLowerCase tail)) "b") with true.
  change (test_lower (String "b" (toLowerCase tail)))
    with (true || test_lower (toLowerCase tail)).
  cbn [orb andb substring1]. cbv zeta.
  apply Nat2Z.inj_lt. rewrite decodeBase32RFC_length.
  assert (Hs : forall s, String.length s = String.length tail ->
                         5 * Z.of_nat (String.length s) / 8
                         < Z.of_nat (List.length (b :: rest))).
  { intros s ->. apply Z.div_lt_upper_bound; lia. }
  destruct (test_lower (toLowerCase tail)); apply Hs; unfold toUpperCase, toLowerCase;
    now rewrite ?length_map_string.
Qed.

(** X17: with the upper-case prefix [B], [decodeCIDWithPrefixB] gives
    back the bytes of an upper-case base32 text unless the first byte
    lies in 8..15: then the text begins with the letter B as well, the
    function takes it for a second prefix, and fewer bytes come back.
    No registered CID type begins that way, so every valid CID is read
    back. *)
Theorem capital_prefix_B (b : byte) (rest : Buffer) :
  (byte.unsigned b / 8 <> 1 ->
   decodeCIDWithPrefixB ("B" ++ encodeBase32RFC (b :: rest)) = b :: rest) /\
  (byte.unsigned b / 8 = 1 ->
   (List.length (decodeCIDWithPrefixB ("B" ++ encodeBase32RFC (b :: rest)))
    < List.length (b :: rest))%nat) /\
  (valid_cid (b :: rest) ->
   decodeCIDWithPrefixB ("B" ++ encodeBase32RFC (b :: rest)) = b :: rest).
Proof.
  split; [apply capital_prefix_decodes|].
  split; [apply capital_prefix_loses_a_character|].
  intros [_ Ht]. apply capital_prefix_decodes.
  unfold cidTypes in Ht. cbn [In] in Ht.
  repeat (destruct Ht as [<-|Ht]; [vm_compute; discriminate|]). contradiction.
Qed.

Lemma capital_prefix_B_witness :
  byte.unsigned Byte.x26 / 8 <> 1 /\
  decodeCIDWithPrefixB ("B" ++ encodeBase32RFC [Byte.x26; Byte.x1f; Byte.x00])
  = [Byte.x26; Byte.x1f; Byte.x00].
Proof.
  assert (H : byte.unsigned Byte.x26 / 8 <> 1) by (vm_compute; discriminate).
  split; [exact H|].
  exact (proj1 (capital_prefix_B Byte.x26 [Byte.x1f; Byte.x00]) H).
Defined.

(** ** The texts the encoders write *)

Lemma numeral_in_alphabet alphabet n qs :
  forallb (fun v => negb (foreign alphabet (digit_char alphabet v))) (below n) = true ->
  digits_ok (Z.of_nat n) qs ->
  has_foreign alphabet (numeral alphabet qs) = false.
Proof.
  intros Hall. unfold has_foreign.
  induction 1 as [|d qs Hd _ IH]; cbn [numeral exists_string]; [reflexivity|].
  rewrite IH, orb_false_r. apply negb_true_iff.
  now apply (below_forall _ n Hall).
Qed.

Lemma length_bytes_sextets buffer :
  Z.of_nat (List.length (bytes_sextets buffer))
  = (4 * Z.of_nat (List.length buffer) + 2) / 3.
Proof.
  induction buffer as [|a|a b|a b c rest IH] using list_ind3;
    try reflexivity.
  cbn [bytes_sextets List.length].
  rewrite !Nat2Z.inj_succ, IH.
  replace (4 * Z.succ (Z.succ (Z.succ (Z.of_nat (List.length rest)))) + 2)
    with (4 * Z.of_nat (List.length rest) + 2 + 4 * 3) by lia.
  rewrite Z.div_add by lia. lia.
Qed.

(** X18: the encoders write characters of their own alphabet only, so
    never a padding character; the base32 text of [n] bytes has
    [(8n + 4) / 5] characters and the base64url text [(4n + 2) / 3]. *)
Theorem encoded_texts (data : Buffer) :
  has_foreign ALPHABET (encodeBase58BTC data) = false /\
  has_foreign BASE32_ALPHABET (encodeBase32RFC data) = false /\
  Z.of_nat (String.length (encodeBase32RFC data))
  = (8 * Z.of_nat (List.length data) + 4) / 5 /\
  has_foreign base64url_alphabet (encodeBase64URL data) = false /\
  Z.of_nat (String.length (encodeBase64URL data))
  = (4 * Z.of_nat (List.length data) + 2) / 3.
Proof.
  destruct (encodeBase58BTC_spec data) as (td & E58 & H58 & _).
  destruct (encodeBase32RFC_spec data) as (qs & pad & E32 & H32 & Hpad & Hlen & _).
  rewrite E58, E32, encodeBase64URL_spec, !length_numeral, length_bytes_sextets.
  repeat split.
  - now apply (numeral_in_alphabet ALPHABET 58).
  - now apply (numeral_in_alphabet BASE32_ALPHABET 32).
  - apply Z.div_unique with (4 - pad); lia.
  - apply (numeral_in_alphabet base64url_alphabet 64); [reflexivity|].
    apply bytes_sextets_ok.
Qed.

(** X19: two byte sequences that do not begin with a zero byte have the
    same text only if they are equal and the form is the same. *)
Theorem text_forms_are_injective (p q : prefix) (a b : Buffer) :
  no_leading_zero a -> no_leading_zero b ->
  encodeCID p a = encodeCID q b -> p = q /\ a = b.
Proof.
  intros Ha Hb E.
  assert (Hpq : p = q).
  { destruct (encodeCID_char p a) as [x Ex], (encodeCID_char q b) as [y Ey].
    rewrite Ex, Ey in E. injection E as E _.
    destruct p, q; first [reflexivity | discriminate]. }
  subst q. split; [reflexivity|].
  pose proof (decodeCID_encodeCID p a Ha) as Da.
  pose proof (decodeCID_encodeCID p b Hb) as Db.
  rewrite E, Db in Da. now injection Da.
Qed.

Lemma text_forms_are_injective_witness :
  no_leading_zero scenario_cid /\ PrefixB = PrefixB /\ scenario_cid = scenario_cid.
Proof.
  assert (H : no_leading_zero scenario_cid) by (vm_compute; discriminate).
  split; [exact H|].
  exact (text_forms_are_injective PrefixB PrefixB scenario_cid scenario_cid
           H H eq_refl).
Defined.

Lemma std_char_unbase64 v :
  0 <= v < 64 ->
  unbase64 (if Ascii.eqb (if Ascii.eqb (base64_char v) "-" then "+"%char
                          else base64_char v) "_"
            then "/"%char
            else if Ascii.eqb (base64_char v) "-" then "+"%char
                 else base64_char v) = Some v.
Proof.
  intros Hv.
  pose proof (below_forall
    (fun v => match unbase64
                      (if Ascii.eqb (if Ascii.eqb (base64_char v) "-" then "+"%char
                                     else base64_char v) "_"
                       then "/"%char
                       else if Ascii.eqb (base64_char v) "-" then "+"%char
                            else base64_char v) with
              | Some w => w =? v
              | None => false
              end) 64 eq_refl v Hv) as K.
  cbv beta in K.
  destruct (unbase64 _) as [w|]; [|discriminate].
  apply Z.eqb_eq in K. now subst.
Qed.

(** X20: [decodeBase64URL] reads standard base64 with its padding as
    well: it gives back the bytes of every text that
    [buffer.toString('base64')] writes. *)
Theorem decodeBase64URL_reads_padded_base64 (buffer : Buffer) :
  decodeBase64URL (toString_base64 buffer) = buffer.
Proof.
  rewrite decodeBase64URL_unpadded.
  rewrite <- (unsextets_bytes_sextets buffer) at 2. f_equal.
  unfold replace_all.
  induction buffer as [|a|a b|a b c rest IH] using list_ind3;
    [reflexivity | pose proof (bytes_sextets_ok [a]) as Hok
     | pose proof (bytes_sextets_ok [a; b]) as Hok
     | pose proof (bytes_sextets_ok (a :: b :: c :: rest)) as Hok];
    cbn [bytes_sextets toString_base64 map_string sextets] in *;
    unfold digits_ok in Hok;
    repeat match goal with
           | K : Forall _ (_ :: _) |- _ =>
               apply Forall_cons_iff in K; destruct K as [? K]
           end;
    rewrite ?std_char_unbase64 by assumption; try reflexivity.
  now rewrite IH.
Qed.

(** ** The digest inside a binary CID *)

Lemma slice_firstn_skipn (buffer : Buffer) a b :
  0 <= a <= b -> b <= Z.of_nat (List.length buffer) ->
  slice buffer a b = firstn (Z.to_nat b - Z.to_nat a) (skipn (Z.to_nat a) buffer).
Proof.
  intros Hab Hb. unfold slice, clamp.
  destruct (Z.ltb_spec a 0); [lia|]. destruct (Z.ltb_spec b 0); [lia|].
  now rewrite !Nat.min_l by lia.
Qed.

(** X21: in every buffer of at least 34 bytes [extractB3hashFromCID]
    finds the 32 bytes at offsets 2 to 33, which is
    [extractB3hashFromMHash] of what [extractMHashFromCID] finds; and
    [extractB3hashFromMHash] undoes [generateMHashFromB3hash]. *)
Theorem digest_of_a_cid (fuel : nat) (cid b3hash : Buffer) :
  (34 <= List.length cid)%nat -> (List.length cid < fuel)%nat ->
  extractB3hashFromCID fuel cid = Some (firstn 32 (skipn 2 cid)) /\
  List.length (firstn 32 (skipn 2 cid)) = 32%nat /\
  option_map extractB3hashFromMHash (extractMHashFromCID fuel cid)
  = extractB3hashFromCID fuel cid /\
  extractB3hashFromMHash (generateMHashFromB3hash b3hash) = b3hash.
Proof.
  intros Hlen Hfuel.
  assert (Hw : hashSize_while fuel (Z.of_nat (List.length cid)) 0
                 (Z.of_nat (List.length cid) - 1) = Some 33)
    by (apply hashSize_while_from_start; lia).
  assert (Hs : slice cid 1 (1 + 33) = firstn 33 (skipn 1 cid))
    by (rewrite slice_firstn_skipn by lia; reflexivity).
  assert (Hl : List.length (firstn 33 (skipn 1 cid)) = 33%nat)
    by (rewrite length_firstn, length_skipn; lia).
  split; [|split; [|split]].
  - unfold extractB3hashFromCID. rewrite Hw, Hs.
    unfold extractB3hashFromMHash. rewrite slice_from_skipn by lia.
    change (Z.to_nat 1) with 1%nat.
    rewrite (skipn_firstn_comm 1 33 (skipn 1 cid)).
    now rewrite skipn_skipn.
  - rewrite length_firstn, length_skipn. lia.
  - unfold extractMHashFromCID, extractB3hashFromCID. now rewrite Hw.
  - unfold extractB3hashFromMHash, generateMHashFromB3hash.
    now rewrite slice_from_skipn by lia.
Qed.

Lemma digest_of_a_cid_witness :
  (34 <= List.length scenario_cid)%nat /\
  (List.length scenario_cid < 36)%nat /\
  extractB3hashFromCID 36 scenario_cid = Some (firstn 32 (skipn 2 scenario_cid)).
Proof.
  assert (H1 : (34 <= List.length scenario_cid)%nat) by (vm_compute; lia).
  assert (H2 : (List.length scenario_cid < 36)%nat) by (vm_compute; lia).
  split; [exact H1|]. split; [exact H2|].
  exact (proj1 (digest_of_a_cid 36 scenario_cid [] H1 H2)).
Defined.

(** ** Which entry points end *)

Lemma short_cid_size cid :
  (List.length cid < 34)%nat -> neq0 (extractRawSizeFromCID cid) = false.
Proof.
  intros H. unfold extractRawSizeFromCID.
  destruct (Nat.leb_spec 34 (List.length cid)); [lia|].
  rewrite slice_from_all by lia. now rewrite bufToNum_nil.
Qed.

(** [convertS5CidToMHash] and [getAllInfosFromCid] decode as
    [convertS5CidToCIDBytes] does. *)
Lemma convertS5CidToMHash_spec fuel cid :
  convertS5CidToMHash fuel cid
  = match convertS5CidToCIDBytes cid with
    | Throw e => Some (Throw e)
    | Return cidBytes =>
        match extractMHashFromCID fuel cidBytes with
        | Some mhash => Some (Return mhash)
        | None => None
        end
    end.
Proof.
  unfold convertS5CidToMHash, convertS5CidToCIDBytes.
  generalize decodeCIDWithPrefixZ, decodeCIDWithPrefixU, decodeCIDWithPrefixB,
    (extractMHashFromCID fuel).
  intros dz du db ex.
  destruct cid as [|c rest]; [reflexivity|].
  change (first_is (String c rest) "z") with (Ascii.eqb c "z").
  change (first_is (String c rest) "u") with (Ascii.eqb c "u").
  change (first_is (String c rest) "b") with (Ascii.eqb c "b").
  destruct (Ascii.eqb_spec c "z") as [->|Hz].
  { change (Ascii.eqb "z" "u") with false. change (Ascii.eqb "z" "b") with false.
    destruct (dz (String "z" rest)) as [b|e]; reflexivity. }
  destruct (Ascii.eqb_spec c "u") as [->|Hu].
  { change (Ascii.eqb "u" "b") with false. cbn [bind].
    destruct (du (String "u" rest)) as [b|e]; reflexivity. }
  destruct (Ascii.eqb_spec c "b") as [->|Hb]; reflexivity.
Qed.

Lemma getAllInfosFromCid_spec fuel cid :
  getAllInfosFromCid fuel cid
  = match convertS5CidToCIDBytes cid with
    | Throw e => Some (Throw e)
    | Return cidBytes =>
        if neq0 (extractRawSizeFromCID cidBytes) then
          match convertS5CidToMHashB64url fuel cid with
          | None => None
          | Some (Throw e) => Some (Throw e)
          | Some (Return mHashBase64url) =>
              match convertS5CidToB3hashHex fuel cid with
              | None => None
              | Some (Throw e) => Some (Throw e)
              | Some (Return b3hashHex) =>
                  Some (Return {| zcid := encodeCIDWithPrefixZ cidBytes;
                                  ucid := encodeCIDWithPrefixU cidBytes;
                                  bcid := encodeCIDWithPrefixB cidBytes;
                                  mhashb64url := mHashBase64url;
                                  b3hashhex := b3hashHex;
                                  b3filesize := extractRawSizeFromCID cidBytes |})
              end
          end
        else
          Some (Return {| zcid := encodeCIDWithPrefixZ cidBytes;
                          ucid := encodeCIDWithPrefixU cidBytes;
                          bcid := encodeCIDWithPrefixB cidBytes;
                          mhashb64url := "It is not possible!";
                          b3hashhex := "It is not possible!";
                          b3filesize := extractRawSizeFromCID cidBytes |})
    end.
Proof.
  unfold getAllInfosFromCid, convertS5CidToCIDBytes.
  generalize (convertS5CidToMHashB64url fuel cid), (convertS5CidToB3hashHex fuel cid),
    decodeCIDWithPrefixZ, decodeCIDWithPrefixU, decodeCIDWithPrefixB.
  intros m64 hex dz du db.
  destruct cid as [|c rest]; [reflexivity|].
  change (first_is (String c rest) "z") with (Ascii.eqb c "z").
  change (first_is (String c rest) "u") with (Ascii.eqb c "u").
  change (first_is (String c rest) "b") with (Ascii.eqb c "b").
  destruct (Ascii.eqb_spec c "z") as [->|Hz].
  { change (Ascii.eqb "z" "u") with false. change (Ascii.eqb "z" "b") with false.
    destruct (dz (String "z" rest)) as [b|e]; reflexivity. }
  destruct (Ascii.eqb_spec c "u") as [->|Hu].
  { change (Ascii.eqb "u" "b") with false. cbn [bind].
    destruct (du (String "u" rest)) as [b|e]; reflexivity. }
  destruct (Ascii.eqb_spec c "b") as [->|Hb]; reflexivity.
Qed.

Lemma guarded_search_ends fuel c :
  (List.length c < fuel)%nat -> neq0 (extractRawSizeFromCID c) = true ->
  extractMHashFromCID fuel c = Some (slice c 1 34) /\
  exists h, extractB3hashFromCID fuel c = Some h.
Proof.
  intros Hfuel Hsize.
  assert (Hlen : (34 <= List.length c)%nat).
  { destruct (Nat.le_gt_cases 34 (List.length c)) as [H|H]; [exact H|].
    rewrite short_cid_size in Hsize by assumption. discriminate. }
  split; [now apply extractMHashFromCID_long|].
  unfold extractB3hashFromCID.
  rewrite hashSize_while_from_start by lia. eauto.
Qed.

Lemma guarded_entry_points_end fuel cid c :
  convertS5CidToCIDBytes cid = Return c -> (List.length c < fuel)%nat ->
  (exists r, convertS5CidToB3hashHex fuel cid = Some r) /\
  (exists r, convertS5CidToMHashB64url fuel cid = Some r) /\
  (exists r, getAllInfosFromCid fuel cid = Some r).
Proof.
  intros E Hfuel.
  assert (Hhex : exists r, convertS5CidToB3hashHex fuel cid = Some r).
  { rewrite convertS5CidToB3hashHex_spec, E. unfold b3hash_of.
    destruct (neq0 (extractRawSizeFromCID c)) eqn:N; [|eauto].
    destruct (guarded_search_ends fuel c Hfuel N) as [_ [h ->]]. eauto. }
  assert (H64 : exists r, convertS5CidToMHashB64url fuel cid = Some r).
  { unfold convertS5CidToMHashB64url. rewrite E.
    destruct (neq0 (extractRawSizeFromCID c)) eqn:N; [|eauto].
    rewrite convertS5CidToMHash_spec, E.
    destruct (guarded_search_ends fuel c Hfuel N) as [-> _]. eauto. }
  split; [exact Hhex|]. split; [exact H64|].
  rewrite getAllInfosFromCid_spec, E.
  destruct Hhex as [[x|e] ->], H64 as [[y|e'] ->];
    destruct (neq0 (extractRawSizeFromCID c)); eauto.
Qed.

(** X22: [convertS5CidToB3hashHex], [convertS5CidToMHashB64url] and
    [getAllInfosFromCid] end on every text, since they look at the size
    before they search for the multihash; [convertS5CidToMHash] does
    not look, and never ends on a text that decodes to fewer than 34
    bytes. *)
Theorem which_entry_points_end (cid : string) :
  (exists fuel, forall fuel', (fuel <= fuel')%nat ->
     (exists r, convertS5CidToB3hashHex fuel' cid = Some r) /\
     (exists r, convertS5CidToMHashB64url fuel' cid = Some r) /\
     (exists r, getAllInfosFromCid fuel' cid = Some r)) /\
  (forall c, convertS5CidToCIDBytes cid = Return c ->
     (List.length c < 34)%nat ->
     forall fuel, convertS5CidToMHash fuel cid = None).
Proof.
  split.
  - destruct (convertS5CidToCIDBytes cid) as [c|e] eqn:E.
    + exists (S (List.length c)). intros fuel' Hf.
      apply (guarded_entry_points_end fuel' cid c E). lia.
    + exists 0%nat. intros fuel' _.
      rewrite convertS5CidToB3hashHex_spec, getAllInfosFromCid_spec.
      unfold convertS5CidToMHashB64url. rewrite E. repeat split; eauto.
  - intros c E Hshort fuel. rewrite convertS5CidToMHash_spec, E.
    destruct (extractMHashFromCID_short fuel c Hshort) as [-> _]. reflexivity.
Qed.

Lemma which_entry_points_end_witness :
  convertS5CidToCIDBytes "uJh8" = Return [Byte.x26; Byte.x1f] /\
  (List.length [Byte.x26; Byte.x1f] < 34)%nat /\
  convertS5CidToMHash 1000 "uJh8" = None.
Proof.
  assert (H1 : convertS5CidToCIDBytes "uJh8" = Return [Byte.x26; Byte.x1f])
    by (vm_compute; reflexivity).
  assert (H2 : (List.length [Byte.x26; Byte.x1f] < 34)%nat) by (cbn; lia).
  split; [exact H1|]. split; [exact H2|].
  exact (proj2 (which_entry_points_end "uJh8") _ H1 H2 1000%nat).
Defined.
